(** * auto-g: the issue mirror, its sync pipeline and its two API routes

    A shallow embedding of

    - [src/lib/sync-issues.ts]        (fetchIssuesFromRepo, syncIssue,
                                       syncIssuesFromGitHub),
    - [src/lib/fetch-user-issues.ts]  (extractRepoFromUrl,
                                       fetchUserAssignedIssues,
                                       syncUserAssignedIssues),
    - [src/app/api/issues/route.ts]   (GET),
    - [src/app/api/issues/[id]/start/route.ts] (POST),
    - [src/app/api/sync-issues/route.ts] (POST) and the route that syncs
      the issues assigned to one user (POST),
    - [src/components/IssueCard.tsx]  (getServiceOptions, handleStart,
                                       and handleSync of the header),
    - [src/components/IssueList.tsx]  (fetchIssues, handleIssueUpdate),

    followed by the properties the specification states about them and
    by further properties of the code.

    Conventions of the embedding.

    - Strings are byte strings (UTF-8).
    - A JavaScript [number] is [NaN], an infinity, the negative zero or a
      finite rational; finite values are exact, so the model agrees with
      IEEE doubles as long as the integers involved stay below 2^53.
    - Asynchronous code runs to completion one call after the other
      (every [await] is sequenced), the store and the scheduled storage
      faults are threaded explicitly, and a thrown value is a result.
    - The network, [new Date] and the answer of the database client to
      arguments outside its domain are parameters of the code that uses
      them.
    - The [while (true)] loop of the fetcher takes a bound on the number
      of pages it may request; the statements say when the bound is
      enough and that a larger one changes nothing.
    - [console.log] and [console.error] have no effect on results and are
      left out.
    - A request of a component reaches its route and the answer comes
      back; what a component renders is left out. *)

From Stdlib Require Import ZArith QArith Qround Lia Ascii.
From Stdlib Require Qcanon.
From stdpp Require Import gmap strings list fin_maps pretty sorting.

Close Scope Q_scope.
Open Scope string_scope.

(* ===================================================================== *)
(** * Part I: definitions                                                 *)
(* ===================================================================== *)

(** ** JavaScript values used by the code *)

Module JS.

(** What a [catch (err)] clause can receive: an [Error] instance with its
    message, or any other thrown value. *)
Inductive Thrown : Type :=
  | JsError (message : string)
  | NonError.

(** [err instanceof Error ? err.message : 'Unknown error'] *)
Definition message_of (err : Thrown) : string :=
  match err with
  | JsError m => m
  | NonError => "Unknown error"
  end.

(** Result of running a piece of code: it returns or it throws. *)
Inductive Completion (A : Type) : Type :=
  | Normal (a : A)
  | Throw (e : Thrown).
Arguments Normal {A} a.
Arguments Throw {A} e.

(** *** Numbers *)

Inductive number : Type :=
  | NaN
  | Inf (negative : bool)
  | NegZero
  | Fin (q : Q).          (* [Fin 0] is the positive zero *)

Definition Int (z : Z) : number := Fin (inject_Z z).

Definition Qzero (q : Q) : bool := (Qnum q =? 0)%Z.
Definition Qneg (q : Q) : bool := (Qnum q <? 0)%Z.

Definition is_zero (x : number) : bool :=
  match x with
  | NegZero => true
  | Fin q => Qzero q
  | _ => false
  end.

Definition sign (x : number) : bool :=   (* true: the sign bit is set *)
  match x with
  | NaN => false
  | Inf s => s
  | NegZero => true
  | Fin q => Qneg q
  end.

Definition zero_of (negative : bool) : number :=
  if negative then NegZero else Fin 0.

(** [x - y] *)
Definition sub (x y : number) : number :=
  match x, y with
  | NaN, _ | _, NaN => NaN
  | Inf a, Inf b => if Bool.eqb a b then NaN else Inf a
  | Inf a, _ => Inf a
  | _, Inf b => Inf (negb b)
  | NegZero, NegZero => Fin 0
  | NegZero, Fin q => if Qzero q then NegZero else Fin (Qopp q)
  | Fin p, NegZero => Fin p
  | Fin p, Fin q => Fin (Qred (Qminus p q))
  end.

(** [x * y] *)
Definition mul (x y : number) : number :=
  match x, y with
  | NaN, _ | _, NaN => NaN
  | Inf a, _ => if is_zero y then NaN else Inf (xorb a (sign y))
  | _, Inf b => if is_zero x then NaN else Inf (xorb (sign x) b)
  | Fin p, Fin q =>
      if Qzero p || Qzero q then zero_of (xorb (Qneg p) (Qneg q))
      else Fin (Qred (Qmult p q))
  | _, _ => zero_of (xorb (sign x) (sign y))   (* a negative zero operand *)
  end.

(** [x / y] *)
Definition div (x y : number) : number :=
  match x, y with
  | NaN, _ | _, NaN => NaN
  | Inf _, Inf _ => NaN
  | Inf a, _ => Inf (xorb a (sign y))
  | _, Inf b => zero_of (xorb (sign x) b)
  | _, _ =>
      if is_zero y then
        if is_zero x then NaN else Inf (xorb (sign x) (sign y))
      else if is_zero x then zero_of (xorb (sign x) (sign y))
      else match x, y with
           | Fin p, Fin q => Fin (Qred (Qdiv p q))
           | _, _ => NaN                        (* not reached *)
           end
  end.

(** [Math.ceil(x)] *)
Definition Math_ceil (x : number) : number :=
  match x with
  | Fin q =>
      let c := Qceiling q in
      if (c =? 0)%Z && Qneg q then NegZero else Int c
  | _ => x
  end.

(** The natural number a numeric argument denotes, when it is a
    non-negative integer (the negative zero counts as 0). *)
Definition as_nat (x : number) : option nat :=
  match x with
  | NegZero => Some 0%nat
  | Fin q =>
      if ((Z.pos (Qden q) =? 1)%Z && (0 <=? Qnum q)%Z)%bool
      then Some (Z.to_nat (Qnum q)) else None
  | _ => None
  end.

(** *** Strings *)

Definition byte (c : ascii) : nat := nat_of_ascii c.

(** Number of bytes of the white space or line terminator character at
    the head of [s] (ECMAScript [StrWhiteSpaceChar], UTF-8 encoded);
    [0] when [s] does not start with one. *)
Definition ws_head (s : string) : nat :=
  match s with
  | EmptyString => 0
  | String c rest =>
      if (bool_decide (9 ≤ byte c ≤ 13) || bool_decide (byte c = 32))%bool
      then 1                                          (* TAB LF VT FF CR SP *)
      else
        match byte c, rest with
        | 194, String d _ =>
            if bool_decide (byte d = 160) then 2 else 0          (* U+00A0 *)
        | 225, String d (String e _) =>
            if bool_decide (byte d = 154 ∧ byte e = 128) then 3 else 0   (* U+1680 *)
        | 226, String d (String e _) =>
            if (bool_decide (byte d = 128 ∧ 128 ≤ byte e ≤ 138)      (* U+2000 .. U+200A *)
                || bool_decide (byte d = 128 ∧ byte e = 168)         (* U+2028 *)
                || bool_decide (byte d = 128 ∧ byte e = 169)         (* U+2029 *)
                || bool_decide (byte d = 128 ∧ byte e = 175)         (* U+202F *)
                || bool_decide (byte d = 129 ∧ byte e = 159))%bool   (* U+205F *)
            then 3 else 0
        | 227, String d (String e _) =>
            if bool_decide (byte d = 128 ∧ byte e = 128) then 3 else 0   (* U+3000 *)
        | 239, String d (String e _) =>
            if bool_decide (byte d = 187 ∧ byte e = 191) then 3 else 0   (* U+FEFF *)
        | _, _ => 0
        end
  end%nat.

Fixpoint drop_bytes (n : nat) (s : string) : string :=
  match n, s with
  | S n', String _ s' => drop_bytes n' s'
  | _, _ => s
  end.

(** [s.trimStart()]; the fuel is the length of [s]. *)
Fixpoint trimStart_fuel (fuel : nat) (s : string) : string :=
  match fuel with
  | O => s
  | S fuel' =>
      match ws_head s with
      | O => s
      | n => trimStart_fuel fuel' (drop_bytes n s)
      end
  end.

Definition trimStart (s : string) : string := trimStart_fuel (String.length s) s.

(** [s.trimEnd()]: the longest prefix after which only white space
    follows. *)
Fixpoint trimEnd (s : string) : string :=
  match s with
  | EmptyString => EmptyString
  | String c s' =>
      match trimStart s with
      | EmptyString => EmptyString
      | _ => String c (trimEnd s')
      end
  end.

(** [s.trim()] *)
Definition trim (s : string) : string := trimEnd (trimStart s).

(** [s.split(sep)] for a one-character separator. *)
Fixpoint split (sep : ascii) (s : string) : list string :=
  match s with
  | EmptyString => [EmptyString]
  | String c s' =>
      if Ascii.eqb c sep then EmptyString :: split sep s'
      else match split sep s' with
           | piece :: pieces => String c piece :: pieces
           | [] => [String c EmptyString]              (* not reached *)
           end
  end.

(** Truthiness of a string that may be [null] or [undefined]. *)
Definition truthy (o : option string) : bool :=
  match o with
  | Some s => negb (String.eqb s "")
  | None => false
  end.

(** [o || d] where [o] is a string, [null] or [undefined]. *)
Definition or_default (o : option string) (d : string) : string :=
  match o with
  | Some s => if String.eqb s "" then d else s
  | None => d
  end.

(** *** parseInt *)

Definition digit_value (c : ascii) : option Z :=
  let n := Z.of_nat (nat_of_ascii c) in
  if ((48 <=? n) && (n <=? 57))%Z%bool then Some (n - 48)%Z
  else if ((97 <=? n) && (n <=? 122))%Z%bool then Some (n - 87)%Z
  else if ((65 <=? n) && (n <=? 90))%Z%bool then Some (n - 55)%Z
  else None.

(** Value of the longest prefix of [s] made of digits of [radix],
    continuing from [acc]; [None] when no digit has been read. *)
Fixpoint digits (radix : Z) (acc : option Z) (s : string) : option Z :=
  match s with
  | EmptyString => acc
  | String c s' =>
      match digit_value c with
      | Some d =>
          if (d <? radix)%Z
          then digits radix (Some (default 0%Z acc * radix + d)%Z) s'
          else acc
      | None => acc
      end
  end.

(** [parseInt(s)] with no radix argument. *)
Definition parseInt (s : string) : number :=
  let s1 := trimStart s in
  let '(negative, s2) :=
    match s1 with
    | String "-" r => (true, r)
    | String "+" r => (false, r)
    | _ => (false, s1)
    end in
  let '(radix, s3) :=
    match s2 with
    | String "0" (String "x" r) | String "0" (String "X" r) => (16%Z, r)
    | _ => (10%Z, s2)
    end in
  match digits radix None s3 with
  | None => NaN
  | Some 0%Z => zero_of negative
  | Some n => Int (if negative then - n else n)
  end.

End JS.

Import JS.

(** ** The persisted data model

    Table [issues] of the migration, as the Prisma client exposes it.  The
    primary key [id] is the key of the table below; the bookkeeping columns
    [created_at] and [updated_at] are filled in by the storage layer and
    occur in no data object of the code, so rows do not carry them. *)

Inductive GitHubStatus : Type := open | closed.

Inductive WorkflowStatus : Type := pending | in_process | end_.

#[global] Instance GitHubStatus_eq_dec : EqDecision GitHubStatus.
Proof. solve_decision. Defined.

#[global] Instance WorkflowStatus_eq_dec : EqDecision WorkflowStatus.
Proof. solve_decision. Defined.

(** The enum labels, as they travel in query strings and JSON. *)
Definition GitHubStatus_label (s : GitHubStatus) : string :=
  match s with open => "open" | closed => "closed" end.

Definition WorkflowStatus_label (s : WorkflowStatus) : string :=
  match s with pending => "pending" | in_process => "in_process" | end_ => "end" end.

(** Position in [CREATE TYPE "WorkflowStatus" AS ENUM (...)], the order
    the database sorts the column by. *)
Definition WorkflowStatus_rank (s : WorkflowStatus) : nat :=
  match s with pending => 0 | in_process => 1 | end_ => 2 end.

Record Issue : Type := mkIssue {
  githubNumber    : Z;
  repository      : string;
  title           : string;
  description     : option string;
  statusGithub    : GitHubStatus;
  workflowStatus  : WorkflowStatus;
  url             : string;
  labels          : list string;
  createdAtGithub : Z;               (* instants, in milliseconds *)
  updatedAtGithub : Z;
  selectedContext : option string;
  prompt          : option string
}.

#[global] Instance Issue_eq_dec : EqDecision Issue.
Proof. solve_decision. Defined.

(** A record as the client returns it: its [id] and its columns. *)
Definition Stored : Type := string * Issue.

(** ** The store and the effects of the code *)

(** The state the code runs against: the table, keyed by [id], and the
    storage faults still to come.  Every call to the Prisma client
    consumes the head of [faults]; [Some e] there makes that call reject
    with [e] and leave the table alone (a lost connection, a conflict
    with a concurrent writer), [None] or an empty schedule lets it run. *)
Record World : Type := mkWorld {
  table  : gmap string Issue;
  faults : list (option Thrown)
}.

Definition M (A : Type) : Type := World -> Completion A * World.

Definition ret {A} (a : A) : M A := fun w => (Normal a, w).

Definition throw {A} (e : Thrown) : M A := fun w => (Throw e, w).

Definition bind {A B} (c : M A) (k : A -> M B) : M B :=
  fun w =>
    match c w with
    | (Normal a, w') => k a w'
    | (Throw e, w') => (Throw e, w')
    end.

Notation "x <~ c ;; k" := (bind c (fun x => k))
  (at level 100, c at next level, right associativity).

(** One call to the client: [op] is what the call does to a healthy
    table. *)
Definition prisma_call {A} (op : gmap string Issue -> Completion A * gmap string Issue) : M A :=
  fun w =>
    match head (faults w) with
    | Some (Some e) => (Throw e, mkWorld (table w) (tail (faults w)))
    | _ => let '(r, t) := op (table w) in (r, mkWorld t (tail (faults w)))
    end.

(** No fault is scheduled for the next [n] calls to the client. *)
Definition calm (n : nat) (w : World) : Prop :=
  Forall (fun f => f = None) (take n (faults w)).

#[global] Instance calm_dec n w : Decision (calm n w).
Proof. unfold calm. apply _. Defined.

Module Prisma.

(** The row that the unique index on [(github_number, repository)]
    designates. *)
Definition lookup_key (n : Z) (repo : string) (t : gmap string Issue) : option Stored :=
  List.find (fun r : Stored => bool_decide (githubNumber r.2 = n ∧ repository r.2 = repo))
            (map_to_list t).

(** [prisma.issue.findUnique({ where: { githubNumber_repository: {...} } })] *)
Definition findUnique_githubNumber_repository (n : Z) (repo : string) : M (option Stored) :=
  prisma_call (fun t => (Normal (lookup_key n repo t), t)).

(** [prisma.issue.findUnique({ where: { id } })] *)
Definition findUnique_id (id : string) : M (option Stored) :=
  prisma_call (fun t => (Normal ((fun r => (id, r)) <$> t !! id), t)).

(** The data object of [prisma.issue.create]; [selectedContext] and
    [prompt] are not given and default to NULL. *)
Record CreateInput : Type := mkCreate {
  c_githubNumber    : Z;
  c_repository      : string;
  c_title           : string;
  c_description     : option string;
  c_statusGithub    : GitHubStatus;
  c_workflowStatus  : WorkflowStatus;
  c_url             : string;
  c_labels          : list string;
  c_createdAtGithub : Z;
  c_updatedAtGithub : Z
}.

Definition new_row (d : CreateInput) : Issue :=
  {| githubNumber := c_githubNumber d;
     repository := c_repository d;
     title := c_title d;
     description := c_description d;
     statusGithub := c_statusGithub d;
     workflowStatus := c_workflowStatus d;
     url := c_url d;
     labels := c_labels d;
     createdAtGithub := c_createdAtGithub d;
     updatedAtGithub := c_updatedAtGithub d;
     selectedContext := None;
     prompt := None |}.

Definition P2002 : Thrown :=
  JsError "Unique constraint failed on the fields: (`githubNumber`,`repository`)".

Definition P2025 : Thrown :=
  JsError "Record to update not found.".

(** [prisma.issue.create({ data })]: the row gets an [id] no row has;
    the unique index rejects a second row for the same key. *)
Definition create (d : CreateInput) : M Stored :=
  prisma_call (fun t =>
    match lookup_key (c_githubNumber d) (c_repository d) t with
    | Some _ => (Throw P2002, t)
    | None =>
        let id := fresh (dom t) in
        (Normal (id, new_row d), <[id := new_row d]> t)
    end).

(** The data object of [prisma.issue.update]: a column is written when
    the object has the property. *)
Record UpdateInput : Type := mkUpdate {
  u_title           : option string;
  u_description     : option (option string);
  u_statusGithub    : option GitHubStatus;
  u_workflowStatus  : option WorkflowStatus;
  u_url             : option string;
  u_labels          : option (list string);
  u_updatedAtGithub : option Z;
  u_selectedContext : option (option string);
  u_prompt          : option (option string)
}.

Definition write (u : UpdateInput) (r : Issue) : Issue :=
  {| githubNumber := githubNumber r;
     repository := repository r;
     title := default (title r) (u_title u);
     description := default (description r) (u_description u);
     statusGithub := default (statusGithub r) (u_statusGithub u);
     workflowStatus := default (workflowStatus r) (u_workflowStatus u);
     url := default (url r) (u_url u);
     labels := default (labels r) (u_labels u);
     createdAtGithub := createdAtGithub r;
     updatedAtGithub := default (updatedAtGithub r) (u_updatedAtGithub u);
     selectedContext := default (selectedContext r) (u_selectedContext u);
     prompt := default (prompt r) (u_prompt u) |}.

(** [prisma.issue.update({ where: { id }, data })] *)
Definition update (id : string) (u : UpdateInput) : M Stored :=
  prisma_call (fun t =>
    match t !! id with
    | None => (Throw P2025, t)
    | Some r => (Normal (id, write u r), <[id := write u r]> t)
    end).

(** The [where] object of the list route: equality filters on up to
    three columns, the enum columns compared by label. *)
Record Where : Type := mkWhere {
  where_repository     : option string;
  where_workflowStatus : option string;
  where_statusGithub   : option string
}.

Definition holds (f : option string) (v : string) : bool :=
  match f with
  | Some s => String.eqb v s
  | None => true
  end.

Definition satisfies (wh : Where) (r : Stored) : bool :=
  holds (where_repository wh) (repository r.2)
  && holds (where_workflowStatus wh) (WorkflowStatus_label (workflowStatus r.2))
  && holds (where_statusGithub wh) (GitHubStatus_label (statusGithub r.2)).

Definition matching (wh : Where) (t : gmap string Issue) : list Stored :=
  List.filter (satisfies wh) (map_to_list t).

(** [prisma.issue.count({ where })] *)
Definition count (wh : Where) : M nat :=
  prisma_call (fun t => (Normal (length (matching wh t)), t)).

(** [orderBy: [{ workflowStatus: "asc" }, { updatedAtGithub: "desc" }]] *)
Definition before (a b : Stored) : Prop :=
  WorkflowStatus_rank (workflowStatus a.2) < WorkflowStatus_rank (workflowStatus b.2)
  ∨ (WorkflowStatus_rank (workflowStatus a.2) = WorkflowStatus_rank (workflowStatus b.2)
     ∧ (updatedAtGithub b.2 ≤ updatedAtGithub a.2)%Z).

#[global] Instance before_dec a b : Decision (before a b).
Proof. unfold before. apply _. Defined.

Definition ordered (rows : list Stored) : list Stored := merge_sort before rows.

End Prisma.

(** ** What the GitHub REST API delivers *)

Module GitHub.

(** [state: 'open' | 'closed'] *)
Inductive State : Type := state_open | state_closed.

#[global] Instance State_eq_dec : EqDecision State.
Proof. solve_decision. Defined.

Record Label : Type := mkLabel { name : string }.

(** [interface GitHubIssue] *)
Record GitHubIssue : Type := mkGitHubIssue {
  number         : Z;
  title          : string;
  body           : option string;
  state          : State;
  html_url       : string;
  labels         : list Label;
  created_at     : string;
  updated_at     : string;
  repository_url : string
}.

(** An element of the array an endpoint answers with: an issue, which is
    a pull request when it carries the [pull_request] property. *)
Record Item : Type := mkItem {
  issue        : GitHubIssue;
  pull_request : bool
}.

(** Outcome of [fetch(url, { headers })] followed by reading the body. *)
Inductive Response : Type :=
  | Rejected (e : Thrown)                                  (* no response at all *)
  | NotOk (status : Z) (statusText : string) (text : string)   (* [!response.ok] *)
  | BadBody (e : Thrown)                                   (* [response.json()] rejects *)
  | Ok (items : list Item).                                (* [response.ok], parsed *)

End GitHub.

Export GitHub (GitHubIssue).

(** ** Helpers of the sync modules *)

Fixpoint strip_prefix (p s : string) : option string :=
  match p, s with
  | EmptyString, _ => Some s
  | String a p', String b s' => if Ascii.eqb a b then strip_prefix p' s' else None
  | String _ _, EmptyString => None
  end.

(** [s] starts with LF, CR, U+2028 or U+2029, the characters the regular
    expression dot does not match. *)
Definition line_terminator_head (s : string) : bool :=
  match s with
  | String c rest =>
      bool_decide (byte c = 10%nat) || bool_decide (byte c = 13%nat)
      || match rest with
         | String d (String e _) =>
             bool_decide (byte c = 226 ∧ byte d = 128 ∧ (byte e = 168 ∨ byte e = 169))%nat
         | _ => false
         end
  | EmptyString => false
  end.

Fixpoint dot_plus_to_end (s : string) : bool :=
  match s with
  | EmptyString => true
  | String _ s' => negb (line_terminator_head s) && dot_plus_to_end s'
  end.

(** First group of the leftmost match of [/repos\/(.+)$/] in [s]. *)
Fixpoint match_repos (s : string) : option string :=
  match s with
  | EmptyString => None
  | String _ s' =>
      match strip_prefix "repos/" s with
      | Some rest =>
          if negb (String.eqb rest "") && dot_plus_to_end rest then Some rest
          else match_repos s'
      | None => match_repos s'
      end
  end.

(** [extractRepoFromUrl]: ["https://api.github.com/repos/owner/repo"]
    gives ["owner/repo"]. *)
Definition extractRepoFromUrl (repoUrl : string) : string :=
  match match_repos repoUrl with
  | Some group => group
  | None => repoUrl
  end.

Definition hex_digit (n : nat) : ascii :=
  ascii_of_nat (if (n <? 10)%nat then 48 + n else 55 + n).

(** Characters [encodeURIComponent] leaves alone:
    letters, digits and [- _ . ! ~ * ' ( )]. *)
Definition unreserved (c : ascii) : bool :=
  let n := byte c in
  (bool_decide (48 ≤ n ≤ 57) || bool_decide (65 ≤ n ≤ 90) || bool_decide (97 ≤ n ≤ 122)
   || bool_decide (n ∈ [45; 95; 46; 33; 126; 42; 39; 40; 41]))%nat.

Fixpoint encodeURIComponent (s : string) : string :=
  match s with
  | EmptyString => EmptyString
  | String c s' =>
      if unreserved c then String c (encodeURIComponent s')
      else String "%" (String (hex_digit (byte c / 16))
                         (String (hex_digit (byte c mod 16)) (encodeURIComponent s')))
  end.

(** [process.env] *)
Record Env : Type := mkEnv {
  GH_TOKEN : option string;
  GH_REPOS : option string
}.

(** ** [src/lib/sync-issues.ts] *)

Module SyncIssues.

(** ['created' | 'updated'] *)
Inductive SyncAction : Type := action_created | action_updated.

(** [interface SyncResult] *)
Record SyncResult : Type := mkSyncResult {
  created : nat;
  updated : nat;
  errors  : list string
}.

(** [if (action === 'created') result.created++; else result.updated++] *)
Definition tally (action : SyncAction) (result : SyncResult) : SyncResult :=
  match action with
  | action_created => mkSyncResult (S (created result)) (updated result) (errors result)
  | action_updated => mkSyncResult (created result) (S (updated result)) (errors result)
  end.

(** [result.errors.push(msg)] *)
Definition push_error (msg : string) (result : SyncResult) : SyncResult :=
  mkSyncResult (created result) (updated result) (errors result ++ [msg])%list.

Definition perPage : nat := 100.

(** The URL of page [page] of the issues of [owner/repo]. *)
Definition page_url (owner repo : string) (page : nat) : string :=
  "https://api.github.com/repos/" ++ owner ++ "/" ++ repo
  ++ "/issues?state=all&per_page=" ++ pretty perPage ++ "&page=" ++ pretty page.

Section WithPlatform.

(** The network, as seen through [fetch]: the answer to a GET of [url]
    carrying the bearer [token]. *)
Variable fetch : string -> string -> GitHub.Response.

(** [new Date(s)] for the timestamps of the API, as an instant. *)
Variable new_Date : string -> Z.

(** The [while (true)] loop of [fetchIssuesFromRepo], entered with [page]
    and the [issues] gathered so far.  [fuel] bounds the number of pages
    requested; [None] means the remote was still handing out full pages
    when the bound was reached. *)
Fixpoint fetchPages (fuel : nat) (owner repo token : string) (page : nat)
    (issues : list GitHubIssue) : option (Completion (list GitHubIssue)) :=
  match fuel with
  | O => None
  | S fuel' =>
      let url := page_url owner repo page in
      match fetch url token with
      | GitHub.Rejected e => Some (Throw e)
      | GitHub.NotOk status statusText _ =>
          Some (Throw (JsError ("GitHub API error: " ++ pretty status ++ " " ++ statusText)))
      | GitHub.BadBody e => Some (Throw e)
      | GitHub.Ok data =>
          let issuesOnly := List.filter (fun item => negb (GitHub.pull_request item)) data in
          let issues := (issues ++ map GitHub.issue issuesOnly)%list in
          if (length data <? perPage)%nat then Some (Normal issues)
          else fetchPages fuel' owner repo token (S page) issues
      end
  end.

(** [fetchIssuesFromRepo(owner, repo, token)] *)
Definition fetchIssuesFromRepo (fuel : nat) (owner repo token : string)
    : option (Completion (list GitHubIssue)) :=
  fetchPages fuel owner repo token 1 [].

(** [syncIssue(issue, repository)] *)
Definition syncIssue (issue : GitHubIssue) (repository : string) : M SyncAction :=
  let githubStatus :=
    if decide (GitHub.state issue = GitHub.state_open) then open else closed in
  let labels := map GitHub.name (GitHub.labels issue) in
  existing <~ Prisma.findUnique_githubNumber_repository (GitHub.number issue) repository ;;
  match existing with
  | None =>
      let workflowStatus := if decide (githubStatus = closed) then end_ else pending in
      _ <~ Prisma.create
             {| Prisma.c_githubNumber := GitHub.number issue;
                Prisma.c_repository := repository;
                Prisma.c_title := GitHub.title issue;
                Prisma.c_description := GitHub.body issue;
                Prisma.c_statusGithub := githubStatus;
                Prisma.c_workflowStatus := workflowStatus;
                Prisma.c_url := GitHub.html_url issue;
                Prisma.c_labels := labels;
                Prisma.c_createdAtGithub := new_Date (GitHub.created_at issue);
                Prisma.c_updatedAtGithub := new_Date (GitHub.updated_at issue) |} ;;
      ret action_created
  | Some existing =>
      let newWorkflowStatus :=
        if decide (githubStatus = closed) then end_
        else if decide (statusGithub existing.2 = closed ∧ githubStatus = open) then pending
        else workflowStatus existing.2 in
      _ <~ Prisma.update existing.1
             {| Prisma.u_title := Some (GitHub.title issue);
                Prisma.u_description := Some (GitHub.body issue);
                Prisma.u_statusGithub := Some githubStatus;
                Prisma.u_workflowStatus := Some newWorkflowStatus;
                Prisma.u_url := Some (GitHub.html_url issue);
                Prisma.u_labels := Some labels;
                Prisma.u_updatedAtGithub := Some (new_Date (GitHub.updated_at issue));
                Prisma.u_selectedContext := None;
                Prisma.u_prompt := None |} ;;
      ret action_updated
  end.

(** One turn of [for (const issue of issues)]: the [try] block and its
    [catch]. *)
Definition syncOne (repo : string) (issue : GitHubIssue) (result : SyncResult)
    : World -> SyncResult * World :=
  fun w =>
    match syncIssue issue repo w with
    | (Normal action, w') => (tally action result, w')
    | (Throw err, w') =>
        let msg := "Error syncing issue #" ++ pretty (GitHub.number issue) ++ " from "
                   ++ repo ++ ": " ++ message_of err in
        (push_error msg result, w')
    end.

Fixpoint syncEach (repo : string) (issues : list GitHubIssue) (result : SyncResult)
    : World -> SyncResult * World :=
  fun w =>
    match issues with
    | [] => (result, w)
    | issue :: rest =>
        let '(result', w') := syncOne repo issue result w in
        syncEach repo rest result' w'
    end.

(** One turn of [for (const repo of repos)]. *)
Definition syncRepo (fuel : nat) (token repo : string) (result : SyncResult)
    : World -> option (SyncResult * World) :=
  fun w =>
    let pieces := split "/" repo in
    let owner := pieces !! 0%nat in
    let repoName := pieces !! 1%nat in
    if negb (truthy owner) || negb (truthy repoName) then
      Some (push_error ("Invalid repo format: " ++ repo) result, w)
    else
      match fetchIssuesFromRepo fuel (default "" owner) (default "" repoName) token with
      | None => None
      | Some (Normal issues) => Some (syncEach repo issues result w)
      | Some (Throw err) =>
          let msg := "Error fetching issues from " ++ repo ++ ": " ++ message_of err in
          Some (push_error msg result, w)
      end.

Fixpoint syncRepos (fuel : nat) (token : string) (repos : list string) (result : SyncResult)
    : World -> option (SyncResult * World) :=
  fun w =>
    match repos with
    | [] => Some (result, w)
    | repo :: rest =>
        match syncRepo fuel token repo result w with
        | None => None
        | Some (result', w') => syncRepos fuel token rest result' w'
        end
    end.

(** [syncIssuesFromGitHub()]; [None] when a paging loop outlives [fuel]. *)
Definition syncIssuesFromGitHub (fuel : nat) (env : Env)
    : World -> option (Completion SyncResult * World) :=
  fun w =>
    if negb (truthy (GH_TOKEN env)) then
      Some (Throw (JsError "GH_TOKEN environment variable is not set"), w)
    else if negb (truthy (GH_REPOS env)) then
      Some (Throw (JsError "GH_REPOS environment variable is not set"), w)
    else
      let token := default "" (GH_TOKEN env) in
      let repos := map trim (split "," (default "" (GH_REPOS env))) in
      match syncRepos fuel token repos (mkSyncResult 0 0 []) w with
      | None => None
      | Some (result, w') => Some (Normal result, w')
      end.

End WithPlatform.

End SyncIssues.

(** ** [src/lib/fetch-user-issues.ts] *)

Module FetchUserIssues.

(** [interface FetchResult] *)
Record FetchResult : Type := mkFetchResult {
  issues : list GitHubIssue;
  total  : nat;
  errors : list string
}.

(** The object [syncUserAssignedIssues] resolves to. *)
Record UserSyncResult : Type := mkUserSyncResult {
  created : nat;
  updated : nat;
  synced  : list Stored;          (* the [issues] property *)
  failed  : list string           (* the [errors] property *)
}.

Section WithPlatform.

Variable fetch : string -> string -> GitHub.Response.
Variable new_Date : string -> Z.

(** [fetchUserAssignedIssues(username, token)] *)
Definition fetchUserAssignedIssues (username token : string) : FetchResult :=
  let query := encodeURIComponent ("assignee:" ++ username ++ " is:issue is:open") in
  let url := "https://api.github.com/search/issues?q=" ++ query
             ++ "&sort=updated&order=desc&per_page=100" in
  let attempt : Completion (list GitHubIssue) :=
    match fetch url token with
    | GitHub.Rejected e => Throw e
    | GitHub.NotOk status statusText errorText =>
        Throw (JsError ("GitHub API error: " ++ pretty status ++ " " ++ statusText
                        ++ " - " ++ errorText))
    | GitHub.BadBody e => Throw e
    | GitHub.Ok items =>
        Normal (map GitHub.issue
                    (List.filter (fun item => negb (GitHub.pull_request item)) items))
    end in
  match attempt with
  | Normal issuesOnly => mkFetchResult issuesOnly (length issuesOnly) []
  | Throw err =>
      mkFetchResult [] 0
        ["Error fetching issues for user " ++ username ++ ": " ++ message_of err]
  end.

(** The [try] block of the loop of [syncUserAssignedIssues]: which branch
    ran and the record the client returned. *)
Definition syncOne (issue : GitHubIssue) (repository : string)
    : M (SyncIssues.SyncAction * Stored) :=
  let githubStatus :=
    if decide (GitHub.state issue = GitHub.state_open) then open else closed in
  let labels := map GitHub.name (GitHub.labels issue) in
  existing <~ Prisma.findUnique_githubNumber_repository (GitHub.number issue) repository ;;
  match existing with
  | None =>
      let workflowStatus := if decide (githubStatus = closed) then end_ else pending in
      created <~ Prisma.create
             {| Prisma.c_githubNumber := GitHub.number issue;
                Prisma.c_repository := repository;
                Prisma.c_title := GitHub.title issue;
                Prisma.c_description := GitHub.body issue;
                Prisma.c_statusGithub := githubStatus;
                Prisma.c_workflowStatus := workflowStatus;
                Prisma.c_url := GitHub.html_url issue;
                Prisma.c_labels := labels;
                Prisma.c_createdAtGithub := new_Date (GitHub.created_at issue);
                Prisma.c_updatedAtGithub := new_Date (GitHub.updated_at issue) |} ;;
      ret (SyncIssues.action_created, created)
  | Some existing =>
      let newWorkflowStatus :=
        if decide (githubStatus = closed) then end_
        else if decide (statusGithub existing.2 = closed ∧ githubStatus = open) then pending
        else workflowStatus existing.2 in
      updated <~ Prisma.update existing.1
             {| Prisma.u_title := Some (GitHub.title issue);
                Prisma.u_description := Some (GitHub.body issue);
                Prisma.u_statusGithub := Some githubStatus;
                Prisma.u_workflowStatus := Some newWorkflowStatus;
                Prisma.u_url := Some (GitHub.html_url issue);
                Prisma.u_labels := Some labels;
                Prisma.u_updatedAtGithub := Some (new_Date (GitHub.updated_at issue));
                Prisma.u_selectedContext := None;
                Prisma.u_prompt := None |} ;;
      ret (SyncIssues.action_updated, updated)
  end.

(** The loop [for (const issue of fetchResult.issues)]. *)
Fixpoint syncEach (todo : list GitHubIssue) (syncResult : UserSyncResult)
    : World -> UserSyncResult * World :=
  fun w =>
    match todo with
    | [] => (syncResult, w)
    | issue :: rest =>
        let repository := extractRepoFromUrl (GitHub.repository_url issue) in
        let '(syncResult', w') :=
          match syncOne issue repository w with
          | (Normal (SyncIssues.action_created, record), w') =>
              (mkUserSyncResult (S (created syncResult)) (updated syncResult)
                 (synced syncResult ++ [record])%list (failed syncResult), w')
          | (Normal (SyncIssues.action_updated, record), w') =>
              (mkUserSyncResult (created syncResult) (S (updated syncResult))
                 (synced syncResult ++ [record])%list (failed syncResult), w')
          | (Throw err, w') =>
              let msg := "Error syncing issue #" ++ pretty (GitHub.number issue) ++ " from "
                         ++ repository ++ ": " ++ message_of err in
              (mkUserSyncResult (created syncResult) (updated syncResult)
                 (synced syncResult) (failed syncResult ++ [msg])%list, w')
          end in
        syncEach rest syncResult' w'
    end.

(** [syncUserAssignedIssues(username)] *)
Definition syncUserAssignedIssues (env : Env) (username : string) : M UserSyncResult :=
  fun w =>
    if negb (truthy (GH_TOKEN env)) then
      (Throw (JsError "GH_TOKEN environment variable is not set"), w)
    else
      let token := default "" (GH_TOKEN env) in
      let fetchResult := fetchUserAssignedIssues username token in
      let '(syncResult, w') :=
        syncEach (issues fetchResult) (mkUserSyncResult 0 0 [] (errors fetchResult)) w in
      (Normal syncResult, w').

End WithPlatform.

End FetchUserIssues.

(** ** [src/app/api/issues/route.ts] *)

Module IssuesRoute.

(** [pagination] of the response body. *)
Record Pagination : Type := mkPagination {
  page       : number;
  limit      : number;
  total      : nat;
  totalPages : number
}.

(** What the handler hands to [NextResponse.json]: the body and the
    status (200 unless given). *)
Inductive Response : Type :=
  | Listing (issues : list Stored) (pagination : Pagination)
  | Failure (status : Z) (error : string).

(** [searchParams.get(name)]: the value of the first pair named [name]. *)
Definition get (name : string) (searchParams : list (string * string)) : option string :=
  snd <$> List.find (fun p => String.eqb p.1 name) searchParams.

(** [searchParams.delete(name)]: every pair named [name] goes. *)
Definition delete (name : string) (searchParams : list (string * string))
    : list (string * string) :=
  List.filter (fun p => negb (String.eqb p.1 name)) searchParams.

(** [value && allowed.includes(value)] *)
Definition one_of (allowed : list string) (value : option string) : bool :=
  truthy value && bool_decide (default "" value ∈ allowed).

(** The [where] object built from the query string. *)
Definition where_of (searchParams : list (string * string)) : Prisma.Where :=
  let repository := get "repository" searchParams in
  let workflowStatus := get "workflowStatus" searchParams in
  let statusGithub := get "statusGithub" searchParams in
  {| Prisma.where_repository := if truthy repository then repository else None;
     Prisma.where_workflowStatus :=
       if one_of ["pending"; "in_process"; "end"] workflowStatus then workflowStatus else None;
     Prisma.where_statusGithub :=
       if one_of ["open"; "closed"] statusGithub then statusGithub else None |}.

Definition page_of (searchParams : list (string * string)) : number :=
  parseInt (or_default (get "page" searchParams) "1").

Definition limit_of (searchParams : list (string * string)) : number :=
  parseInt (or_default (get "limit" searchParams) "20").

(** [skip: (page - 1) * limit] *)
Definition skip_of (page limit : number) : number := mul (sub page (Int 1)) limit.

(** [Math.ceil(total / limit)] *)
Definition totalPages_of (total : nat) (limit : number) : number :=
  Math_ceil (div (Int (Z.of_nat total)) limit).

Section WithClient.

(** What [findMany] answers when [skip] or [take] is not a non-negative
    integer; the arguments are [skip], [take] and the ordered matching
    rows.  The source does not determine it.  (Non-negative integers are
    taken as they are, with no upper bound.) *)
Variable findMany_irregular : number -> number -> list Stored -> Completion (list Stored).

(** [prisma.issue.findMany({ where, orderBy, skip, take })] *)
Definition findMany (wh : Prisma.Where) (skip take : number) : M (list Stored) :=
  prisma_call (fun t =>
    let rows := Prisma.ordered (Prisma.matching wh t) in
    match as_nat skip, as_nat take with
    | Some s, Some n => (Normal (firstn n (skipn s rows)), t)
    | _, _ => (findMany_irregular skip take rows, t)
    end).

(** The [try] block of [GET]. *)
Definition listing (searchParams : list (string * string)) : M Response :=
  let page := page_of searchParams in
  let limit := limit_of searchParams in
  let where_ := where_of searchParams in
  total <~ Prisma.count where_ ;;
  issues <~ findMany where_ (skip_of page limit) limit ;;
  ret (Listing issues
         {| page := page; limit := limit; total := total;
            totalPages := totalPages_of total limit |}).

(** [GET(request)], given the query string of [request.url]. *)
Definition GET (searchParams : list (string * string)) : World -> Response * World :=
  fun w =>
    match listing searchParams w with
    | (Normal response, w') => (response, w')
    | (Throw _, w') => (Failure 500 "Failed to fetch issues", w')
    end.

End WithClient.

End IssuesRoute.

(** ** [src/app/api/issues/[id]/start/route.ts] *)

Module StartRoute.

(** A property of the parsed request body, before any check. *)
Inductive JsValue : Type :=
  | JsUndefined                    (* the property is missing *)
  | JsNull
  | JsBoolean (b : bool)
  | JsNumber (n : number)
  | JsString (s : string)
  | JsObject.                      (* an array or an object *)

(** [!v] is false *)
Definition truthy_value (v : JsValue) : bool :=
  match v with
  | JsUndefined | JsNull => false
  | JsBoolean b => b
  | JsNumber n => match n with NaN => false | _ => negb (is_zero n) end
  | JsString s => negb (String.eqb s "")
  | JsObject => true
  end.

(** [typeof v] *)
Definition typeof (v : JsValue) : string :=
  match v with
  | JsUndefined => "undefined"
  | JsNull | JsObject => "object"
  | JsBoolean _ => "boolean"
  | JsNumber _ => "number"
  | JsString _ => "string"
  end.

(** [!v || typeof v !== "string"], the guard of the handler. *)
Definition not_provided (v : JsValue) : bool :=
  negb (truthy_value v) || negb (String.eqb (typeof v) "string").

(** [interface StartRequestBody]; [selectedContext] is checked by the
    handler and so arrives as any value, [prompt] is used as declared. *)
Record StartRequestBody : Type := mkBody {
  selectedContext : JsValue;
  prompt          : option string
}.

(** 4xx and 5xx answers carry [{ error }], the 200 answer the record. *)
Inductive Response : Type :=
  | Started (issue : Stored)
  | Failure (status : Z) (error : string).

(** The [try] block of [POST]; [json] is the outcome of
    [request.json()]. *)
Definition start (id : string) (json : Completion StartRequestBody) : M Response :=
  body <~ (fun w => (json, w)) ;;
  match selectedContext body with
  | JsString context =>
      if not_provided (JsString context) then ret (Failure 400 "selectedContext is required")
      else
        existingIssue <~ Prisma.findUnique_id id ;;
        match existingIssue with
        | None => ret (Failure 404 "Issue not found")
        | Some existingIssue =>
            if negb (bool_decide (statusGithub existingIssue.2 = open)) then
              ret (Failure 400 "Cannot start a closed issue")
            else if negb (bool_decide (workflowStatus existingIssue.2 = pending)) then
              ret (Failure 400 "Issue is already in process or ended")
            else
              updatedIssue <~ Prisma.update id
                 {| Prisma.u_title := None;
                    Prisma.u_description := None;
                    Prisma.u_statusGithub := None;
                    Prisma.u_workflowStatus := Some in_process;
                    Prisma.u_url := None;
                    Prisma.u_labels := None;
                    Prisma.u_updatedAtGithub := None;
                    Prisma.u_selectedContext := Some (Some context);
                    Prisma.u_prompt :=
                      Some (if truthy (prompt body) then prompt body else None) |} ;;
              ret (Started updatedIssue)
        end
  | _ => ret (Failure 400 "selectedContext is required")
  end.

(** [POST(request, { params })] *)
Definition POST (id : string) (json : Completion StartRequestBody)
    : World -> Response * World :=
  fun w =>
    match start id json w with
    | (Normal response, w') => (response, w')
    | (Throw _, w') => (Failure 500 "Failed to start issue", w')
    end.

End StartRoute.

(** ** [src/app/api/sync-issues/route.ts] *)

Module SyncIssuesRoute.

(** The body handed to [NextResponse.json] and the status. *)
Inductive Response : Type :=
  | Completed (message : string) (result : SyncIssues.SyncResult)
      (* [{ success: true, message, ...result }] *)
  | Failure (status : Z) (error : string).
      (* [{ success: false, error }] *)

Section WithPlatform.

Variable fetch : string -> string -> GitHub.Response.
Variable new_Date : string -> Z.

(** [POST()]; [None] when a paging loop outlives [fuel]. *)
Definition POST (fuel : nat) (env : Env) : World -> option (Response * World) :=
  fun w =>
    match SyncIssues.syncIssuesFromGitHub fetch new_Date fuel env w with
    | None => None
    | Some (Normal result, w') => Some (Completed "Sync completed" result, w')
    | Some (Throw error, w') =>
        Some (Failure 500 (match error with
                           | JsError message => message
                           | NonError => "Failed to sync issues"
                           end), w')
    end.

End WithPlatform.

End SyncIssuesRoute.

(** ** The route that syncs the issues assigned to one user *)

Module SyncByUserRoute.

Definition DEFAULT_USERNAME : string := "ggarciaclip".

(** The [username] property of the parsed body as the handler observes
    it: through [if (body.username)] and through the text that
    [`${username}`] puts in a string.  For a string [s] these are
    [s !== ""] and [s]. *)
Record Property : Type := mkProperty {
  is_truthy : bool;
  as_text   : string
}.

Definition of_string (s : string) : Property :=
  {| is_truthy := negb (String.eqb s ""); as_text := s |}.

(** [{ success: true, message, created, updated, total, errors }] or
    [{ success: false, error }] with its status. *)
Inductive Response : Type :=
  | Synced (message : string) (created updated total : nat) (errors : list string)
  | Failure (status : Z) (error : string).

(** The user the handler settles on: the query parameter or the
    default, unless the body can be read and names one.  [json] is the
    outcome of reading [body.username]: it throws when the body is not
    JSON (or is [null]), and is [None] when there is no such property. *)
Definition username_of (searchParams : list (string * string))
    (json : Completion (option Property)) : string :=
  let username := or_default (IssuesRoute.get "username" searchParams) DEFAULT_USERNAME in
  match json with
  | Normal (Some property) => if is_truthy property then as_text property else username
  | Normal None => username
  | Throw _ => username
  end.

Section WithPlatform.

Variable fetch : string -> string -> GitHub.Response.
Variable new_Date : string -> Z.

(** [POST(request)] *)
Definition POST (env : Env) (searchParams : list (string * string))
    (json : Completion (option Property)) : World -> Response * World :=
  fun w =>
    let username := username_of searchParams json in
    match FetchUserIssues.syncUserAssignedIssues fetch new_Date env username w with
    | (Normal result, w') =>
        (Synced ("Synced issues assigned to " ++ username)
                (FetchUserIssues.created result) (FetchUserIssues.updated result)
                (length (FetchUserIssues.synced result)) (FetchUserIssues.failed result), w')
    | (Throw error, w') =>
        (Failure 500 (match error with
                      | JsError message => message
                      | NonError => "Failed to sync issues"
                      end), w')
    end.

End WithPlatform.

End SyncByUserRoute.

(** ** [src/components/IssueCard.tsx] and [src/components/IssueList.tsx]

    The requests of the components are taken to reach the routes and
    their answers to come back. *)

Module IssueCard.

Record ServiceOption : Type := mkOption {
  value : string;
  label : string
}.

(** [getServiceOptions()], given [process.env.NEXT_PUBLIC_SERVICES]. *)
Definition getServiceOptions (NEXT_PUBLIC_SERVICES : option string) : list ServiceOption :=
  let servicesEnv := or_default NEXT_PUBLIC_SERVICES "" in
  if String.eqb servicesEnv "" then [ {| value := "default"; label := "default" |} ]
  else map (fun s => let trimmed := trim s in {| value := trimmed; label := trimmed |})
           (split "," servicesEnv).

(** [serviceOptions[0]?.value || ''], the context the form starts with. *)
Definition initial_context (serviceOptions : list ServiceOption) : string :=
  or_default (value <$> head serviceOptions) "".

(** [canStart] *)
Definition canStart (issue : Issue) : bool :=
  bool_decide (workflowStatus issue = pending) && bool_decide (statusGithub issue = open).

(** What the route reads from
    [JSON.stringify({ selectedContext, prompt: prompt.trim() || undefined })]:
    a property that is [undefined] is not written. *)
Definition request_body (selectedContext prompt : string) : StartRoute.StartRequestBody :=
  {| StartRoute.selectedContext := StartRoute.JsString selectedContext;
     StartRoute.prompt := let text := trim prompt in
                          if String.eqb text "" then None else Some text |}.

(** What [handleStart] leaves on the card. *)
Inductive Shown : Type :=
  | Nothing                         (* the early [return] *)
  | Updated (issue : Stored)        (* [onUpdate(updatedIssue)] *)
  | Error (message : string).       (* [setError(...)] *)

(** [handleStart()] for the card of [issue], with the form holding
    [selectedContext] and [prompt]; the request goes to the start route. *)
Definition handleStart (issue : Stored) (selectedContext prompt : string)
    : World -> Shown * World :=
  fun w =>
    if negb (canStart issue.2) then (Nothing, w)
    else
      match StartRoute.POST issue.1 (Normal (request_body selectedContext prompt)) w with
      | (StartRoute.Started updatedIssue, w') => (Updated updatedIssue, w')
      | (StartRoute.Failure _ error, w') =>
          (Error (or_default (Some error) "Failed to start issue"), w')
      end.

End IssueCard.

Module IssueList.

(** What the list holds after [fetchIssues]: [data] or [error]. *)
Inductive View : Type :=
  | Loaded (issues : list Stored) (pagination : IssuesRoute.Pagination)
  | Failed (error : string).

Section WithClient.

Variable findMany_irregular : number -> number -> list Stored -> Completion (list Stored).

(** [fetchIssues()]: the request is [GET /api/issues], with no query
    string. *)
Definition fetchIssues : World -> View * World :=
  fun w =>
    match IssuesRoute.GET findMany_irregular [] w with
    | (IssuesRoute.Listing issues pagination, w') => (Loaded issues pagination, w')
    | (IssuesRoute.Failure _ _, w') => (Failed "Failed to fetch issues", w')
    end.

End WithClient.

(** [handleIssueUpdate(updatedIssue)], on [data.issues]. *)
Definition handleIssueUpdate (updatedIssue : Stored) (issues : list Stored) : list Stored :=
  map (fun issue => if String.eqb issue.1 updatedIssue.1 then updatedIssue else issue) issues.

End IssueList.

(** ** The header, in [src/components/IssueCard.tsx] *)

Module Header.

Section WithPlatform.

Variable fetch : string -> string -> GitHub.Response.
Variable new_Date : string -> Z.

(** [handleSync()]: the text left in [syncResult]; the request goes to
    the sync route.  [None] when a paging loop outlives [fuel]. *)
Definition handleSync (fuel : nat) (env : Env) : World -> option (string * World) :=
  fun w =>
    match SyncIssuesRoute.POST fetch new_Date fuel env w with
    | None => None
    | Some (SyncIssuesRoute.Completed _ result, w') =>
        Some ("✅ Synced: " ++ pretty (SyncIssues.created result) ++ " created, "
              ++ pretty (SyncIssues.updated result) ++ " updated", w')
    | Some (SyncIssuesRoute.Failure _ error, w') => Some ("❌ Error: " ++ error, w')
    end.

End WithPlatform.

End Header.

(** ** Vocabulary of the statements *)

Module Expected.

Section Rows.

Variable new_Date : string -> Z.

(** The status column computed from the wire state. *)
Definition mirrored (s : GitHub.State) : GitHubStatus :=
  if decide (s = GitHub.state_open) then open else closed.

(** The row an update of [r] from [issue] leaves behind, with [wf] in
    the workflow column. *)
Definition refreshed (issue : GitHubIssue) (wf : WorkflowStatus) (r : Issue) : Issue :=
  {| githubNumber := githubNumber r;
     repository := repository r;
     title := GitHub.title issue;
     description := GitHub.body issue;
     statusGithub := mirrored (GitHub.state issue);
     workflowStatus := wf;
     url := GitHub.html_url issue;
     labels := map GitHub.name (GitHub.labels issue);
     createdAtGithub := createdAtGithub r;
     updatedAtGithub := new_Date (GitHub.updated_at issue);
     selectedContext := selectedContext r;
     prompt := prompt r |}.

Definition merged (issue : GitHubIssue) (r : Issue) : WorkflowStatus :=
  if decide (mirrored (GitHub.state issue) = closed) then end_
  else if decide (statusGithub r = closed ∧ mirrored (GitHub.state issue) = open) then pending
  else workflowStatus r.

(** The row a first sight of [issue] inserts. *)
Definition inserted (issue : GitHubIssue) (repo : string) : Issue :=
  {| githubNumber := GitHub.number issue;
     repository := repo;
     title := GitHub.title issue;
     description := GitHub.body issue;
     statusGithub := mirrored (GitHub.state issue);
     workflowStatus := if decide (mirrored (GitHub.state issue) = closed) then end_ else pending;
     url := GitHub.html_url issue;
     labels := map GitHub.name (GitHub.labels issue);
     createdAtGithub := new_Date (GitHub.created_at issue);
     updatedAtGithub := new_Date (GitHub.updated_at issue);
     selectedContext := None;
     prompt := None |}.

End Rows.

(** The row [start] leaves behind. *)
Definition started (context : string) (prompt : option string) (r : Issue) : Issue :=
  {| githubNumber := githubNumber r;
     repository := repository r;
     title := title r;
     description := description r;
     statusGithub := statusGithub r;
     workflowStatus := in_process;
     url := url r;
     labels := labels r;
     createdAtGithub := createdAtGithub r;
     updatedAtGithub := updatedAtGithub r;
     selectedContext := Some context;
     prompt := if truthy prompt then prompt else None |}.

(** The rows a listing draws from, in the order of the query. *)
Definition rows_of (searchParams : list (string * string)) (w : World) : list Stored :=
  Prisma.ordered (Prisma.matching (IssuesRoute.where_of searchParams) (table w)).

Definition pagination_of (searchParams : list (string * string)) (w : World)
    : IssuesRoute.Pagination :=
  let total := length (Prisma.matching (IssuesRoute.where_of searchParams) (table w)) in
  {| IssuesRoute.page := IssuesRoute.page_of searchParams;
     IssuesRoute.limit := IssuesRoute.limit_of searchParams;
     IssuesRoute.total := total;
     IssuesRoute.totalPages := IssuesRoute.totalPages_of total (IssuesRoute.limit_of searchParams) |}.

End Expected.

(** ** Vocabulary of the statements about a sync run *)

Module Run.

(** What becomes of one entry of [GH_REPOS]. *)
Inductive Outcome : Type :=
  | BadFormat                               (* no [owner/name] in it *)
  | FetchFailed (err : Thrown)              (* [fetchIssuesFromRepo] threw *)
  | Fetched (issues : list GitHubIssue)     (* the issues to reconcile *)
  | Unfinished.                             (* still paging when the fuel ran out *)

Section WithPlatform.

Variable fetch : string -> string -> GitHub.Response.

Definition outcome (fuel : nat) (token repo : string) : Outcome :=
  match split "/" repo with
  | owner :: repoName :: _ =>
      if String.eqb owner "" || String.eqb repoName "" then BadFormat
      else match SyncIssues.fetchIssuesFromRepo fetch fuel owner repoName token with
           | None => Unfinished
           | Some (Throw err) => FetchFailed err
           | Some (Normal issues) => Fetched issues
           end
  | _ => BadFormat
  end.

(** The request for [page] ends the paging loop: it fails or it brings
    less than a full page. *)
Definition last_page (owner repo token : string) (page : nat) : Prop :=
  match fetch (SyncIssues.page_url owner repo page) token with
  | GitHub.Ok data => (length data < SyncIssues.perPage)%nat
  | _ => True
  end.

(** The remote lets the paging of [repo] end within [fuel] requests
    (nothing is requested for an entry that is not [owner/name]). *)
Definition paging_ends (fuel : nat) (token repo : string) : Prop :=
  match split "/" repo with
  | owner :: repoName :: _ =>
      owner = "" ∨ repoName = ""
      ∨ ∃ page : nat, (1 ≤ page ≤ fuel)%nat ∧ last_page owner repoName token page
  | _ => True
  end.

(** Items a repository contributes to the totals of a run: its issues,
    or the one error that stands for it. *)
Definition items (o : Outcome) : nat :=
  match o with
  | BadFormat | FetchFailed _ => 1
  | Fetched issues => length issues
  | Unfinished => 0
  end.

Definition issue_error (repo : string) (issue : GitHubIssue) (err : Thrown) : string :=
  "Error syncing issue #" ++ pretty (GitHub.number issue) ++ " from " ++ repo ++ ": "
  ++ message_of err.

Definition fetch_error (repo : string) (err : Thrown) : string :=
  "Error fetching issues from " ++ repo ++ ": " ++ message_of err.

Definition format_error (repo : string) : string := "Invalid repo format: " ++ repo.

(** [e] reports something that happened to [repo]. *)
Definition reports (fuel : nat) (token repo : string) (e : string) : Prop :=
  match outcome fuel token repo with
  | BadFormat => e = format_error repo
  | FetchFailed err => e = fetch_error repo err
  | Fetched issues => ∃ issue err, issue ∈ issues ∧ e = issue_error repo issue err
  | Unfinished => False
  end.

(** An issue comes from an item of some page that is no pull request. *)
Definition from_issue_item (owner repo token : string) (issue : GitHubIssue) : Prop :=
  ∃ (page : nat) data item,
    fetch (SyncIssues.page_url owner repo page) token = GitHub.Ok data
    ∧ item ∈ data ∧ GitHub.pull_request item = false ∧ GitHub.issue item = issue.

End WithPlatform.

(** The unique index: no two rows share [(githubNumber, repository)]. *)
Definition unique_keys (t : gmap string Issue) : Prop :=
  ∀ i j r s, t !! i = Some r -> t !! j = Some s ->
             githubNumber r = githubNumber s -> repository r = repository s -> i = j.

(** From [t] to [t'] every row stays under its id and keeps what the
    sync does not own: its key, its creation instant, the context and the
    prompt. *)
Definition keeps_local_columns (t t' : gmap string Issue) : Prop :=
  ∀ id r, t !! id = Some r ->
    ∃ r', t' !! id = Some r'
          ∧ githubNumber r' = githubNumber r ∧ repository r' = repository r
          ∧ createdAtGithub r' = createdAtGithub r
          ∧ selectedContext r' = selectedContext r ∧ prompt r' = prompt r.

(** Both hold along a whole run. *)
Definition run_invariant (t t' : gmap string Issue) : Prop :=
  (unique_keys t -> unique_keys t') ∧ keeps_local_columns t t'.

(** Issues counted plus errors recorded. *)
Definition settled (r : SyncIssues.SyncResult) : nat :=
  SyncIssues.created r + SyncIssues.updated r + length (SyncIssues.errors r).

End Run.

(** ** Sample data for the worked instances *)

Module Sample.

(** A reading of timestamps written as decimal milliseconds. *)
Definition instant (s : string) : Z := default 0%Z (digits 10 None s).

Definition remote (n : Z) (s : GitHub.State) (stamp : string) : GitHubIssue :=
  {| GitHub.number := n;
     GitHub.title := "Checkout fails on retry";
     GitHub.body := Some "Steps to reproduce";
     GitHub.state := s;
     GitHub.html_url := "https://github.com/acme/shop/issues/7";
     GitHub.labels := [GitHub.mkLabel "bug"; GitHub.mkLabel "payment"];
     GitHub.created_at := "1700000000000";
     GitHub.updated_at := stamp;
     GitHub.repository_url := "https://api.github.com/repos/acme/shop" |}.

Definition local (n : Z) (gh : GitHubStatus) (wf : WorkflowStatus) : Issue :=
  {| githubNumber := n;
     repository := "acme/shop";
     title := "Checkout fails";
     description := None;
     statusGithub := gh;
     workflowStatus := wf;
     url := "https://github.com/acme/shop/issues/7";
     labels := [];
     createdAtGithub := 1700000000000;
     updatedAtGithub := 1700000000500;
     selectedContext := Some "checkout_api";
     prompt := Some "look at the retry path" |}.

(** A store holding issue 7 under id ["c7"], nothing scheduled to fail. *)
Definition store (gh : GitHubStatus) (wf : WorkflowStatus) : World :=
  mkWorld {[ "c7" := local 7 gh wf ]} [].

Definition empty_store : World := mkWorld ∅ [].

(** A store of [n] open issues, numbered from 1. *)
Definition crowd (n : nat) : World :=
  mkWorld (list_to_map (map (fun i => ("c" ++ pretty i, local (Z.of_nat i) open pending))
                            (seq 1 n))) [].

(** A client that rejects arguments it cannot read. *)
Definition strict (skip take : number) (rows : list Stored) : Completion (list Stored) :=
  Throw (JsError "Argument is not a non-negative integer").

Definition start_body : StartRoute.StartRequestBody :=
  {| StartRoute.selectedContext := StartRoute.JsString "buyer3";
     StartRoute.prompt := Some "" |}.

(** A remote where [acme/api] is down and [acme/shop] has two issues
    and one pull request. *)
Definition network (url token : string) : GitHub.Response :=
  if String.eqb url "https://api.github.com/repos/acme/api/issues?state=all&per_page=100&page=1"
  then GitHub.NotOk 503 "Service Unavailable" ""
  else if String.eqb url
            "https://api.github.com/repos/acme/shop/issues?state=all&per_page=100&page=1"
  then GitHub.Ok [ GitHub.mkItem (remote 7 GitHub.state_open "1700000009000") false;
                   GitHub.mkItem (remote 8 GitHub.state_open "1700000009100") true;
                   GitHub.mkItem (remote 9 GitHub.state_closed "1700000009200") false ]
  else GitHub.Ok [].

Definition env : Env :=
  {| GH_TOKEN := Some "ghp_example"; GH_REPOS := Some "acme/api, acme/shop" |}.

(** An empty store whose fourth call will fail. *)
Definition flaky_store : World :=
  mkWorld ∅ [None; None; None; Some (JsError "Connection lost")].

End Sample.

(** ** Vocabulary of the statements about the life of a row *)

Module Lifecycle.

(** "GitHub rules": a row that is closed on GitHub has ended. *)
Definition closed_is_ended (r : Issue) : Prop :=
  statusGithub r = closed -> workflowStatus r = end_.

(** A row in process carries the context it was started with, and a row
    without a context has no prompt. *)
Definition started_with_context (r : Issue) : Prop :=
  (workflowStatus r = in_process -> ∃ context, selectedContext r = Some context ∧ context ≠ "")
  ∧ (selectedContext r = None -> prompt r = None).

(** Every row of the table satisfies [P]. *)
Definition every_row (P : Issue -> Prop) (t : gmap string Issue) : Prop :=
  ∀ id r, t !! id = Some r -> P r.

(** The completion of the user path, with the record it returns left out. *)
Definition action_of (c : Completion (SyncIssues.SyncAction * Stored))
    : Completion SyncIssues.SyncAction :=
  match c with
  | Normal (action, _) => Normal action
  | Throw e => Throw e
  end.

End Lifecycle.

(** ** Sample data for the user path *)

Module SampleUser.

(** A search API that knows the issues assigned to [octocat]: two issues
    and one pull request. *)
Definition search (url token : string) : GitHub.Response :=
  if String.eqb url
       ("https://api.github.com/search/issues?q="
        ++ encodeURIComponent "assignee:octocat is:issue is:open"
        ++ "&sort=updated&order=desc&per_page=100")
  then GitHub.Ok [ GitHub.mkItem (Sample.remote 7 GitHub.state_open "1700000009000") false;
                   GitHub.mkItem (Sample.remote 8 GitHub.state_open "1700000009100") true;
                   GitHub.mkItem (Sample.remote 9 GitHub.state_open "1700000009200") false ]
  else GitHub.NotOk 422 "Unprocessable Entity" "Validation Failed".

(** Issue 7 is known under id ["c7"]; the third call to the client will
    fail. *)
Definition flaky_store : World :=
  mkWorld {[ "c7" := Sample.local 7 open in_process ]}
          [None; None; Some (JsError "Connection lost")].

End SampleUser.

(** ** Vocabulary of the statements about paging *)

Module Pages.

Section WithPlatform.

Variable fetch : string -> string -> GitHub.Response.

(** The issues that the request for [page] contributes: the items of the
    page that are no pull requests, in the order of the page. *)
Definition page_issues (owner repo token : string) (page : nat) : list GitHubIssue :=
  match fetch (SyncIssues.page_url owner repo page) token with
  | GitHub.Ok data =>
      map GitHub.issue (List.filter (fun item => negb (GitHub.pull_request item)) data)
  | _ => []
  end.

(** The request for [page] succeeds with a full page, so the loop asks
    for the next one. *)
Definition full_page (owner repo token : string) (page : nat) : Prop :=
  match fetch (SyncIssues.page_url owner repo page) token with
  | GitHub.Ok data => (SyncIssues.perPage ≤ length data)%nat
  | _ => False
  end.

End WithPlatform.

(** A remote with 100 issues on the first page of [acme/shop]; the
    second page cannot be had. *)
Definition broken_second_page (url token : string) : GitHub.Response :=
  if String.eqb url (SyncIssues.page_url "acme" "shop" 1)
  then GitHub.Ok (replicate 100
                    (GitHub.mkItem (Sample.remote 7 GitHub.state_open "1700000009000") false))
  else GitHub.NotOk 502 "Bad Gateway" "".

(** A remote that answers every request with 503. *)
Definition down (url token : string) : GitHub.Response :=
  GitHub.NotOk 503 "Service Unavailable" "".

End Pages.

(** ** Sample data for the list route *)

Module SampleBoard.

Definition row (n : Z) (gh : GitHubStatus) (wf : WorkflowStatus) (updated : Z) : Issue :=
  {| githubNumber := n;
     repository := "acme/shop";
     title := "Checkout fails";
     description := None;
     statusGithub := gh;
     workflowStatus := wf;
     url := "https://github.com/acme/shop/issues";
     labels := [];
     createdAtGithub := 1700000000000;
     updatedAtGithub := updated;
     selectedContext := None;
     prompt := None |}.

(** Four rows: one ended, one in process, two pending. *)
Definition board : World :=
  mkWorld (<[ "a" := row 1 closed end_ 1700000000900 ]>
          (<[ "b" := row 2 open in_process 1700000000800 ]>
          (<[ "c" := row 3 open pending 1700000000100 ]>
           {[ "d" := row 4 open pending 1700000000700 ]}))) [].

End SampleBoard.

(** ** Vocabulary of the statements about strings *)

Module Text.

(** How often the character [c] occurs in [s]. *)
Fixpoint occurrences (c : ascii) (s : string) : nat :=
  match s with
  | EmptyString => 0
  | String d s' => (if Ascii.eqb d c then 1 else 0) + occurrences c s'
  end.

(** [pieces.join(sep)] for a one-character separator. *)
Fixpoint join (sep : ascii) (pieces : list string) : string :=
  match pieces with
  | [] => EmptyString
  | [piece] => piece
  | piece :: rest => piece ++ String sep (join sep rest)
  end.

(** Every character of [s] passes the test [p]. *)
Fixpoint all (p : ascii -> bool) (s : string) : bool :=
  match s with
  | EmptyString => true
  | String c s' => p c && all p s'
  end.

End Text.


(** Closes [calm n w] for a concrete [w]. *)
Ltac calm_now := unfold calm; simpl; repeat constructor.

(* ===================================================================== *)
(** * Part II: properties                                                 *)
(* ===================================================================== *)

(** ** The store *)

Lemma calm_step n w t : calm (S n) w -> calm n (mkWorld t (tail (faults w))).
Proof.
  unfold calm; simpl. destruct (faults w) as [|f fs]; simpl.
  - intros _. by rewrite take_nil.
  - by intros [_ H]%Forall_cons.
Qed.

Lemma calm_weaken (n m : nat) w : (n ≤ m)%nat -> calm m w -> calm n w.
Proof.
  unfold calm. intros Hle H.
  replace n with (n `min` m)%nat by lia.
  rewrite <- take_take. by apply Forall_take.
Qed.

Lemma prisma_call_calm {A} (op : gmap string Issue -> Completion A * gmap string Issue) n w :
  calm (S n) w ->
  prisma_call op w = ((op (table w)).1, mkWorld (op (table w)).2 (tail (faults w))).
Proof.
  unfold calm, prisma_call. destruct (faults w) as [|[e|] fs]; simpl.
  - by destruct (op (table w)).
  - intros [? _]%Forall_cons; discriminate.
  - by destruct (op (table w)).
Qed.

Lemma prisma_call_fault {A} (op : gmap string Issue -> Completion A * gmap string Issue) w e later :
  faults w = Some e :: later ->
  prisma_call op w = (Throw e, mkWorld (table w) later).
Proof. unfold prisma_call. by intros ->. Qed.

Lemma lookup_key_Some n repo t id r :
  Prisma.lookup_key n repo t = Some (id, r) ->
  t !! id = Some r ∧ githubNumber r = n ∧ repository r = repo.
Proof.
  unfold Prisma.lookup_key. intros [Hin Hkey]%find_some.
  apply list_elem_of_In, elem_of_map_to_list in Hin.
  apply bool_decide_eq_true in Hkey. by simpl in Hkey.
Qed.

Lemma lookup_key_None n repo t id r :
  Prisma.lookup_key n repo t = None ->
  t !! id = Some r -> ¬ (githubNumber r = n ∧ repository r = repo).
Proof.
  unfold Prisma.lookup_key. intros Hnone Hin Hkey.
  apply elem_of_map_to_list, list_elem_of_In in Hin.
  pose proof (find_none _ _ Hnone _ Hin) as Hf.
  apply bool_decide_eq_false in Hf. by apply Hf.
Qed.

Lemma lookup_key_is_Some n repo t id r :
  t !! id = Some r -> githubNumber r = n -> repository r = repo ->
  is_Some (Prisma.lookup_key n repo t).
Proof.
  intros Hin Hn Hr.
  destruct (Prisma.lookup_key n repo t) eqn:E; [by eexists|].
  by destruct (lookup_key_None _ _ _ _ _ E Hin).
Qed.

Section Reconciliation.

Variable new_Date : string -> Z.

Lemma syncIssue_existing issue repo w id r :
  calm 2 w ->
  Prisma.lookup_key (GitHub.number issue) repo (table w) = Some (id, r) ->
  SyncIssues.syncIssue new_Date issue repo w
  = (Normal SyncIssues.action_updated,
     mkWorld (<[id := Expected.refreshed new_Date issue (Expected.merged issue r) r]> (table w))
             (tail (tail (faults w)))).
Proof.
  intros Hcalm Hkey.
  destruct (lookup_key_Some _ _ _ _ _ Hkey) as (Hid & _ & _).
  unfold SyncIssues.syncIssue, bind, Prisma.findUnique_githubNumber_repository.
  rewrite (prisma_call_calm _ 1 w Hcalm). simpl. rewrite Hkey. simpl.
  unfold Prisma.update.
  rewrite (prisma_call_calm _ 0 _ (calm_step 1 w (table w) Hcalm)). simpl.
  rewrite Hid. reflexivity.
Qed.


Lemma syncOne_existing issue repo w id r :
  calm 2 w ->
  Prisma.lookup_key (GitHub.number issue) repo (table w) = Some (id, r) ->
  FetchUserIssues.syncOne new_Date issue repo w
  = (Normal (SyncIssues.action_updated, (id, Expected.refreshed new_Date issue (Expected.merged issue r) r)),
     mkWorld (<[id := Expected.refreshed new_Date issue (Expected.merged issue r) r]> (table w))
             (tail (tail (faults w)))).
Proof.
  intros Hcalm Hkey.
  destruct (lookup_key_Some _ _ _ _ _ Hkey) as (Hid & _ & _).
  unfold FetchUserIssues.syncOne, bind, Prisma.findUnique_githubNumber_repository.
  rewrite (prisma_call_calm _ 1 w Hcalm). simpl. rewrite Hkey. simpl.
  unfold Prisma.update.
  rewrite (prisma_call_calm _ 0 _ (calm_step 1 w (table w) Hcalm)). simpl.
  rewrite Hid. reflexivity.
Qed.

Lemma syncIssue_absent issue repo w :
  calm 2 w ->
  Prisma.lookup_key (GitHub.number issue) repo (table w) = None ->
  SyncIssues.syncIssue new_Date issue repo w
  = (Normal SyncIssues.action_created,
     mkWorld (<[fresh (dom (table w)) := Expected.inserted new_Date issue repo]> (table w))
             (tail (tail (faults w)))).
Proof.
  intros Hcalm Hkey.
  unfold SyncIssues.syncIssue, bind, Prisma.findUnique_githubNumber_repository.
  rewrite (prisma_call_calm _ 1 w Hcalm). simpl. rewrite Hkey. simpl.
  unfold Prisma.create.
  rewrite (prisma_call_calm _ 0 _ (calm_step 1 w (table w) Hcalm)). simpl.
  rewrite Hkey. reflexivity.
Qed.

Lemma fresh_id_unused (t : gmap string Issue) : t !! fresh (dom t) = None.
Proof. apply not_elem_of_dom, is_fresh. Qed.

Lemma lookup_key_insert_new n repo (t : gmap string Issue) id row :
  Prisma.lookup_key n repo t = None ->
  t !! id = None ->
  githubNumber row = n -> repository row = repo ->
  Prisma.lookup_key n repo (<[id := row]> t) = Some (id, row).
Proof.
  intros Hnone Hid Hn Hr.
  destruct (lookup_key_is_Some n repo (<[id := row]> t) id row) as [[id' r'] Hfound];
    [apply lookup_insert_eq | done | done |].
  rewrite Hfound. destruct (lookup_key_Some _ _ _ _ _ Hfound) as (Hin & Hk).
  destruct (decide (id = id')) as [<-|Hne].
  - rewrite lookup_insert_eq in Hin. by injection Hin as <-.
  - rewrite lookup_insert_ne in Hin by done.
    by destruct (lookup_key_None _ _ _ _ _ Hnone Hin).
Qed.

Lemma refreshed_inserted issue repo :
  Expected.refreshed new_Date issue (Expected.merged issue (Expected.inserted new_Date issue repo)) (Expected.inserted new_Date issue repo)
  = Expected.inserted new_Date issue repo.
Proof.
  unfold Expected.refreshed, Expected.merged, Expected.inserted, Expected.mirrored; simpl.
  destruct (GitHub.state issue); simpl; reflexivity.
Qed.

End Reconciliation.

(** C1.  Closed on GitHub always wins.  When the remote issue is closed
    and the store holds a record for its [(number, repository)] key,
    whatever workflow status that record has, the sync step updates it
    and leaves [workflowStatus = end].  Both sync paths do so: [syncIssue]
    and the loop body of [syncUserAssignedIssues]. *)
Theorem closed_remote_forces_end (new_Date : string -> Z) issue repo w id r :
  calm 2 w ->
  GitHub.state issue = GitHub.state_closed ->
  Prisma.lookup_key (GitHub.number issue) repo (table w) = Some (id, r) ->
  (∃ w' r', SyncIssues.syncIssue new_Date issue repo w = (Normal SyncIssues.action_updated, w')
            ∧ table w' !! id = Some r' ∧ workflowStatus r' = end_)
  ∧ (∃ w' r', FetchUserIssues.syncOne new_Date issue repo w
              = (Normal (SyncIssues.action_updated, (id, r')), w')
            ∧ table w' !! id = Some r' ∧ workflowStatus r' = end_).
Proof.
  intros Hcalm Hstate Hkey. split.
  - rewrite (syncIssue_existing new_Date issue repo w id r Hcalm Hkey).
    eexists _, _. split; [reflexivity|]. simpl. rewrite lookup_insert_eq.
    split; [reflexivity|]. unfold Expected.refreshed, Expected.merged, Expected.mirrored; simpl. by rewrite Hstate.
  - rewrite (syncOne_existing new_Date issue repo w id r Hcalm Hkey).
    eexists _, _. split; [reflexivity|]. simpl. rewrite lookup_insert_eq.
    split; [reflexivity|]. unfold Expected.refreshed, Expected.merged, Expected.mirrored; simpl. by rewrite Hstate.
Qed.

Lemma closed_remote_forces_end_witness :
  calm 2 (Sample.store open in_process)
  ∧ (∃ w' r', SyncIssues.syncIssue Sample.instant (Sample.remote 7 GitHub.state_closed "1700000009000")
                "acme/shop" (Sample.store open in_process)
              = (Normal SyncIssues.action_updated, w')
            ∧ table w' !! "c7" = Some r' ∧ workflowStatus r' = end_).
Proof.
  split; [calm_now|].
  apply (closed_remote_forces_end Sample.instant
           (Sample.remote 7 GitHub.state_closed "1700000009000") "acme/shop"
           (Sample.store open in_process) "c7" (Sample.local 7 open in_process));
    [calm_now | reflexivity | reflexivity].
Defined.

(** C2.  A reopen resets the progress marker.  When the stored record has
    [statusGithub = closed] and the remote issue is now open, the sync
    step leaves [workflowStatus = pending]. *)
Theorem reopened_resets_to_pending (new_Date : string -> Z) issue repo w id r :
  calm 2 w ->
  GitHub.state issue = GitHub.state_open ->
  Prisma.lookup_key (GitHub.number issue) repo (table w) = Some (id, r) ->
  statusGithub r = closed ->
  ∃ w' r', SyncIssues.syncIssue new_Date issue repo w = (Normal SyncIssues.action_updated, w')
           ∧ table w' !! id = Some r' ∧ workflowStatus r' = pending.
Proof.
  intros Hcalm Hstate Hkey Hwas.
  rewrite (syncIssue_existing new_Date issue repo w id r Hcalm Hkey).
  eexists _, _. split; [reflexivity|]. simpl. rewrite lookup_insert_eq.
  split; [reflexivity|]. unfold Expected.refreshed, Expected.merged, Expected.mirrored; simpl.
  rewrite Hstate, Hwas. reflexivity.
Qed.

Lemma reopened_resets_to_pending_witness :
  calm 2 (Sample.store closed end_)
  ∧ ∃ w' r', SyncIssues.syncIssue Sample.instant (Sample.remote 7 GitHub.state_open "1700000009000")
               "acme/shop" (Sample.store closed end_)
             = (Normal SyncIssues.action_updated, w')
           ∧ table w' !! "c7" = Some r' ∧ workflowStatus r' = pending.
Proof.
  split; [calm_now|].
  apply (reopened_resets_to_pending Sample.instant
           (Sample.remote 7 GitHub.state_open "1700000009000") "acme/shop"
           (Sample.store closed end_) "c7" (Sample.local 7 closed end_));
    [calm_now | reflexivity | reflexivity | reflexivity].
Defined.

(** C3.  Progress survives while the issue stays open.  When the stored
    record has [statusGithub = open] and the remote issue is still open,
    the sync step leaves [workflowStatus] as it was; in particular a
    record that is [in_process] does not fall back to [pending]. *)
Theorem still_open_keeps_progress (new_Date : string -> Z) issue repo w id r :
  calm 2 w ->
  GitHub.state issue = GitHub.state_open ->
  Prisma.lookup_key (GitHub.number issue) repo (table w) = Some (id, r) ->
  statusGithub r = open ->
  ∃ w' r', SyncIssues.syncIssue new_Date issue repo w = (Normal SyncIssues.action_updated, w')
           ∧ table w' !! id = Some r'
           ∧ workflowStatus r' = workflowStatus r
           ∧ (workflowStatus r = in_process -> workflowStatus r' ≠ pending).
Proof.
  intros Hcalm Hstate Hkey Hwas.
  rewrite (syncIssue_existing new_Date issue repo w id r Hcalm Hkey).
  eexists _, _. split; [reflexivity|]. simpl. rewrite lookup_insert_eq.
  split; [reflexivity|]. unfold Expected.refreshed, Expected.merged, Expected.mirrored; simpl.
  rewrite Hstate, Hwas. simpl. split; [reflexivity|]. by intros ->.
Qed.

Lemma still_open_keeps_progress_witness :
  calm 2 (Sample.store open in_process)
  ∧ ∃ w' r', SyncIssues.syncIssue Sample.instant (Sample.remote 7 GitHub.state_open "1700000009000")
               "acme/shop" (Sample.store open in_process)
             = (Normal SyncIssues.action_updated, w')
           ∧ table w' !! "c7" = Some r'
           ∧ workflowStatus r' = in_process
           ∧ (in_process = in_process -> workflowStatus r' ≠ pending).
Proof.
  split; [calm_now|].
  apply (still_open_keeps_progress Sample.instant
           (Sample.remote 7 GitHub.state_open "1700000009000") "acme/shop"
           (Sample.store open in_process) "c7" (Sample.local 7 open in_process));
    [calm_now | reflexivity | reflexivity | reflexivity].
Defined.

(** C7.  Frame of a sync update.  Whatever branch decides the workflow
    status, updating an existing record writes [title], [description],
    [labels], [url], [statusGithub], [workflowStatus] and
    [updatedAtGithub], the first five and the last from the remote
    record, and leaves [githubNumber], [repository], [createdAtGithub],
    [selectedContext], [prompt] and the [id] as they were; no other row
    changes.  Both sync paths write the same row. *)
Theorem sync_update_writes_mirrored_columns_only (new_Date : string -> Z) issue repo w id r :
  calm 2 w ->
  Prisma.lookup_key (GitHub.number issue) repo (table w) = Some (id, r) ->
  ∃ wf,
    let r' :=
      {| githubNumber := githubNumber r;
         repository := repository r;
         title := GitHub.title issue;
         description := GitHub.body issue;
         statusGithub :=
           match GitHub.state issue with
           | GitHub.state_open => open
           | GitHub.state_closed => closed
           end;
         workflowStatus := wf;
         url := GitHub.html_url issue;
         labels := map GitHub.name (GitHub.labels issue);
         createdAtGithub := createdAtGithub r;
         updatedAtGithub := new_Date (GitHub.updated_at issue);
         selectedContext := selectedContext r;
         prompt := prompt r |} in
    let w' := mkWorld (<[id := r']> (table w)) (tail (tail (faults w))) in
    SyncIssues.syncIssue new_Date issue repo w = (Normal SyncIssues.action_updated, w')
    ∧ FetchUserIssues.syncOne new_Date issue repo w
      = (Normal (SyncIssues.action_updated, (id, r')), w')
    ∧ table w' !! id = Some r'
    ∧ ∀ other, other ≠ id -> table w' !! other = table w !! other.
Proof.
  intros Hcalm Hkey. exists (Expected.merged issue r). simpl.
  rewrite (syncIssue_existing new_Date issue repo w id r Hcalm Hkey).
  rewrite (syncOne_existing new_Date issue repo w id r Hcalm Hkey).
  unfold Expected.refreshed, Expected.mirrored.
  destruct (GitHub.state issue); simpl;
    (repeat split; [apply lookup_insert_eq | by intros; apply lookup_insert_ne]).
Qed.

Lemma sync_update_writes_mirrored_columns_only_witness :
  calm 2 (Sample.store open in_process)
  ∧ ∃ wf,
      let r' :=
        {| githubNumber := 7;
           repository := "acme/shop";
           title := "Checkout fails on retry";
           description := Some "Steps to reproduce";
           statusGithub := closed;
           workflowStatus := wf;
           url := "https://github.com/acme/shop/issues/7";
           labels := ["bug"; "payment"];
           createdAtGithub := 1700000000000;
           updatedAtGithub := 1700000009000;
           selectedContext := Some "checkout_api";
           prompt := Some "look at the retry path" |} in
      let w' := mkWorld (<["c7" := r']> (table (Sample.store open in_process))) [] in
      SyncIssues.syncIssue Sample.instant (Sample.remote 7 GitHub.state_closed "1700000009000")
        "acme/shop" (Sample.store open in_process)
      = (Normal SyncIssues.action_updated, w')
      ∧ FetchUserIssues.syncOne Sample.instant (Sample.remote 7 GitHub.state_closed "1700000009000")
          "acme/shop" (Sample.store open in_process)
        = (Normal (SyncIssues.action_updated, ("c7", r')), w')
      ∧ table w' !! "c7" = Some r'
      ∧ ∀ other, other ≠ "c7" -> table w' !! other = table (Sample.store open in_process) !! other.
Proof.
  split; [calm_now|].
  apply (sync_update_writes_mirrored_columns_only Sample.instant
           (Sample.remote 7 GitHub.state_closed "1700000009000") "acme/shop"
           (Sample.store open in_process) "c7" (Sample.local 7 open in_process));
    [calm_now | reflexivity].
Defined.

(** C4.  Upsert by natural key.  With no record for the key, the sync
    step creates one, [end] when the remote issue is closed and [pending]
    otherwise; syncing the same remote issue again updates that row,
    changes nothing and leaves a single row for the key, and the two
    passes are counted as one [created] and one [updated].  With a record
    for the key, the step updates it in place: same ids, same number of
    rows. *)
Theorem upsert_by_natural_key (new_Date : string -> Z) issue repo w :
  calm 4 w ->
  (Prisma.lookup_key (GitHub.number issue) repo (table w) = None ->
   ∃ id row w1 w2,
     (* first sight: a row is created under an unused id *)
     table w !! id = None
     ∧ SyncIssues.syncIssue new_Date issue repo w = (Normal SyncIssues.action_created, w1)
     ∧ table w1 = <[id := row]> (table w)
     ∧ githubNumber row = GitHub.number issue ∧ repository row = repo
     ∧ workflowStatus row
       = match GitHub.state issue with
         | GitHub.state_closed => end_
         | GitHub.state_open => pending
         end
     (* the same remote issue again: an update, and still one row *)
     ∧ SyncIssues.syncIssue new_Date issue repo w1 = (Normal SyncIssues.action_updated, w2)
     ∧ table w2 = table w1
     ∧ size (table w2) = S (size (table w))
     ∧ (∀ id' r', table w2 !! id' = Some r' ->
          githubNumber r' = GitHub.number issue -> repository r' = repo -> id' = id)
     (* and the orchestrator counts them so *)
     ∧ (∀ result, SyncIssues.syncOne new_Date repo issue result w
                  = (SyncIssues.tally SyncIssues.action_created result, w1))
     ∧ (∀ result, SyncIssues.syncOne new_Date repo issue result w1
                  = (SyncIssues.tally SyncIssues.action_updated result, w2)))
  ∧ (∀ id r,
       Prisma.lookup_key (GitHub.number issue) repo (table w) = Some (id, r) ->
       ∃ r' w1,
         SyncIssues.syncIssue new_Date issue repo w = (Normal SyncIssues.action_updated, w1)
         ∧ table w1 = <[id := r']> (table w)
         ∧ githubNumber r' = GitHub.number issue ∧ repository r' = repo
         ∧ dom (table w1) = dom (table w)
         ∧ size (table w1) = size (table w)).
Proof.
  intros Hcalm. split.
  - intros Hnone.
    pose proof (calm_weaken 2 4 w ltac:(lia) Hcalm) as Hcalm2.
    set (id := fresh (dom (table w))).
    set (row := Expected.inserted new_Date issue repo).
    set (w1 := mkWorld (<[id := row]> (table w)) (tail (tail (faults w)))).
    assert (Hid : table w !! id = None) by apply fresh_id_unused.
    assert (Hfirst : SyncIssues.syncIssue new_Date issue repo w
                     = (Normal SyncIssues.action_created, w1))
      by exact (syncIssue_absent new_Date issue repo w Hcalm2 Hnone).
    assert (Hcalm1 : calm 2 w1).
    { exact (calm_step 2 (mkWorld (table w) (tail (faults w))) _ (calm_step 3 w (table w) Hcalm)). }
    assert (Hkey1 : Prisma.lookup_key (GitHub.number issue) repo (table w1) = Some (id, row))
      by (apply lookup_key_insert_new; done).
    pose proof (syncIssue_existing new_Date issue repo w1 id row Hcalm1 Hkey1) as Hsecond.
    assert (Hsame : Expected.refreshed new_Date issue (Expected.merged issue row) row = row)
      by apply refreshed_inserted.
    rewrite Hsame in Hsecond. simpl in Hsecond.
    rewrite insert_insert_eq in Hsecond.
    exists id, row, w1, (mkWorld (<[id := row]> (table w)) (tail (tail (faults w1)))).
    repeat split; try done.
    + unfold row, Expected.inserted, Expected.mirrored; simpl. by destruct (GitHub.state issue).
    + simpl. by apply map_size_insert_None.
    + simpl. intros id' r' Hin Hn Hr.
      destruct (decide (id = id')) as [|Hne]; [done|].
      rewrite lookup_insert_ne in Hin by done.
      by destruct (lookup_key_None _ _ _ _ _ Hnone Hin).
    + intros result. unfold SyncIssues.syncOne. by rewrite Hfirst.
    + intros result. unfold SyncIssues.syncOne. by rewrite Hsecond.
  - intros id r Hkey.
    pose proof (calm_weaken 2 4 w ltac:(lia) Hcalm) as Hcalm2.
    destruct (lookup_key_Some _ _ _ _ _ Hkey) as (Hid & Hn & Hr).
    eexists _, _. split; [exact (syncIssue_existing new_Date issue repo w id r Hcalm2 Hkey)|].
    simpl. repeat split; try done.
    + apply dom_insert_lookup_L. by eexists.
    + by apply map_size_insert_Some.
Qed.

Lemma upsert_by_natural_key_witness :
  calm 4 Sample.empty_store
  ∧ Prisma.lookup_key 7%Z "acme/shop" (table Sample.empty_store) = None
  ∧ ∃ (id : string) row w1 w2,
      table Sample.empty_store !! id = None
      ∧ SyncIssues.syncIssue Sample.instant (Sample.remote 7 GitHub.state_closed "1700000009000")
          "acme/shop" Sample.empty_store
        = (Normal SyncIssues.action_created, w1)
      ∧ table w1 = <[id := row]> (table Sample.empty_store)
      ∧ githubNumber row = 7%Z ∧ repository row = "acme/shop"
      ∧ workflowStatus row = end_
      ∧ SyncIssues.syncIssue Sample.instant (Sample.remote 7 GitHub.state_closed "1700000009000")
          "acme/shop" w1
        = (Normal SyncIssues.action_updated, w2)
      ∧ table w2 = table w1
      ∧ size (table w2) = 1%nat
      ∧ (∀ id' r', table w2 !! id' = Some r' ->
           githubNumber r' = 7%Z -> repository r' = "acme/shop" -> id' = id)
      ∧ (∀ result, SyncIssues.syncOne Sample.instant "acme/shop"
                     (Sample.remote 7 GitHub.state_closed "1700000009000") result Sample.empty_store
                   = (SyncIssues.tally SyncIssues.action_created result, w1))
      ∧ (∀ result, SyncIssues.syncOne Sample.instant "acme/shop"
                     (Sample.remote 7 GitHub.state_closed "1700000009000") result w1
                   = (SyncIssues.tally SyncIssues.action_updated result, w2)).
Proof.
  split; [calm_now|]. split; [reflexivity|].
  apply (upsert_by_natural_key Sample.instant
           (Sample.remote 7 GitHub.state_closed "1700000009000") "acme/shop"
           Sample.empty_store); [calm_now | reflexivity].
Defined.

Lemma not_provided_spec v :
  StartRoute.not_provided v = false <-> ∃ s, v = StartRoute.JsString s ∧ s ≠ "".
Proof.
  split.
  - destruct v as [| |b|n|s|]; try (by destruct b); try (by destruct n); try done.
    + unfold StartRoute.not_provided; simpl. destruct n; simpl; try done;
        by destruct (negb _).
    + unfold StartRoute.not_provided; simpl.
      destruct (String.eqb_spec s ""); [done|]. eauto.
  - intros (s & -> & Hs). unfold StartRoute.not_provided; simpl.
    by destruct (String.eqb_spec s "").
Qed.

Lemma start_rejected id body w :
  StartRoute.not_provided (StartRoute.selectedContext body) = true ->
  StartRoute.start id (Normal body) w
  = (Normal (StartRoute.Failure 400 "selectedContext is required"), w).
Proof.
  intros H. unfold StartRoute.start, bind, ret.
  destruct (StartRoute.selectedContext body); try reflexivity. by rewrite H.
Qed.

Lemma start_found id body context w :
  calm 2 w ->
  StartRoute.selectedContext body = StartRoute.JsString context -> context ≠ "" ->
  StartRoute.start id (Normal body) w
  = match table w !! id with
    | None => (Normal (StartRoute.Failure 404 "Issue not found"),
               mkWorld (table w) (tail (faults w)))
    | Some r =>
        if negb (bool_decide (statusGithub r = open)) then
          (Normal (StartRoute.Failure 400 "Cannot start a closed issue"),
           mkWorld (table w) (tail (faults w)))
        else if negb (bool_decide (workflowStatus r = pending)) then
          (Normal (StartRoute.Failure 400 "Issue is already in process or ended"),
           mkWorld (table w) (tail (faults w)))
        else
          (Normal (StartRoute.Started (id, Expected.started context (StartRoute.prompt body) r)),
           mkWorld (<[id := Expected.started context (StartRoute.prompt body) r]> (table w))
                   (tail (tail (faults w))))
    end.
Proof.
  intros Hcalm Hctx Hne.
  assert (Hok : StartRoute.not_provided (StartRoute.JsString context) = false)
    by (apply not_provided_spec; eauto).
  unfold StartRoute.start, bind, ret. rewrite Hctx, Hok.
  unfold Prisma.findUnique_id. rewrite (prisma_call_calm _ 1 w Hcalm). simpl.
  destruct (table w !! id) as [r|] eqn:Hid; simpl; [|reflexivity].
  destruct (negb (bool_decide (statusGithub r = open))); [reflexivity|].
  destruct (negb (bool_decide (workflowStatus r = pending))); [reflexivity|].
  unfold Prisma.update.
  rewrite (prisma_call_calm _ 0 _ (calm_step 1 w (table w) Hcalm)). simpl.
  rewrite Hid. reflexivity.
Qed.

(** C5.  The [start] action.  It answers 400 when [selectedContext] is
    missing (or empty, or not a string); with a context, 404 when no row
    has the id, 400 when the row is not open on GitHub, 400 when its
    workflow status is not [pending]; each of these answers leaves the
    table as it was.  A row that is not open or not pending gets a 400
    whatever the body.  Otherwise the row gets the supplied context, the
    supplied prompt or null, and [workflowStatus = in_process], and is
    the answer. *)
Theorem start_checks_then_transition id body w :
  calm 2 w ->
  StartRoute.not_provided StartRoute.JsUndefined = true
  ∧ (StartRoute.not_provided (StartRoute.selectedContext body) = true ->
     StartRoute.POST id (Normal body) w
     = (StartRoute.Failure 400 "selectedContext is required", w))
  ∧ (∀ context,
       StartRoute.selectedContext body = StartRoute.JsString context -> context ≠ "" ->
       (table w !! id = None ->
        ∃ w', StartRoute.POST id (Normal body) w = (StartRoute.Failure 404 "Issue not found", w')
              ∧ table w' = table w)
       ∧ (∀ r, table w !! id = Some r ->
            (statusGithub r ≠ open ->
             ∃ w', StartRoute.POST id (Normal body) w
                   = (StartRoute.Failure 400 "Cannot start a closed issue", w')
                   ∧ table w' = table w)
            ∧ (statusGithub r = open -> workflowStatus r ≠ pending ->
               ∃ w', StartRoute.POST id (Normal body) w
                     = (StartRoute.Failure 400 "Issue is already in process or ended", w')
                     ∧ table w' = table w)
            ∧ (statusGithub r = open -> workflowStatus r = pending ->
               let r' :=
                 {| githubNumber := githubNumber r;
                    repository := repository r;
                    title := title r;
                    description := description r;
                    statusGithub := statusGithub r;
                    workflowStatus := in_process;
                    url := url r;
                    labels := labels r;
                    createdAtGithub := createdAtGithub r;
                    updatedAtGithub := updatedAtGithub r;
                    selectedContext := Some context;
                    prompt := match StartRoute.prompt body with
                              | Some "" | None => None
                              | Some text => Some text
                              end |} in
               ∃ w', StartRoute.POST id (Normal body) w = (StartRoute.Started (id, r'), w')
                     ∧ table w' = <[id := r']> (table w))))
  ∧ (∀ r, table w !! id = Some r ->
       statusGithub r ≠ open ∨ workflowStatus r ≠ pending ->
       ∃ message w', StartRoute.POST id (Normal body) w = (StartRoute.Failure 400 message, w')
                     ∧ table w' = table w).
Proof.
  intros Hcalm.
  assert (Hreject : StartRoute.not_provided (StartRoute.selectedContext body) = true ->
            StartRoute.POST id (Normal body) w
            = (StartRoute.Failure 400 "selectedContext is required", w)).
  { intros H. unfold StartRoute.POST. by rewrite start_rejected. }
  assert (Hcases : ∀ context,
            StartRoute.selectedContext body = StartRoute.JsString context -> context ≠ "" ->
            ∀ r, table w !! id = Some r ->
              (statusGithub r ≠ open ->
               ∃ w', StartRoute.POST id (Normal body) w
                     = (StartRoute.Failure 400 "Cannot start a closed issue", w')
                     ∧ table w' = table w)
              ∧ (statusGithub r = open -> workflowStatus r ≠ pending ->
                 ∃ w', StartRoute.POST id (Normal body) w
                       = (StartRoute.Failure 400 "Issue is already in process or ended", w')
                       ∧ table w' = table w)).
  { intros context Hctx Hne r Hid. unfold StartRoute.POST.
    rewrite (start_found id body context w Hcalm Hctx Hne), Hid. split.
    - intros Hgh. rewrite bool_decide_eq_false_2 by done. simpl. eauto.
    - intros Hgh Hwf. rewrite bool_decide_eq_true_2 by done.
      rewrite bool_decide_eq_false_2 by done. simpl. eauto. }
  split; [reflexivity|]. split; [exact Hreject|]. split.
  - intros context Hctx Hne. split.
    + intros Hid. unfold StartRoute.POST.
      rewrite (start_found id body context w Hcalm Hctx Hne), Hid. eauto.
    + intros r Hid. destruct (Hcases context Hctx Hne r Hid) as [Hclosed Hbusy].
      split; [exact Hclosed|]. split; [exact Hbusy|].
      intros Hgh Hwf. unfold StartRoute.POST.
      rewrite (start_found id body context w Hcalm Hctx Hne), Hid.
      rewrite !bool_decide_eq_true_2 by done. simpl.
      assert (Hrow : Expected.started context (StartRoute.prompt body) r
                     = {| githubNumber := githubNumber r;
                          repository := repository r;
                          title := title r;
                          description := description r;
                          statusGithub := statusGithub r;
                          workflowStatus := in_process;
                          url := url r;
                          labels := labels r;
                          createdAtGithub := createdAtGithub r;
                          updatedAtGithub := updatedAtGithub r;
                          selectedContext := Some context;
                          prompt := match StartRoute.prompt body with
                                    | Some "" | None => None
                                    | Some text => Some text
                                    end |}).
      { unfold Expected.started. f_equal. by destruct (StartRoute.prompt body) as [[|c s]|]. }
      rewrite Hrow. eauto.
  - intros r Hid Hbad.
    destruct (StartRoute.not_provided (StartRoute.selectedContext body)) eqn:Hguard.
    + rewrite (Hreject eq_refl). eauto.
    + apply not_provided_spec in Hguard as (context & Hctx & Hne).
      destruct (Hcases context Hctx Hne r Hid) as [Hclosed Hbusy].
      destruct (decide (statusGithub r = open)) as [Hgh|Hgh].
      * destruct Hbad as [Hbad|Hbad]; [done|].
        destruct (Hbusy Hgh Hbad) as (w' & -> & Ht). eauto.
      * destruct (Hclosed Hgh) as (w' & -> & Ht). eauto.
Qed.

Lemma start_checks_then_transition_witness :
  calm 2 (Sample.store open pending)
  ∧ ∃ w', StartRoute.POST "c7" (Normal Sample.start_body) (Sample.store open pending)
          = (StartRoute.Started
               ("c7",
                {| githubNumber := 7;
                   repository := "acme/shop";
                   title := "Checkout fails";
                   description := None;
                   statusGithub := open;
                   workflowStatus := in_process;
                   url := "https://github.com/acme/shop/issues/7";
                   labels := [];
                   createdAtGithub := 1700000000000;
                   updatedAtGithub := 1700000000500;
                   selectedContext := Some "buyer3";
                   prompt := None |}), w').
Proof.
  assert (Hcalm : calm 2 (Sample.store open pending)) by calm_now.
  split; [exact Hcalm|].
  destruct (start_checks_then_transition "c7" Sample.start_body (Sample.store open pending) Hcalm)
    as (_ & _ & Hcontext & _).
  destruct (Hcontext "buyer3" eq_refl ltac:(discriminate)) as (_ & Hrow).
  destruct (Hrow (Sample.local 7 open pending) eq_refl) as (_ & _ & Hstart).
  destruct (Hstart eq_refl eq_refl) as (w' & Hpost & _).
  exists w'. exact Hpost.
Defined.

(** ** Numbers *)

Lemma Qred_inject_Z z : Qred (inject_Z z) = inject_Z z.
Proof. apply Qcanon.Qred_identity. simpl. apply Z.gcd_1_r. Qed.

Lemma as_nat_Int (n : nat) : as_nat (Int (Z.of_nat n)) = Some n.
Proof.
  unfold as_nat, Int; simpl.
  destruct (Z.leb_spec 0 (Z.of_nat n)); [|lia]. by rewrite Nat2Z.id.
Qed.

Lemma as_nat_Some x (n : nat) :
  as_nat x = Some n -> (x = NegZero ∧ n = 0%nat) ∨ x = Int (Z.of_nat n).
Proof.
  destruct x as [| s | | [a d]]; simpl.
  - discriminate.
  - discriminate.
  - intros [= <-]. by left.
  - destruct d; simpl; try discriminate.
    destruct (Z.leb_spec 0 a); [|discriminate].
    intros [= <-]. right.
    unfold Int, inject_Z. by rewrite Z2Nat.id.
Qed.

Lemma sub_Int a b : sub (Int a) (Int b) = Int (a - b).
Proof.
  unfold sub, Int. rewrite <- (Qred_inject_Z (a - b)). do 2 f_equal.
  unfold Qminus, Qplus, Qopp, inject_Z; simpl. f_equal. lia.
Qed.

Lemma mul_Int a b : (0 <= a)%Z -> (0 <= b)%Z -> mul (Int a) (Int b) = Int (a * b).
Proof.
  intros Ha Hb. unfold mul, Int, Qzero, Qneg; simpl.
  destruct (Z.eqb_spec a 0) as [->|Ha']; simpl.
  - destruct (Z.ltb_spec b 0); [lia|]. reflexivity.
  - destruct (Z.eqb_spec b 0) as [->|Hb']; simpl.
    + destruct (Z.ltb_spec a 0); [lia|]. simpl. by rewrite Z.mul_0_r.
    + rewrite <- (Qred_inject_Z (a * b)). do 2 f_equal.
Qed.

(** Multiplying by the zero [limit] leaves a zero, whatever the page. *)
Lemma mul_Int_zero a : as_nat (mul (Int a) (Int 0)) = Some 0%nat.
Proof.
  unfold mul, Int, Qzero, Qneg; simpl. rewrite orb_true_r.
  by destruct (a <? 0)%Z.
Qed.

Lemma skip_of_Int (p l : nat) :
  (1 ≤ p)%nat ->
  IssuesRoute.skip_of (Int (Z.of_nat p)) (Int (Z.of_nat l)) = Int (Z.of_nat ((p - 1) * l)).
Proof.
  intros Hp. unfold IssuesRoute.skip_of. rewrite sub_Int, mul_Int by lia.
  f_equal. rewrite Nat2Z.inj_mul, Nat2Z.inj_sub by lia. reflexivity.
Qed.

(** [Math.ceil(total / limit)] is the ceiling of the quotient. *)
Lemma totalPages_of_Int (total l : nat) :
  (1 ≤ l)%nat ->
  ∃ c : Z, IssuesRoute.totalPages_of total (Int (Z.of_nat l)) = Int c
           ∧ ((c - 1) * Z.of_nat l < Z.of_nat total ≤ c * Z.of_nat l)%Z.
Proof.
  intros Hl. unfold IssuesRoute.totalPages_of, div, Int; simpl.
  unfold Qzero; simpl.
  destruct (Z.eqb_spec (Z.of_nat l) 0) as [|_]; [lia|].
  destruct (Z.eqb_spec (Z.of_nat total) 0) as [H0|Hpos].
  - unfold Qneg; simpl. rewrite H0. simpl.
    destruct (Z.ltb_spec (Z.of_nat l) 0); [lia|]. simpl.
    exists 0%Z. split; [reflexivity|]. lia.
  - set (q := Qdiv (inject_Z (Z.of_nat total)) (inject_Z (Z.of_nat l))).
    assert (Hc : Qceiling (Qred q) = Qceiling q) by (apply Qceiling_comp, Qred_correct).
    assert (Hq : (q * inject_Z (Z.of_nat l) == inject_Z (Z.of_nat total))%Q).
    { unfold q. rewrite Qmult_comm. apply Qmult_div_r.
      unfold inject_Z, Qeq; simpl. lia. }
    pose proof (Qle_ceiling q) as Hup.
    pose proof (Qceiling_lt q) as Hlow.
    assert (Hlpos : (0 < inject_Z (Z.of_nat l))%Q) by (unfold Qlt, inject_Z; simpl; lia).
    assert (Hup' : (inject_Z (Z.of_nat total) <= inject_Z (Qceiling q * Z.of_nat l))%Q).
    { rewrite <- Hq, inject_Z_mult. by apply Qmult_le_compat_r; [|apply Qlt_le_weak]. }
    assert (Hlow' : (inject_Z ((Qceiling q - 1) * Z.of_nat l) < inject_Z (Z.of_nat total))%Q).
    { rewrite <- Hq, inject_Z_mult. by apply Qmult_lt_compat_r. }
    rewrite <- Zle_Qle in Hup'. rewrite <- Zlt_Qlt in Hlow'.
    unfold Math_ceil. fold q. rewrite Hc.
    destruct (Z.eqb_spec (Qceiling q) 0) as [Hz|Hnz]; simpl.
    + rewrite Hz in Hup'. lia.
    + exists (Qceiling q). split; [reflexivity|]. lia.
Qed.

Lemma totalPages_of_zero_limit (total : nat) :
  IssuesRoute.totalPages_of total (Int 0)
  = match total with O => NaN | S _ => Inf false end.
Proof. by destruct total. Qed.

(** ** The list route *)

Section ListRoute.

Variable findMany_irregular : number -> number -> list Stored -> Completion (list Stored).

Abbreviation GET := (IssuesRoute.GET findMany_irregular).

Lemma length_ordered rows : length (Prisma.ordered rows) = length rows.
Proof. unfold Prisma.ordered. by rewrite merge_sort_Permutation. Qed.

Lemma GET_regular searchParams w (s n : nat) :
  calm 2 w ->
  as_nat (IssuesRoute.skip_of (IssuesRoute.page_of searchParams)
                              (IssuesRoute.limit_of searchParams)) = Some s ->
  as_nat (IssuesRoute.limit_of searchParams) = Some n ->
  GET searchParams w
  = (IssuesRoute.Listing (take n (drop s (Expected.rows_of searchParams w)))
                         (Expected.pagination_of searchParams w),
     mkWorld (table w) (tail (tail (faults w)))).
Proof.
  intros Hcalm Hs Hn.
  unfold IssuesRoute.GET, IssuesRoute.listing, bind, Prisma.count, IssuesRoute.findMany.
  rewrite (prisma_call_calm _ 1 w Hcalm). simpl.
  rewrite (prisma_call_calm _ 0 _ (calm_step 1 w (table w) Hcalm)). simpl.
  rewrite Hs, Hn. reflexivity.
Qed.

Lemma GET_irregular searchParams w :
  calm 2 w ->
  as_nat (IssuesRoute.skip_of (IssuesRoute.page_of searchParams)
                              (IssuesRoute.limit_of searchParams)) = None ->
  GET searchParams w
  = (match findMany_irregular
             (IssuesRoute.skip_of (IssuesRoute.page_of searchParams)
                                  (IssuesRoute.limit_of searchParams))
             (IssuesRoute.limit_of searchParams) (Expected.rows_of searchParams w) with
     | Normal issues => IssuesRoute.Listing issues (Expected.pagination_of searchParams w)
     | Throw _ => IssuesRoute.Failure 500 "Failed to fetch issues"
     end,
     mkWorld (table w) (tail (tail (faults w)))).
Proof.
  intros Hcalm Hs.
  unfold IssuesRoute.GET, IssuesRoute.listing, bind, Prisma.count, IssuesRoute.findMany.
  rewrite (prisma_call_calm _ 1 w Hcalm). simpl.
  rewrite (prisma_call_calm _ 0 _ (calm_step 1 w (table w) Hcalm)). simpl.
  rewrite Hs. unfold Expected.rows_of, Expected.pagination_of.
  by destruct (findMany_irregular _ _ _).
Qed.

(** The window of rows a regular page shows. *)
Lemma listing_window searchParams w (p l : nat) :
  calm 2 w ->
  IssuesRoute.page_of searchParams = Int (Z.of_nat p) ->
  IssuesRoute.limit_of searchParams = Int (Z.of_nat l) ->
  (1 ≤ p)%nat -> (1 ≤ l)%nat ->
  let matching := Prisma.matching (IssuesRoute.where_of searchParams) (table w) in
  ∃ issues c w',
    GET searchParams w
    = (IssuesRoute.Listing issues
         {| IssuesRoute.page := Int (Z.of_nat p);
            IssuesRoute.limit := Int (Z.of_nat l);
            IssuesRoute.total := length matching;
            IssuesRoute.totalPages := Int c |}, w')
    ∧ issues = take l (drop ((p - 1) * l) (Prisma.ordered matching))
    ∧ (length issues ≤ l)%nat
    ∧ length issues = (l `min` (length matching - (p - 1) * l))%nat
    ∧ ((c - 1) * Z.of_nat l < Z.of_nat (length matching) ≤ c * Z.of_nat l)%Z
    ∧ (p = 2%nat -> l = 20%nat -> length matching = 45%nat ->
       length issues = 20%nat ∧ c = 3%Z)
    ∧ table w' = table w.
Proof.
  intros Hcalm Hpage Hlimit Hp Hl matching.
  destruct (totalPages_of_Int (length matching) l Hl) as (c & Hc & Hceil).
  exists (take l (drop ((p - 1) * l) (Prisma.ordered matching))), c,
         (mkWorld (table w) (tail (tail (faults w)))).
  assert (Hlen : length (take l (drop ((p - 1) * l) (Prisma.ordered matching)))
                 = (l `min` (length matching - (p - 1) * l))%nat)
    by (by rewrite length_take, length_drop, length_ordered).
  split; [|split; [reflexivity|]; split; [|split; [exact Hlen|]; split; [exact Hceil|]; split;
                                         [|reflexivity]]].
  - rewrite (GET_regular searchParams w ((p - 1) * l) l Hcalm).
    + unfold Expected.pagination_of, Expected.rows_of. fold matching. by rewrite Hpage, Hlimit, Hc.
    + rewrite Hpage, Hlimit, skip_of_Int by done. apply as_nat_Int.
    + rewrite Hlimit. apply as_nat_Int.
  - rewrite Hlen. lia.
  - intros -> -> H45. rewrite Hlen, H45. split; [reflexivity|].
    rewrite H45 in Hceil. lia.
Qed.

End ListRoute.

(** C8.  Pagination of the list route.  For a page [p >= 1] and a limit
    [l >= 1] the route answers with the rows [(p-1)*l, (p-1)*l + l) of
    the ordered matching rows, hence at most [l] of them, and with
    [totalPages] the ceiling of [total / l]; with 45 matching rows,
    [limit=20] and [page=2] that is 20 rows and 3 pages.  An absent
    [page] reads as 1 and an absent [limit] as 20. *)
Theorem list_pagination fmi searchParams w (p l : nat) :
  calm 2 w ->
  (IssuesRoute.get "page" searchParams = None -> IssuesRoute.page_of searchParams = Int 1)
  ∧ (IssuesRoute.get "limit" searchParams = None -> IssuesRoute.limit_of searchParams = Int 20)
  ∧ (IssuesRoute.page_of searchParams = Int (Z.of_nat p) ->
     IssuesRoute.limit_of searchParams = Int (Z.of_nat l) ->
     (1 ≤ p)%nat -> (1 ≤ l)%nat ->
     let matching := Prisma.matching (IssuesRoute.where_of searchParams) (table w) in
     ∃ issues c w',
       IssuesRoute.GET fmi searchParams w
       = (IssuesRoute.Listing issues
            {| IssuesRoute.page := Int (Z.of_nat p);
               IssuesRoute.limit := Int (Z.of_nat l);
               IssuesRoute.total := length matching;
               IssuesRoute.totalPages := Int c |}, w')
       ∧ issues = take l (drop ((p - 1) * l) (Prisma.ordered matching))
       ∧ (length issues ≤ l)%nat
       ∧ length issues = (l `min` (length matching - (p - 1) * l))%nat
       ∧ ((c - 1) * Z.of_nat l < Z.of_nat (length matching) ≤ c * Z.of_nat l)%Z
       ∧ (p = 2%nat -> l = 20%nat -> length matching = 45%nat ->
          length issues = 20%nat ∧ c = 3%Z)
       ∧ table w' = table w).
Proof.
  intros Hcalm. split; [|split].
  - intros Hget. unfold IssuesRoute.page_of. by rewrite Hget.
  - intros Hget. unfold IssuesRoute.limit_of. by rewrite Hget.
  - intros Hpage Hlimit Hp Hl. by apply listing_window.
Qed.

Lemma list_pagination_witness :
  let searchParams := [("limit", "20"); ("page", "2")] in
  calm 2 (Sample.crowd 45)
  ∧ ∃ issues c w',
      IssuesRoute.GET Sample.strict searchParams (Sample.crowd 45)
      = (IssuesRoute.Listing issues
           {| IssuesRoute.page := Int 2; IssuesRoute.limit := Int 20;
              IssuesRoute.total := 45; IssuesRoute.totalPages := Int c |}, w')
      ∧ length issues = 20%nat ∧ c = 3%Z.
Proof.
  intros searchParams.
  assert (Hcalm : calm 2 (Sample.crowd 45)) by calm_now.
  split; [exact Hcalm|].
  destruct (list_pagination Sample.strict searchParams (Sample.crowd 45) 2 20 Hcalm)
    as (_ & _ & Hwindow).
  destruct (Hwindow eq_refl eq_refl ltac:(lia) ltac:(lia))
    as (issues & c & w' & Hget & _ & _ & _ & _ & H45 & _).
  assert (Hn : length (Prisma.matching (IssuesRoute.where_of searchParams)
                         (table (Sample.crowd 45))) = 45%nat) by (vm_compute; reflexivity).
  rewrite Hn in Hget.
  exists issues, c, w'. split; [exact Hget|]. by apply H45.
Defined.

Lemma get_delete_same name searchParams :
  IssuesRoute.get name (IssuesRoute.delete name searchParams) = None.
Proof.
  unfold IssuesRoute.get, IssuesRoute.delete.
  induction searchParams as [|[k v] rest IH]; simpl; [done|].
  destruct (String.eqb_spec k name) as [->|Hne]; simpl; [done|].
  by destruct (String.eqb_spec k name).
Qed.

Lemma get_delete_other name other searchParams :
  other ≠ name ->
  IssuesRoute.get other (IssuesRoute.delete name searchParams)
  = IssuesRoute.get other searchParams.
Proof.
  intros Hne. unfold IssuesRoute.get, IssuesRoute.delete.
  induction searchParams as [|[k v] rest IH]; simpl; [done|].
  destruct (String.eqb_spec k name) as [->|Hk]; simpl.
  - by destruct (String.eqb_spec name other) as [->|].
  - by destruct (String.eqb_spec k other).
Qed.

Lemma one_of_outside allowed v :
  v ∉ allowed -> IssuesRoute.one_of allowed (Some v) = false.
Proof.
  intros Hv. unfold IssuesRoute.one_of. simpl.
  rewrite bool_decide_eq_false_2 by done. apply andb_false_r.
Qed.

(** The handler reads the query string through these three only. *)
Lemma GET_ext fmi sp sp' w :
  IssuesRoute.where_of sp = IssuesRoute.where_of sp' ->
  IssuesRoute.page_of sp = IssuesRoute.page_of sp' ->
  IssuesRoute.limit_of sp = IssuesRoute.limit_of sp' ->
  IssuesRoute.GET fmi sp w = IssuesRoute.GET fmi sp' w.
Proof.
  intros Hw Hp Hl. unfold IssuesRoute.GET, IssuesRoute.listing.
  by rewrite Hw, Hp, Hl.
Qed.

Lemma GET_without_workflowStatus fmi sp w v :
  IssuesRoute.get "workflowStatus" sp = Some v ->
  v ∉ ["pending"; "in_process"; "end"] ->
  IssuesRoute.GET fmi sp w = IssuesRoute.GET fmi (IssuesRoute.delete "workflowStatus" sp) w.
Proof.
  intros Hget Hv. apply GET_ext.
  - unfold IssuesRoute.where_of.
    rewrite get_delete_same, !get_delete_other, Hget by done.
    by rewrite one_of_outside.
  - unfold IssuesRoute.page_of. by rewrite get_delete_other.
  - unfold IssuesRoute.limit_of. by rewrite get_delete_other.
Qed.

Lemma GET_without_statusGithub fmi sp w v :
  IssuesRoute.get "statusGithub" sp = Some v ->
  v ∉ ["open"; "closed"] ->
  IssuesRoute.GET fmi sp w = IssuesRoute.GET fmi (IssuesRoute.delete "statusGithub" sp) w.
Proof.
  intros Hget Hv. apply GET_ext.
  - unfold IssuesRoute.where_of.
    rewrite get_delete_same, !get_delete_other, Hget by done.
    by rewrite one_of_outside.
  - unfold IssuesRoute.page_of. by rewrite get_delete_other.
  - unfold IssuesRoute.limit_of. by rewrite get_delete_other.
Qed.

(** C9.  Invalid enum filters are dropped.  When [workflowStatus] is not
    one of [pending], [in_process], [end], or [statusGithub] not one of
    [open], [closed], the answer is the answer to the same request
    without that parameter, the other filters applying as before; and
    with regular paging values the answer is a listing, not an error. *)
Theorem invalid_filters_are_not_applied fmi searchParams w :
  (∀ v, IssuesRoute.get "workflowStatus" searchParams = Some v ->
        v ∉ ["pending"; "in_process"; "end"] ->
        IssuesRoute.GET fmi searchParams w
        = IssuesRoute.GET fmi (IssuesRoute.delete "workflowStatus" searchParams) w
        ∧ Prisma.where_workflowStatus (IssuesRoute.where_of searchParams) = None)
  ∧ (∀ v, IssuesRoute.get "statusGithub" searchParams = Some v ->
          v ∉ ["open"; "closed"] ->
          IssuesRoute.GET fmi searchParams w
          = IssuesRoute.GET fmi (IssuesRoute.delete "statusGithub" searchParams) w
          ∧ Prisma.where_statusGithub (IssuesRoute.where_of searchParams) = None)
  ∧ (calm 2 w ->
     ∀ s n : nat,
       as_nat (IssuesRoute.skip_of (IssuesRoute.page_of searchParams)
                                   (IssuesRoute.limit_of searchParams)) = Some s ->
       as_nat (IssuesRoute.limit_of searchParams) = Some n ->
       ∃ issues pagination w',
         IssuesRoute.GET fmi searchParams w = (IssuesRoute.Listing issues pagination, w')
         ∧ issues = take n (drop s (Prisma.ordered
                      (Prisma.matching (IssuesRoute.where_of searchParams) (table w))))).
Proof.
  split; [|split].
  - intros v Hget Hv. split; [by eapply GET_without_workflowStatus|].
    unfold IssuesRoute.where_of; simpl. by rewrite Hget, one_of_outside.
  - intros v Hget Hv. split; [by eapply GET_without_statusGithub|].
    unfold IssuesRoute.where_of; simpl. by rewrite Hget, one_of_outside.
  - intros Hcalm s n Hs Hn.
    rewrite (GET_regular fmi searchParams w s n Hcalm Hs Hn). eauto.
Qed.

Lemma invalid_filters_are_not_applied_witness :
  let searchParams := [("workflowStatus", "done"); ("repository", "acme/shop")] in
  IssuesRoute.get "workflowStatus" searchParams = Some "done"
  ∧ ("done" ∉ ["pending"; "in_process"; "end"])
  ∧ IssuesRoute.GET Sample.strict searchParams (Sample.crowd 3)
    = IssuesRoute.GET Sample.strict [("repository", "acme/shop")] (Sample.crowd 3)
  ∧ Prisma.where_workflowStatus (IssuesRoute.where_of searchParams) = None.
Proof.
  intros searchParams.
  assert (Hv : "done" ∉ ["pending"; "in_process"; "end"])
    by (rewrite !not_elem_of_cons; repeat split; try discriminate; apply not_elem_of_nil).
  split; [reflexivity|]. split; [exact Hv|].
  exact (proj1 (invalid_filters_are_not_applied Sample.strict searchParams (Sample.crowd 3))
           "done" eq_refl Hv).
Defined.

(** C10.  Paging parameters are used as parsed.  The defaults 1 and 20
    replace an absent or empty parameter only; any other value goes
    through [parseInt].  [page=abc] parses to [NaN], which makes [skip]
    [NaN], and that is what the client is called with.  [limit=0] lists
    no row and reports [Math.ceil(total / 0)]: [Infinity], or [NaN] when
    nothing matches. *)
Theorem paging_parameters_are_used_as_parsed fmi searchParams w :
  calm 2 w ->
  (* the defaults stand in for an absent or empty parameter only *)
  (IssuesRoute.get "page" searchParams = None ∨ IssuesRoute.get "page" searchParams = Some "" ->
   IssuesRoute.page_of searchParams = Int 1)
  ∧ (IssuesRoute.get "limit" searchParams = None ∨ IssuesRoute.get "limit" searchParams = Some "" ->
     IssuesRoute.limit_of searchParams = Int 20)
  ∧ (∀ v, IssuesRoute.get "page" searchParams = Some v -> v ≠ "" ->
          IssuesRoute.page_of searchParams = parseInt v)
  ∧ (∀ v, IssuesRoute.get "limit" searchParams = Some v -> v ≠ "" ->
          IssuesRoute.limit_of searchParams = parseInt v)
  (* page=abc: NaN reaches skip and the client *)
  ∧ (IssuesRoute.get "page" searchParams = Some "abc" ->
     let limit := IssuesRoute.limit_of searchParams in
     let rows := Prisma.ordered
                   (Prisma.matching (IssuesRoute.where_of searchParams) (table w)) in
     IssuesRoute.page_of searchParams = NaN
     ∧ IssuesRoute.skip_of NaN limit = NaN
     ∧ ∃ w', IssuesRoute.GET fmi searchParams w
             = (match fmi NaN limit rows with
                | Normal issues =>
                    IssuesRoute.Listing issues
                      {| IssuesRoute.page := NaN;
                         IssuesRoute.limit := limit;
                         IssuesRoute.total := length rows;
                         IssuesRoute.totalPages := IssuesRoute.totalPages_of (length rows) limit |}
                | Throw _ => IssuesRoute.Failure 500 "Failed to fetch issues"
                end, w'))
  (* limit=0: no rows, and the ceiling of total/0 *)
  ∧ (IssuesRoute.get "limit" searchParams = Some "0" ->
     ∀ p : Z, IssuesRoute.page_of searchParams = Int p ->
       let total := length (Prisma.matching (IssuesRoute.where_of searchParams) (table w)) in
       ∃ w', IssuesRoute.GET fmi searchParams w
             = (IssuesRoute.Listing []
                  {| IssuesRoute.page := Int p;
                     IssuesRoute.limit := Int 0;
                     IssuesRoute.total := total;
                     IssuesRoute.totalPages := Math_ceil (div (Int (Z.of_nat total)) (Int 0)) |},
                w')
             ∧ Math_ceil (div (Int (Z.of_nat total)) (Int 0))
               = match total with O => NaN | S _ => Inf false end).
Proof.
  intros Hcalm.
  split; [|split; [|split; [|split; [|split]]]].
  - unfold IssuesRoute.page_of. by intros [-> | ->].
  - unfold IssuesRoute.limit_of. by intros [-> | ->].
  - intros v Hget Hv. unfold IssuesRoute.page_of. rewrite Hget. simpl.
    by destruct (String.eqb_spec v "").
  - intros v Hget Hv. unfold IssuesRoute.limit_of. rewrite Hget. simpl.
    by destruct (String.eqb_spec v "").
  - intros Hget limit rows.
    assert (Hpage : IssuesRoute.page_of searchParams = NaN)
      by (unfold IssuesRoute.page_of; by rewrite Hget).
    split; [exact Hpage|]. split; [reflexivity|].
    eexists. rewrite (GET_irregular fmi searchParams w Hcalm) by (by rewrite Hpage).
    rewrite Hpage. unfold Expected.pagination_of, Expected.rows_of. rewrite Hpage.
    fold rows limit. simpl.
    assert (Hlen : length rows
                   = length (Prisma.matching (IssuesRoute.where_of searchParams) (table w)))
      by apply length_ordered.
    rewrite <- Hlen. reflexivity.
  - intros Hget p Hpage total.
    assert (Hlimit : IssuesRoute.limit_of searchParams = Int 0)
      by (unfold IssuesRoute.limit_of; by rewrite Hget).
    eexists. split; [|apply (totalPages_of_zero_limit total)].
    rewrite (GET_regular fmi searchParams w 0 0 Hcalm).
    + unfold Expected.pagination_of. by rewrite Hpage, Hlimit.
    + rewrite Hpage, Hlimit. unfold IssuesRoute.skip_of. rewrite sub_Int.
      apply mul_Int_zero.
    + by rewrite Hlimit.
Qed.

Lemma paging_parameters_are_used_as_parsed_witness :
  let searchParams := [("page", "abc")] in
  calm 2 (Sample.crowd 3)
  ∧ IssuesRoute.page_of searchParams = NaN
  ∧ IssuesRoute.limit_of searchParams = Int 20
  ∧ IssuesRoute.skip_of NaN (Int 20) = NaN
  ∧ ∃ w', IssuesRoute.GET Sample.strict searchParams (Sample.crowd 3)
          = (IssuesRoute.Failure 500 "Failed to fetch issues", w').
Proof.
  intros searchParams.
  assert (Hcalm : calm 2 (Sample.crowd 3)) by calm_now.
  destruct (paging_parameters_are_used_as_parsed Sample.strict searchParams (Sample.crowd 3) Hcalm)
    as (_ & Hlimit & _ & _ & Habc & _).
  destruct (Habc eq_refl) as (Hpage & Hskip & w' & Hget).
  split; [exact Hcalm|]. split; [exact Hpage|].
  split; [apply Hlimit; by left|]. split; [exact Hskip|].
  exists w'. exact Hget.
Defined.

Section SyncRun.

Variable fetch : string -> string -> GitHub.Response.
Variable new_Date : string -> Z.

Abbreviation syncIssue := (SyncIssues.syncIssue new_Date).
Abbreviation syncOne := (SyncIssues.syncOne new_Date).
Abbreviation syncEach := (SyncIssues.syncEach new_Date).
Abbreviation syncRepo := (SyncIssues.syncRepo fetch new_Date).
Abbreviation syncRepos := (SyncIssues.syncRepos fetch new_Date).
Abbreviation syncIssuesFromGitHub := (SyncIssues.syncIssuesFromGitHub fetch new_Date).

Abbreviation settled := Run.settled.

Lemma syncOne_cases repo issue result w :
  (∃ action w', syncIssue issue repo w = (Normal action, w')
                ∧ syncOne repo issue result w = (SyncIssues.tally action result, w'))
  ∨ (∃ err w', syncIssue issue repo w = (Throw err, w')
               ∧ syncOne repo issue result w
                 = (SyncIssues.push_error (Run.issue_error repo issue err) result, w')).
Proof.
  unfold SyncIssues.syncOne.
  destruct (syncIssue issue repo w) as [[action|err] w']; [left|right]; eauto.
Qed.

Lemma syncEach_cons repo issue rest result w :
  syncEach repo (issue :: rest) result w
  = syncEach repo rest (syncOne repo issue result w).1 (syncOne repo issue result w).2.
Proof. simpl. by destruct (syncOne repo issue result w). Qed.

Lemma syncEach_app repo before after result w :
  syncEach repo (before ++ after) result w
  = syncEach repo after (syncEach repo before result w).1 (syncEach repo before result w).2.
Proof.
  revert result w. induction before as [|issue before IH]; intros result w; [done|].
  rewrite <- app_comm_cons, !syncEach_cons. apply IH.
Qed.

(** Every issue of the list is settled, as a count or as an error, and
    the errors already there stay in front. *)
Lemma syncEach_settles repo issues result w :
  ∃ extra,
    SyncIssues.errors (syncEach repo issues result w).1 = (SyncIssues.errors result ++ extra)%list
    ∧ Forall (fun e => ∃ issue err, issue ∈ issues ∧ e = Run.issue_error repo issue err) extra
    ∧ settled (syncEach repo issues result w).1 = (settled result + length issues)%nat.
Proof.
  revert result w. induction issues as [|issue rest IH]; intros result w.
  - exists []. simpl. rewrite app_nil_r. repeat split; [constructor | lia].
  - rewrite syncEach_cons.
    destruct (IH (syncOne repo issue result w).1 (syncOne repo issue result w).2)
      as (extra & Herr & Hshape & Hcount).
    assert (Hshape' : Forall (fun e => ∃ i err, i ∈ issue :: rest ∧ e = Run.issue_error repo i err)
                        extra).
    { eapply Forall_impl; [exact Hshape|].
      intros e (i & err & Hi & ->). exists i, err. split; [by right | done]. }
    destruct (syncOne_cases repo issue result w)
      as [(action & w' & _ & Hone) | (err & w' & _ & Hone)]; rewrite Hone in *; simpl in *.
    + exists extra. split; [|split; [exact Hshape'|]].
      * rewrite Herr. by destruct action.
      * rewrite Hcount. unfold Run.settled. destruct action; simpl; lia.
    + exists (Run.issue_error repo issue err :: extra). split; [|split].
      * rewrite Herr. simpl. by rewrite <- app_assoc.
      * constructor; [|exact Hshape']. exists issue, err. split; [by left | done].
      * rewrite Hcount. unfold Run.settled; simpl. rewrite length_app; simpl. lia.
Qed.

Lemma syncRepo_outcome fuel token repo result w :
  syncRepo fuel token repo result w
  = match Run.outcome fetch fuel token repo with
    | Run.BadFormat => Some (SyncIssues.push_error (Run.format_error repo) result, w)
    | Run.FetchFailed err => Some (SyncIssues.push_error (Run.fetch_error repo err) result, w)
    | Run.Fetched issues => Some (syncEach repo issues result w)
    | Run.Unfinished => None
    end.
Proof.
  unfold SyncIssues.syncRepo, Run.outcome.
  destruct (split "/" repo) as [|owner [|repoName more]]; simpl; try reflexivity.
  - by destruct (String.eqb owner "").
  - destruct (String.eqb owner ""); simpl; [reflexivity|].
    destruct (String.eqb repoName ""); simpl; [reflexivity|].
    by destruct (SyncIssues.fetchIssuesFromRepo fetch fuel owner repoName token) as [[]|].
Qed.

Lemma syncRepo_settles fuel token repo result w :
  Run.outcome fetch fuel token repo ≠ Run.Unfinished ->
  ∃ result' w' extra,
    syncRepo fuel token repo result w = Some (result', w')
    ∧ SyncIssues.errors result' = (SyncIssues.errors result ++ extra)%list
    ∧ Forall (Run.reports fetch fuel token repo) extra
    ∧ (∀ err, Run.outcome fetch fuel token repo = Run.FetchFailed err ->
              extra = [Run.fetch_error repo err] ∧ table w' = table w)
    ∧ settled result' = (settled result + Run.items (Run.outcome fetch fuel token repo))%nat.
Proof.
  intros Hends. rewrite syncRepo_outcome. unfold Run.reports.
  destruct (Run.outcome fetch fuel token repo) as [|err|issues|] eqn:Hout; [| | |done].
  - exists (SyncIssues.push_error (Run.format_error repo) result), w, [Run.format_error repo].
    split; [reflexivity|]. split; [reflexivity|]. split; [by repeat constructor|].
    split; [discriminate|].
    unfold Run.settled; simpl. rewrite length_app; simpl. lia.
  - exists (SyncIssues.push_error (Run.fetch_error repo err) result), w, [Run.fetch_error repo err].
    split; [reflexivity|]. split; [reflexivity|]. split; [by repeat constructor|].
    split; [by intros ? [= <-]|].
    unfold Run.settled; simpl. rewrite length_app; simpl. lia.
  - destruct (syncEach_settles repo issues result w) as (extra & Herr & Hshape & Hcount).
    destruct (syncEach repo issues result w) as [result' w'] eqn:Hrun. simpl in *.
    exists result', w', extra. repeat split; try done.
Qed.

Lemma fetchPages_S fuel owner repo token (page : nat) issues :
  SyncIssues.fetchPages fetch (S fuel) owner repo token page issues
  = match fetch (SyncIssues.page_url owner repo page) token with
    | GitHub.Rejected e => Some (Throw e)
    | GitHub.NotOk status statusText _ =>
        Some (Throw (JsError ("GitHub API error: " ++ pretty status ++ " " ++ statusText)))
    | GitHub.BadBody e => Some (Throw e)
    | GitHub.Ok data =>
        let issues' :=
          (issues ++ map GitHub.issue
                       (List.filter (fun item => negb (GitHub.pull_request item)) data))%list in
        if (length data <? SyncIssues.perPage)%nat then Some (Normal issues')
        else SyncIssues.fetchPages fetch fuel owner repo token (S page) issues'
    end.
Proof. reflexivity. Qed.

Lemma fetchPages_ends fuel owner repo token (page : nat) issues :
  (∃ k : nat, (page ≤ k < page + fuel)%nat ∧ Run.last_page fetch owner repo token k) ->
  SyncIssues.fetchPages fetch fuel owner repo token page issues ≠ None.
Proof.
  revert page issues. induction fuel as [|fuel IH]; intros page issues (k & Hk & Hlast).
  - lia.
  - rewrite fetchPages_S.
    destruct (fetch (SyncIssues.page_url owner repo page) token) as [| | |data] eqn:Hpage;
      try discriminate.
    simpl. destruct (Nat.ltb_spec (length data) SyncIssues.perPage) as [Hshort|Hfull]; [discriminate|].
    apply IH. exists k. split; [|exact Hlast].
    destruct (decide (k = page)) as [->|]; [|lia].
    unfold Run.last_page in Hlast. rewrite Hpage in Hlast. lia.
Qed.

(** A paging loop that has ended is not changed by more fuel. *)
Lemma fetchPages_more_fuel fuel owner repo token (page : nat) issues r :
  SyncIssues.fetchPages fetch fuel owner repo token page issues = Some r ->
  SyncIssues.fetchPages fetch (S fuel) owner repo token page issues = Some r.
Proof.
  revert page issues. induction fuel as [|fuel IH]; intros page issues; [discriminate|].
  rewrite (fetchPages_S (S fuel)), (fetchPages_S fuel).
  destruct (fetch (SyncIssues.page_url owner repo page) token) as [| | |data]; try done.
  simpl. destruct (length data <? SyncIssues.perPage)%nat; [done|]. apply IH.
Qed.

Lemma outcome_more_fuel fuel token repo :
  Run.outcome fetch fuel token repo ≠ Run.Unfinished ->
  Run.outcome fetch (S fuel) token repo = Run.outcome fetch fuel token repo.
Proof.
  unfold Run.outcome.
  destruct (split "/" repo) as [|owner [|repoName more]]; try done.
  destruct (String.eqb owner "" || String.eqb repoName ""); [done|].
  unfold SyncIssues.fetchIssuesFromRepo.
  destruct (SyncIssues.fetchPages fetch fuel owner repoName token 1 []) as [r|] eqn:Hrun;
    [|done].
  intros _. by rewrite (fetchPages_more_fuel _ _ _ _ _ _ _ Hrun).
Qed.

Lemma paging_ends_outcome fuel token repo :
  Run.paging_ends fetch fuel token repo -> Run.outcome fetch fuel token repo ≠ Run.Unfinished.
Proof.
  unfold Run.paging_ends, Run.outcome.
  destruct (split "/" repo) as [|owner [|repoName more]]; try discriminate.
  intros [-> | [-> | (page & Hpage & Hlast)]].
  - discriminate.
  - rewrite orb_true_r. discriminate.
  - destruct (String.eqb owner "" || String.eqb repoName ""); [discriminate|].
    assert (Hends : SyncIssues.fetchIssuesFromRepo fetch fuel owner repoName token ≠ None).
    { apply fetchPages_ends. exists page. split; [lia | exact Hlast]. }
    by destruct (SyncIssues.fetchIssuesFromRepo fetch fuel owner repoName token) as [[]|].
Qed.

Lemma syncRepo_more_fuel fuel token repo result w x :
  syncRepo fuel token repo result w = Some x ->
  syncRepo (S fuel) token repo result w = Some x.
Proof.
  rewrite !syncRepo_outcome. intros H.
  rewrite outcome_more_fuel; [exact H|].
  intros Hout. by rewrite Hout in H.
Qed.

Lemma syncRepos_cons fuel token repo rest result w :
  syncRepos fuel token (repo :: rest) result w
  = match syncRepo fuel token repo result w with
    | None => None
    | Some (result', w') => syncRepos fuel token rest result' w'
    end.
Proof. reflexivity. Qed.

Lemma syncRepos_settles fuel token repos result w :
  Forall (fun repo => Run.outcome fetch fuel token repo ≠ Run.Unfinished) repos ->
  ∃ result' w' extra,
    syncRepos fuel token repos result w = Some (result', w')
    ∧ SyncIssues.errors result' = (SyncIssues.errors result ++ extra)%list
    ∧ Forall (fun e => ∃ repo, repo ∈ repos ∧ Run.reports fetch fuel token repo e) extra
    ∧ (∀ repo err, repo ∈ repos ->
         Run.outcome fetch fuel token repo = Run.FetchFailed err ->
         Run.fetch_error repo err ∈ extra)
    ∧ settled result'
      = (settled result
         + sum_list (map (fun repo => Run.items (Run.outcome fetch fuel token repo)) repos))%nat.
Proof.
  intros Hends. revert result w.
  induction Hends as [|repo rest Hrepo _ IH]; intros result w.
  - exists result, w, []. simpl. rewrite app_nil_r.
    repeat split; [constructor | by intros ?? ?%elem_of_nil | lia].
  - destruct (syncRepo_settles fuel token repo result w Hrepo)
      as (r1 & w1 & extra1 & Hrun1 & Herr1 & Hshape1 & Hfail1 & Hcount1).
    destruct (IH r1 w1) as (r2 & w2 & extra2 & Hrun2 & Herr2 & Hshape2 & Hfail2 & Hcount2).
    exists r2, w2, (extra1 ++ extra2)%list.
    split; [by rewrite syncRepos_cons, Hrun1|].
    split; [by rewrite Herr2, Herr1, app_assoc|].
    split; [|split].
    + apply Forall_app. split.
      * eapply Forall_impl; [exact Hshape1|]. intros e He. exists repo. split; [by left|done].
      * eapply Forall_impl; [exact Hshape2|]. intros e (repo' & Hin & He).
        exists repo'. split; [by right|done].
    + intros repo' err [->|Hin]%elem_of_cons Hout; apply elem_of_app.
      * left. destruct (Hfail1 err Hout) as [-> _]. by left.
      * right. by eapply Hfail2.
    + rewrite Hcount2, Hcount1. simpl. lia.
Qed.

Lemma syncRepos_more_fuel fuel token repos result w x :
  syncRepos fuel token repos result w = Some x ->
  syncRepos (S fuel) token repos result w = Some x.
Proof.
  revert result w. induction repos as [|repo rest IH]; intros result w; [done|].
  rewrite !syncRepos_cons.
  destruct (syncRepo fuel token repo result w) as [[result' w']|] eqn:Hrepo; [|done].
  rewrite (syncRepo_more_fuel _ _ _ _ _ _ Hrepo). apply IH.
Qed.

(** With no storage fault ahead, reconciling one issue goes through. *)
Lemma syncIssue_calm issue repo w :
  calm 2 w ->
  ∃ action w', syncIssue issue repo w = (Normal action, w')
               ∧ faults w' = tail (tail (faults w)).
Proof.
  intros Hcalm.
  destruct (Prisma.lookup_key (GitHub.number issue) repo (table w)) as [[id r]|] eqn:Hkey.
  - rewrite (syncIssue_existing new_Date issue repo w id r Hcalm Hkey). by eexists _, _.
  - rewrite (syncIssue_absent new_Date issue repo w Hcalm Hkey). by eexists _, _.
Qed.

Lemma calm_after_two n w w' :
  calm (2 + n) w -> faults w' = tail (tail (faults w)) -> calm n w'.
Proof.
  unfold calm. intros H ->. destruct (faults w) as [|a [|b fs]]; simpl in *.
  - by rewrite take_nil.
  - by rewrite take_nil.
  - by apply Forall_cons in H as [_ [_ H]%Forall_cons].
Qed.

Lemma syncEach_calm repo issues result w :
  calm (2 * length issues) w ->
  SyncIssues.errors (syncEach repo issues result w).1 = SyncIssues.errors result
  ∧ (SyncIssues.created (syncEach repo issues result w).1
     + SyncIssues.updated (syncEach repo issues result w).1
     = SyncIssues.created result + SyncIssues.updated result + length issues)%nat.
Proof.
  revert result w. induction issues as [|issue rest IH]; intros result w Hcalm.
  - simpl. split; [reflexivity | lia].
  - rewrite syncEach_cons.
    destruct (syncIssue_calm issue repo w) as (action & w' & Hrun & Hfaults).
    { eapply calm_weaken; [|exact Hcalm]. simpl. lia. }
    unfold SyncIssues.syncOne at 1 2 3 4 5 6. rewrite Hrun. simpl.
    destruct (IH (SyncIssues.tally action result) w') as [Herr Hcount].
    { eapply calm_after_two; [|exact Hfaults].
      replace (2 + 2 * length rest)%nat with (2 * length (issue :: rest))%nat by (simpl; lia).
      exact Hcalm. }
    rewrite Herr, Hcount. destruct action; simpl; split; try done; lia.
Qed.

End SyncRun.

(** C6.  A sync run survives partial failures.  [syncIssuesFromGitHub]
    throws when the token or the repository list is unset (or empty), and
    never otherwise.  When it returns, every configured repository and
    every fetched issue is accounted for in [created], [updated] or
    [errors]: a repository whose fetch fails leaves one error naming it
    and the run goes on with the next one; an issue that cannot be
    persisted leaves one error with its number and repository and the
    rest of the list is still processed. *)
Theorem sync_run_survives_partial_failures
    (fetch : string -> string -> GitHub.Response) (new_Date : string -> Z)
    (fuel : nat) (env : Env) (w : World) :
  let run := SyncIssues.syncIssuesFromGitHub fetch new_Date fuel env w in
  let token := default "" (GH_TOKEN env) in
  let repos := map trim (split "," (default "" (GH_REPOS env))) in
  let outcome := Run.outcome fetch fuel token in
  (* fails fast on missing configuration, before anything is touched *)
  (truthy (GH_TOKEN env) = false ->
   run = Some (Throw (JsError "GH_TOKEN environment variable is not set"), w))
  ∧ (truthy (GH_TOKEN env) = true -> truthy (GH_REPOS env) = false ->
     run = Some (Throw (JsError "GH_REPOS environment variable is not set"), w))
  ∧ (truthy (GH_TOKEN env) = true -> truthy (GH_REPOS env) = true ->
     (* never throws otherwise *)
     (∀ e w', run ≠ Some (Throw e, w'))
     (* a run that has ended is not changed by more fuel *)
     ∧ (∀ x, run = Some x ->
             SyncIssues.syncIssuesFromGitHub fetch new_Date (S fuel) env w = Some x)
     (* and, when the remote lets every paging loop end, the run returns
        with every repository and every fetched issue accounted for *)
     ∧ (Forall (Run.paging_ends fetch fuel token) repos ->
        ∃ result w',
          run = Some (Normal result, w')
          ∧ (∀ repo err, repo ∈ repos -> outcome repo = Run.FetchFailed err ->
               ("Error fetching issues from " ++ repo ++ ": " ++ message_of err)
               ∈ SyncIssues.errors result)
          ∧ Forall (fun e => ∃ repo, repo ∈ repos ∧ Run.reports fetch fuel token repo e)
                   (SyncIssues.errors result)
          ∧ (SyncIssues.created result + SyncIssues.updated result
             + length (SyncIssues.errors result)
             = sum_list (map (fun repo => Run.items (outcome repo)) repos))%nat)
     (* repository A cannot be fetched, repository B can *)
     ∧ (∀ A B errA issuesB,
          repos = [A; B] ->
          outcome A = Run.FetchFailed errA -> outcome B = Run.Fetched issuesB ->
          calm (2 * length issuesB) w ->
          ∃ result w',
            run = Some (Normal result, w')
            ∧ SyncIssues.errors result
              = ["Error fetching issues from " ++ A ++ ": " ++ message_of errA]
            ∧ (SyncIssues.created result + SyncIssues.updated result = length issuesB)%nat))
  (* an issue that cannot be persisted is reported and the rest of the
     list is still processed *)
  ∧ (∀ repo before issue after result err w2,
       let r1 := (SyncIssues.syncEach new_Date repo before result w).1 in
       let w1 := (SyncIssues.syncEach new_Date repo before result w).2 in
       let final := SyncIssues.syncEach new_Date repo (before ++ issue :: after) result w in
       let msg := "Error syncing issue #" ++ pretty (GitHub.number issue) ++ " from "
                  ++ repo ++ ": " ++ message_of err in
       SyncIssues.syncIssue new_Date issue repo w1 = (Throw err, w2) ->
       final = SyncIssues.syncEach new_Date repo after (SyncIssues.push_error msg r1) w2
       ∧ msg ∈ SyncIssues.errors final.1
       ∧ Run.settled final.1 = (Run.settled result + length (before ++ issue :: after))%nat).
Proof.
  intros run token repos outcome.
  split; [|split; [|split]].
  - intros Htoken. unfold run, SyncIssues.syncIssuesFromGitHub. by rewrite Htoken.
  - intros Htoken Hrepos. unfold run, SyncIssues.syncIssuesFromGitHub.
    by rewrite Htoken, Hrepos.
  - intros Htoken Hrepos.
    assert (Hrun : run = match SyncIssues.syncRepos fetch new_Date fuel token repos
                                 (SyncIssues.mkSyncResult 0 0 []) w with
                         | None => None
                         | Some (result, w') => Some (Normal result, w')
                         end).
    { unfold run, SyncIssues.syncIssuesFromGitHub. by rewrite Htoken, Hrepos. }
    split; [|split; [|split]].
    + intros e w'. rewrite Hrun.
      by destruct (SyncIssues.syncRepos _ _ _ _ _ _ _) as [[]|].
    + intros x. rewrite Hrun.
      unfold SyncIssues.syncIssuesFromGitHub. rewrite Htoken, Hrepos. simpl.
      fold token. fold repos.
      destruct (SyncIssues.syncRepos fetch new_Date fuel token repos _ w)
        as [[result w']|] eqn:Hsync; [|discriminate].
      by rewrite (syncRepos_more_fuel fetch new_Date _ _ _ _ _ _ Hsync).
    + intros Hremote.
      assert (Hends : Forall (fun repo => Run.outcome fetch fuel token repo ≠ Run.Unfinished)
                        repos).
      { eapply Forall_impl; [exact Hremote|]. intros repo. apply paging_ends_outcome. }
      destruct (syncRepos_settles fetch new_Date fuel token repos
                  (SyncIssues.mkSyncResult 0 0 []) w Hends)
        as (result & w' & extra & Hsync & Herr & Hshape & Hfail & Hcount).
      simpl in Herr. subst extra.
      exists result, w'. rewrite Hrun, Hsync.
      split; [reflexivity|]. split; [exact Hfail|]. split; [exact Hshape|].
      exact Hcount.
    + intros A B errA issuesB HAB HA HB Hcalm. rewrite Hrun, HAB.
      rewrite syncRepos_cons, syncRepo_outcome. fold outcome. rewrite HA.
      rewrite syncRepos_cons, syncRepo_outcome. fold outcome. rewrite HB.
      destruct (syncEach_calm new_Date B issuesB
                  (SyncIssues.push_error (Run.fetch_error A errA) (SyncIssues.mkSyncResult 0 0 []))
                  w Hcalm) as [Herr Hcount].
      destruct (SyncIssues.syncEach new_Date B issuesB _ w) as [result w'].
      simpl in *. exists result, w'. by repeat split.
  - intros repo before issue after result err w2 r1 w1 final msg Hthrow.
    assert (Hfinal : final = SyncIssues.syncEach new_Date repo after
                               (SyncIssues.push_error msg r1) w2).
    { unfold final. rewrite syncEach_app, syncEach_cons. fold r1 w1.
      unfold SyncIssues.syncOne at 1 2. by rewrite Hthrow. }
    split; [exact Hfinal|]. split.
    + rewrite Hfinal.
      destruct (syncEach_settles new_Date repo after (SyncIssues.push_error msg r1) w2)
        as (extra & -> & _). simpl.
      apply elem_of_app. left. apply elem_of_app. right. by left.
    + destruct (syncEach_settles new_Date repo (before ++ issue :: after) result w)
        as (_ & _ & _ & Hcount). exact Hcount.
Qed.

Lemma sync_run_survives_partial_failures_witness :
  truthy (GH_TOKEN Sample.env) = true
  ∧ truthy (GH_REPOS Sample.env) = true
  ∧ ∃ result w',
      SyncIssues.syncIssuesFromGitHub Sample.network Sample.instant 3 Sample.env
        Sample.flaky_store
      = Some (Normal result, w')
      ∧ "Error fetching issues from acme/api: GitHub API error: 503 Service Unavailable"
        ∈ SyncIssues.errors result
      ∧ (SyncIssues.created result + SyncIssues.updated result
         + length (SyncIssues.errors result) = 3)%nat.
Proof.
  split; [reflexivity|]. split; [reflexivity|].
  destruct (sync_run_survives_partial_failures Sample.network Sample.instant 3 Sample.env
              Sample.flaky_store) as (_ & _ & Hpresent & _).
  destruct (Hpresent eq_refl eq_refl) as (_ & _ & Hrun & _).
  destruct Hrun as (result & w' & Hrun & Hfail & _ & Hcount).
  { change (Forall (Run.paging_ends Sample.network 3 "ghp_example") ["acme/api"; "acme/shop"]).
    assert (Hends : ∀ repo, repo = "acme/api" ∨ repo = "acme/shop" ->
                      Run.paging_ends Sample.network 3 "ghp_example" repo).
    { intros repo [-> | ->]; right; right; exists 1%nat; (split; [lia | vm_compute; first [exact I | lia]]). }
    constructor; [apply Hends; by left|].
    constructor; [apply Hends; by right|]. constructor. }
  exists result, w'. split; [exact Hrun|]. split; [|exact Hcount].
  apply (Hfail "acme/api" (JsError "GitHub API error: 503 Service Unavailable")).
  - by left.
  - reflexivity.
Defined.


(** ** Worked instances *)

Example parseInt_samples :
  parseInt "2" = Int 2 ∧ parseInt "20" = Int 20 ∧ parseInt " 42px" = Int 42
  ∧ parseInt "0x1F" = Int 31 ∧ parseInt "-7" = Int (-7) ∧ parseInt "-0" = NegZero
  ∧ parseInt "abc" = NaN ∧ parseInt "" = NaN ∧ parseInt "1e3" = Int 1.
Proof. repeat split; reflexivity. Qed.

Example split_trim_samples :
  map trim (split "," "acme/api, acme/shop") = ["acme/api"; "acme/shop"]
  ∧ split "/" "acme/shop" = ["acme"; "shop"]
  ∧ split "/" "acme" = ["acme"]
  ∧ split "," "" = [""].
Proof. repeat split; reflexivity. Qed.

Example extractRepoFromUrl_samples :
  extractRepoFromUrl "https://api.github.com/repos/acme/shop" = "acme/shop"
  ∧ extractRepoFromUrl "https://example.org/none" = "https://example.org/none".
Proof. split; reflexivity. Qed.

Example encodeURIComponent_sample :
  encodeURIComponent "assignee:octocat is:issue is:open"
  = "assignee%3Aoctocat%20is%3Aissue%20is%3Aopen".
Proof. reflexivity. Qed.

(** The run behind the instance of the partial-failure theorem: the
    repository that is down and the issue whose insert fails are both
    reported, the other issue is created. *)
Example flaky_run :
  SyncIssues.syncIssuesFromGitHub Sample.network Sample.instant 3 Sample.env Sample.flaky_store
  = Some (Normal {| SyncIssues.created := 1;
                    SyncIssues.updated := 0;
                    SyncIssues.errors :=
                      [ "Error fetching issues from acme/api: GitHub API error: 503 Service Unavailable";
                        "Error syncing issue #9 from acme/shop: Connection lost" ] |},
          mkWorld {[ "0" := Expected.inserted Sample.instant
                              (Sample.remote 7 GitHub.state_open "1700000009000") "acme/shop" ]}
                  []).
Proof. vm_compute. reflexivity. Qed.

(** A run against a store that already holds issue 7: repository
    [acme/api] cannot be fetched, [acme/shop] can; the one error names
    the former and the counts are those of the two issues of the latter. *)
Example steady_run :
  SyncIssues.syncIssuesFromGitHub Sample.network Sample.instant 3 Sample.env
    (Sample.store open in_process)
  = Some (Normal {| SyncIssues.created := 1;
                    SyncIssues.updated := 1;
                    SyncIssues.errors :=
                      [ "Error fetching issues from acme/api: GitHub API error: 503 Service Unavailable" ] |},
          mkWorld (<[ "0" := Expected.inserted Sample.instant
                               (Sample.remote 9 GitHub.state_closed "1700000009200") "acme/shop" ]>
                     {[ "c7" := Expected.refreshed Sample.instant
                                  (Sample.remote 7 GitHub.state_open "1700000009000")
                                  in_process (Sample.local 7 open in_process) ]})
                  []).
Proof. vm_compute. reflexivity. Qed.

(** Without a limit the route lists the first twenty of the 45 rows; with
    [limit=0] it lists none and reports an infinite page count. *)
Example listing_samples :
  (∃ issues w', IssuesRoute.GET Sample.strict [] (Sample.crowd 45)
                = (IssuesRoute.Listing issues
                     {| IssuesRoute.page := Int 1; IssuesRoute.limit := Int 20;
                        IssuesRoute.total := 45; IssuesRoute.totalPages := Int 3 |}, w')
                ∧ length issues = 20%nat)
  ∧ (IssuesRoute.GET Sample.strict [("limit", "0")] (Sample.crowd 45)).1
    = IssuesRoute.Listing []
        {| IssuesRoute.page := Int 1; IssuesRoute.limit := Int 0;
           IssuesRoute.total := 45; IssuesRoute.totalPages := Inf false |}.
Proof.
  split.
  - eexists _, _. split; vm_compute; reflexivity.
  - vm_compute. reflexivity.
Qed.

(** ** Invariants of a sync run *)

Section Invariants.

Variable fetch : string -> string -> GitHub.Response.
Variable new_Date : string -> Z.

Lemma prisma_call_cases {A} (op : gmap string Issue -> Completion A * gmap string Issue) w :
  (∃ e, prisma_call op w = (Throw e, mkWorld (table w) (tail (faults w))))
  ∨ prisma_call op w = ((op (table w)).1, mkWorld (op (table w)).2 (tail (faults w))).
Proof.
  unfold prisma_call. destruct (head (faults w)) as [[e|]|]; [left; eauto | right | right];
    by destruct (op (table w)).
Qed.

(** What one reconciliation can do to the table, whatever fails. *)
Lemma syncIssue_effect issue repo w :
  let t' := table (SyncIssues.syncIssue new_Date issue repo w).2 in
  t' = table w
  ∨ (Prisma.lookup_key (GitHub.number issue) repo (table w) = None
     ∧ t' = <[fresh (dom (table w)) := Expected.inserted new_Date issue repo]> (table w))
  ∨ (∃ id r, Prisma.lookup_key (GitHub.number issue) repo (table w) = Some (id, r)
             ∧ t' = <[id := Expected.refreshed new_Date issue (Expected.merged issue r) r]> (table w)).
Proof.
  unfold SyncIssues.syncIssue, bind, Prisma.findUnique_githubNumber_repository.
  destruct (prisma_call_cases
              (fun t => (Normal (Prisma.lookup_key (GitHub.number issue) repo t), t)) w)
    as [(e & ->) | ->]; simpl; [by left|].
  destruct (Prisma.lookup_key (GitHub.number issue) repo (table w)) as [[id r]|] eqn:Hkey.
  - unfold Prisma.update.
    match goal with |- context [prisma_call ?op ?w1] =>
      destruct (prisma_call_cases op w1) as [(e & ->) | ->] end; simpl; [by left|].
    destruct (lookup_key_Some _ _ _ _ _ Hkey) as (-> & _). simpl.
    right. right. by exists id, r.
  - unfold Prisma.create.
    match goal with |- context [prisma_call ?op ?w1] =>
      destruct (prisma_call_cases op w1) as [(e & ->) | ->] end; simpl; [by left|].
    rewrite Hkey. simpl. right. by left.
Qed.

Lemma syncIssue_unique_keys issue repo w :
  Run.unique_keys (table w) ->
  Run.unique_keys (table (SyncIssues.syncIssue new_Date issue repo w).2).
Proof.
  intros Huniq.
  destruct (syncIssue_effect issue repo w) as [-> | [(Hnone & ->) | (id & r & Hkey & ->)]];
    [done | |].
  - intros i j r s Hi Hj Hn Hr.
    pose proof (fresh_id_unused (table w)) as Hfresh.
    destruct (decide (fresh (dom (table w)) = i)) as [<-|Hi'];
      destruct (decide (fresh (dom (table w)) = j)) as [<-|Hj']; [done | | |].
    + rewrite lookup_insert_eq in Hi. rewrite lookup_insert_ne in Hj by done.
      injection Hi as <-. simpl in *.
      by destruct (lookup_key_None _ _ _ _ _ Hnone Hj).
    + rewrite lookup_insert_eq in Hj. rewrite lookup_insert_ne in Hi by done.
      injection Hj as <-. simpl in *.
      by destruct (lookup_key_None _ _ _ _ _ Hnone Hi).
    + rewrite lookup_insert_ne in Hi, Hj by done. by eapply Huniq.
  - destruct (lookup_key_Some _ _ _ _ _ Hkey) as (Hid & _ & _).
    intros i j a b Hi Hj Hn Hr.
    destruct (decide (id = i)) as [<-|Hi']; destruct (decide (id = j)) as [<-|Hj']; [done | | |].
    + rewrite lookup_insert_eq in Hi. rewrite lookup_insert_ne in Hj by done.
      injection Hi as <-. simpl in *. by eapply Huniq.
    + rewrite lookup_insert_eq in Hj. rewrite lookup_insert_ne in Hi by done.
      injection Hj as <-. simpl in *. by eapply Huniq.
    + rewrite lookup_insert_ne in Hi, Hj by done. by eapply Huniq.
Qed.

Lemma keeps_local_columns_refl t : Run.keeps_local_columns t t.
Proof. intros id r Hid. by exists r. Qed.

Lemma keeps_local_columns_trans t1 t2 t3 :
  Run.keeps_local_columns t1 t2 -> Run.keeps_local_columns t2 t3 -> Run.keeps_local_columns t1 t3.
Proof.
  intros H12 H23 id r Hid.
  destruct (H12 id r Hid) as (r2 & Hid2 & E1 & E2 & E3 & E4 & E5).
  destruct (H23 id r2 Hid2) as (r3 & Hid3 & F1 & F2 & F3 & F4 & F5).
  exists r3. repeat split; congruence.
Qed.

Lemma syncIssue_keeps_local_columns issue repo w :
  Run.keeps_local_columns (table w) (table (SyncIssues.syncIssue new_Date issue repo w).2).
Proof.
  destruct (syncIssue_effect issue repo w) as [-> | [(Hnone & ->) | (id & r & Hkey & ->)]].
  - apply keeps_local_columns_refl.
  - intros id r Hid. exists r. split; [|done].
    rewrite lookup_insert_ne; [done|]. intros <-.
    by rewrite fresh_id_unused in Hid.
  - destruct (lookup_key_Some _ _ _ _ _ Hkey) as (Hid & _ & _).
    intros id' r' Hid'. destruct (decide (id = id')) as [<-|Hne].
    + rewrite Hid in Hid'. injection Hid' as <-.
      eexists. split; [apply lookup_insert_eq|]. done.
    + exists r'. by rewrite lookup_insert_ne.
Qed.

Lemma run_invariant_refl t : Run.run_invariant t t.
Proof. split; [done | apply keeps_local_columns_refl]. Qed.

Lemma run_invariant_trans t1 t2 t3 :
  Run.run_invariant t1 t2 -> Run.run_invariant t2 t3 -> Run.run_invariant t1 t3.
Proof.
  intros [U12 K12] [U23 K23]. split; [auto | by eapply keeps_local_columns_trans].
Qed.

Lemma syncOne_invariant repo issue result w :
  Run.run_invariant (table w) (table (SyncIssues.syncOne new_Date repo issue result w).2).
Proof.
  assert (Heq : table (SyncIssues.syncOne new_Date repo issue result w).2
                = table (SyncIssues.syncIssue new_Date issue repo w).2).
  { unfold SyncIssues.syncOne. by destruct (SyncIssues.syncIssue new_Date issue repo w) as [[] ?]. }
  rewrite Heq. split; [apply syncIssue_unique_keys | apply syncIssue_keeps_local_columns].
Qed.

Lemma syncEach_invariant repo issues result w :
  Run.run_invariant (table w) (table (SyncIssues.syncEach new_Date repo issues result w).2).
Proof.
  revert result w. induction issues as [|issue rest IH]; intros result w.
  - apply run_invariant_refl.
  - rewrite syncEach_cons. eapply run_invariant_trans; [apply syncOne_invariant | apply IH].
Qed.

Lemma syncRepos_invariant fuel token repos result w result' w' :
  SyncIssues.syncRepos fetch new_Date fuel token repos result w = Some (result', w') ->
  Run.run_invariant (table w) (table w').
Proof.
  revert result w. induction repos as [|repo rest IH]; intros result w.
  - intros [= _ <-]. apply run_invariant_refl.
  - rewrite syncRepos_cons, syncRepo_outcome.
    destruct (Run.outcome fetch fuel token repo) as [|err|issues|]; try discriminate.
    + apply IH.
    + apply IH.
    + pose proof (syncEach_invariant repo issues result w) as Hstep.
      destruct (SyncIssues.syncEach new_Date repo issues result w) as [r1 w1].
      intros Hrest. eapply run_invariant_trans; [exact Hstep | by eapply IH].
Qed.

End Invariants.


(** Sync never touches what it does not own: along a whole run every
    row stays under its id and keeps its key, its [createdAtGithub], its
    [selectedContext] and its [prompt], whatever fails on the way. *)
Theorem sync_run_keeps_local_columns
    (fetch : string -> string -> GitHub.Response) (new_Date : string -> Z)
    fuel env w outcome w' id r :
  SyncIssues.syncIssuesFromGitHub fetch new_Date fuel env w = Some (outcome, w') ->
  table w !! id = Some r ->
  ∃ r', table w' !! id = Some r'
        ∧ githubNumber r' = githubNumber r ∧ repository r' = repository r
        ∧ createdAtGithub r' = createdAtGithub r
        ∧ selectedContext r' = selectedContext r ∧ prompt r' = prompt r.
Proof.
  unfold SyncIssues.syncIssuesFromGitHub.
  destruct (negb (truthy (GH_TOKEN env))); [intros [= _ <-] Hid; by exists r|].
  destruct (negb (truthy (GH_REPOS env))); [intros [= _ <-] Hid; by exists r|].
  destruct (SyncIssues.syncRepos _ _ _ _ _ _ _) as [[result w1]|] eqn:Hrun; [|discriminate].
  intros [= _ <-]. by apply (syncRepos_invariant _ _ _ _ _ _ _ _ _ Hrun).
Qed.

Lemma sync_run_keeps_local_columns_witness :
  table (Sample.store open in_process) !! "c7" = Some (Sample.local 7 open in_process)
  ∧ ∃ r', (<[ "0" := Expected.inserted Sample.instant
                       (Sample.remote 9 GitHub.state_closed "1700000009200") "acme/shop" ]>
             {[ "c7" := Expected.refreshed Sample.instant
                          (Sample.remote 7 GitHub.state_open "1700000009000")
                          in_process (Sample.local 7 open in_process) ]}
           : gmap string Issue) !! "c7" = Some r'
          ∧ githubNumber r' = 7%Z ∧ repository r' = "acme/shop"
          ∧ createdAtGithub r' = 1700000000000%Z
          ∧ selectedContext r' = Some "checkout_api"
          ∧ prompt r' = Some "look at the retry path".
Proof.
  split; [reflexivity|].
  exact (sync_run_keeps_local_columns Sample.network Sample.instant 3 Sample.env
           (Sample.store open in_process) _ _ "c7" (Sample.local 7 open in_process)
           steady_run eq_refl).
Defined.

(** ** The fetcher *)


Section Fetcher.

Variable fetch : string -> string -> GitHub.Response.

Lemma fetchPages_only_issues fuel owner repo token (page : nat) acc issues :
  SyncIssues.fetchPages fetch fuel owner repo token page acc = Some (Normal issues) ->
  ∀ issue, issue ∈ issues -> issue ∈ acc ∨ Run.from_issue_item fetch owner repo token issue.
Proof.
  revert page acc. induction fuel as [|fuel IH]; intros page acc; [discriminate|].
  rewrite fetchPages_S.
  destruct (fetch (SyncIssues.page_url owner repo page) token) as [| | |data] eqn:Hpage;
    try discriminate.
  simpl.
  assert (Hnew : ∀ issue,
            issue ∈ (acc ++ map GitHub.issue
                              (List.filter (fun item => negb (GitHub.pull_request item)) data))%list ->
            issue ∈ acc ∨ Run.from_issue_item fetch owner repo token issue).
  { intros issue [Hacc | Hin]%elem_of_app; [by left|]. right.
    apply list_elem_of_fmap in Hin as (item & -> & Hitem).
    apply list_elem_of_In, filter_In in Hitem as [Hitem Hpr].
    exists page, data, item. repeat split; try done.
    - by apply list_elem_of_In.
    - by apply negb_true_iff. }
  destruct (length data <? SyncIssues.perPage)%nat.
  - intros [= <-]. exact Hnew.
  - intros Hrest issue Hin. destruct (IH _ _ Hrest issue Hin) as [Hacc | Hfrom]; [|by right].
    by apply Hnew.
Qed.

End Fetcher.

(** [fetchIssuesFromRepo] leaves pull requests out: every issue it
    returns is an item of some page without the pull-request marker, and
    for a remote whose first page is short the result is exactly that
    page without its pull requests. *)
Theorem fetchIssuesFromRepo_drops_pull_requests
    (fetch : string -> string -> GitHub.Response) fuel owner repo token issues :
  SyncIssues.fetchIssuesFromRepo fetch fuel owner repo token = Some (Normal issues) ->
  (∀ issue, issue ∈ issues ->
     ∃ (page : nat) data item,
       fetch (SyncIssues.page_url owner repo page) token = GitHub.Ok data
       ∧ item ∈ data ∧ GitHub.pull_request item = false ∧ GitHub.issue item = issue)
  ∧ (∀ data, fetch (SyncIssues.page_url owner repo 1) token = GitHub.Ok data ->
       (length data < 100)%nat ->
       issues = map GitHub.issue
                    (List.filter (fun item => negb (GitHub.pull_request item)) data)).
Proof.
  unfold SyncIssues.fetchIssuesFromRepo. intros Hrun. split.
  - intros issue Hin.
    destruct (fetchPages_only_issues fetch _ _ _ _ _ _ _ Hrun issue Hin) as [Hnil | Hfrom];
      [by apply elem_of_nil in Hnil | exact Hfrom].
  - intros data Hpage Hshort. destruct fuel as [|fuel]; [discriminate|].
    rewrite fetchPages_S, Hpage in Hrun. simpl in Hrun.
    destruct (Nat.ltb_spec (length data) SyncIssues.perPage) as [_|Hfull];
      [by injection Hrun as <- | unfold SyncIssues.perPage in Hfull; lia].
Qed.

Lemma fetchIssuesFromRepo_drops_pull_requests_witness :
  SyncIssues.fetchIssuesFromRepo Sample.network 3 "acme" "shop" "ghp_example"
  = Some (Normal [Sample.remote 7 GitHub.state_open "1700000009000";
                  Sample.remote 9 GitHub.state_closed "1700000009200"])
  ∧ ∀ issue,
      issue ∈ [Sample.remote 7 GitHub.state_open "1700000009000";
               Sample.remote 9 GitHub.state_closed "1700000009200"] ->
      ∃ (page : nat) data item,
        Sample.network (SyncIssues.page_url "acme" "shop" page) "ghp_example" = GitHub.Ok data
        ∧ item ∈ data ∧ GitHub.pull_request item = false ∧ GitHub.issue item = issue.
Proof.
  assert (Hrun : SyncIssues.fetchIssuesFromRepo Sample.network 3 "acme" "shop" "ghp_example"
                 = Some (Normal [Sample.remote 7 GitHub.state_open "1700000009000";
                                 Sample.remote 9 GitHub.state_closed "1700000009200"]))
    by (vm_compute; reflexivity).
  split; [exact Hrun|].
  exact (proj1 (fetchIssuesFromRepo_drops_pull_requests Sample.network 3 "acme" "shop"
                  "ghp_example" _ Hrun)).
Defined.

(** [fetchIssuesFromRepo] returns as soon as some page within the fuel
    fails or is short, and more fuel does not change what it returns. *)
Theorem fetchIssuesFromRepo_returns
    (fetch : string -> string -> GitHub.Response) fuel owner repo token (page : nat) :
  (1 ≤ page ≤ fuel)%nat ->
  Run.last_page fetch owner repo token page ->
  ∃ r, SyncIssues.fetchIssuesFromRepo fetch fuel owner repo token = Some r
       ∧ ∀ more : nat, SyncIssues.fetchIssuesFromRepo fetch (more + fuel) owner repo token = Some r.
Proof.
  intros Hpage Hlast. unfold SyncIssues.fetchIssuesFromRepo.
  destruct (SyncIssues.fetchPages fetch fuel owner repo token 1 []) as [r|] eqn:Hrun.
  - exists r. split; [reflexivity|]. intros more. induction more as [|more IH]; [exact Hrun|].
    change (S more + fuel)%nat with (S (more + fuel)). by apply fetchPages_more_fuel.
  - exfalso. eapply fetchPages_ends; [|exact Hrun].
    exists page. split; [lia | exact Hlast].
Qed.

Lemma fetchIssuesFromRepo_returns_witness :
  Run.last_page Sample.network "acme" "shop" "ghp_example" 1
  ∧ ∃ r, SyncIssues.fetchIssuesFromRepo Sample.network 3 "acme" "shop" "ghp_example" = Some r
         ∧ ∀ more : nat,
             SyncIssues.fetchIssuesFromRepo Sample.network (more + 3) "acme" "shop" "ghp_example"
             = Some r.
Proof.
  assert (Hlast : Run.last_page Sample.network "acme" "shop" "ghp_example" 1)
    by (vm_compute; lia).
  split; [exact Hlast|].
  exact (fetchIssuesFromRepo_returns Sample.network 3 "acme" "shop" "ghp_example" 1
           ltac:(lia) Hlast).
Defined.

(** ** The two sync paths agree *)

Section Agreement.

Variable new_Date : string -> Z.

(** What the loop body of the user path does, whatever fails. *)
Lemma syncOne_effect issue repo w :
  let run := FetchUserIssues.syncOne new_Date issue repo w in
  (∃ e, run.1 = Throw e ∧ table run.2 = table w)
  ∨ (Prisma.lookup_key (GitHub.number issue) repo (table w) = None
     ∧ run.1 = Normal (SyncIssues.action_created,
                       (fresh (dom (table w)), Expected.inserted new_Date issue repo))
     ∧ table run.2 = <[fresh (dom (table w)) := Expected.inserted new_Date issue repo]> (table w))
  ∨ (∃ id r, Prisma.lookup_key (GitHub.number issue) repo (table w) = Some (id, r)
             ∧ run.1 = Normal (SyncIssues.action_updated,
                               (id, Expected.refreshed new_Date issue (Expected.merged issue r) r))
             ∧ table run.2
               = <[id := Expected.refreshed new_Date issue (Expected.merged issue r) r]> (table w)).
Proof.
  unfold FetchUserIssues.syncOne, bind, Prisma.findUnique_githubNumber_repository.
  destruct (prisma_call_cases
              (fun t => (Normal (Prisma.lookup_key (GitHub.number issue) repo t), t)) w)
    as [(e & ->) | ->]; simpl; [left; eauto|].
  destruct (Prisma.lookup_key (GitHub.number issue) repo (table w)) as [[id r]|] eqn:Hkey.
  - unfold Prisma.update.
    match goal with |- context [prisma_call ?op ?w1] =>
      destruct (prisma_call_cases op w1) as [(e & ->) | ->] end; simpl; [left; eauto|].
    destruct (lookup_key_Some _ _ _ _ _ Hkey) as (-> & _). simpl.
    right. right. by exists id, r.
  - unfold Prisma.create.
    match goal with |- context [prisma_call ?op ?w1] =>
      destruct (prisma_call_cases op w1) as [(e & ->) | ->] end; simpl; [left; eauto|].
    rewrite Hkey. simpl. right. by left.
Qed.

Lemma sync_paths_same_run issue repo w :
  SyncIssues.syncIssue new_Date issue repo w
  = (Lifecycle.action_of (FetchUserIssues.syncOne new_Date issue repo w).1,
     (FetchUserIssues.syncOne new_Date issue repo w).2).
Proof.
  unfold SyncIssues.syncIssue, FetchUserIssues.syncOne, bind,
    Prisma.findUnique_githubNumber_repository.
  destruct (prisma_call_cases
              (fun t => (Normal (Prisma.lookup_key (GitHub.number issue) repo t), t)) w)
    as [(e & ->) | ->]; simpl; [done|].
  destruct (Prisma.lookup_key (GitHub.number issue) repo (table w)) as [[id r]|] eqn:Hkey.
  - unfold Prisma.update.
    match goal with |- context [prisma_call ?op ?w1] =>
      destruct (prisma_call_cases op w1) as [(e & ->) | ->] end; simpl; [done|].
    by destruct (table w !! id).
  - unfold Prisma.create.
    match goal with |- context [prisma_call ?op ?w1] =>
      destruct (prisma_call_cases op w1) as [(e & ->) | ->] end; simpl; [done|].
    by rewrite Hkey.
Qed.

Lemma syncOne_record issue repo w action id r :
  (FetchUserIssues.syncOne new_Date issue repo w).1 = Normal (action, (id, r)) ->
  githubNumber r = GitHub.number issue ∧ repository r = repo.
Proof.
  destruct (syncOne_effect issue repo w)
    as [(e & H1 & _) | [(_ & H1 & _) | (id' & r' & Hkey & H1 & _)]]; rewrite H1.
  - discriminate.
  - by intros [= _ _ <-].
  - intros [= _ _ <-]. destruct (lookup_key_Some _ _ _ _ _ Hkey) as (_ & Hn & Hr). done.
Qed.

End Agreement.

(** The loop body of the user path is the reconciliation of the
    repository path: on every store, and whatever call fails, both leave
    the same store and take the same branch or throw the same error; the
    record that the user path returns is the row then stored under its
    id, with the number of the issue and the repository. *)
Theorem user_path_agrees_with_repo_path (new_Date : string -> Z) issue repo w :
  let repo_path := SyncIssues.syncIssue new_Date issue repo w in
  let user_path := FetchUserIssues.syncOne new_Date issue repo w in
  repo_path.2 = user_path.2
  ∧ match user_path.1 with
    | Normal (action, (id, r)) =>
        repo_path.1 = Normal action
        ∧ table user_path.2 !! id = Some r
        ∧ githubNumber r = GitHub.number issue ∧ repository r = repo
    | Throw e => repo_path.1 = Throw e ∧ table user_path.2 = table w
    end.
Proof.
  intros repo_path user_path. unfold repo_path.
  rewrite sync_paths_same_run. fold user_path. split; [reflexivity|]. simpl.
  destruct (syncOne_effect new_Date issue repo w)
    as [(e & H1 & H2) | [(Hnone & H1 & H2) | (id & r & Hkey & H1 & H2)]];
    fold user_path in H1, H2; rewrite H1; simpl.
  - done.
  - rewrite H2, lookup_insert_eq. done.
  - rewrite H2, lookup_insert_eq.
    destruct (lookup_key_Some _ _ _ _ _ Hkey) as (_ & Hn & Hr). done.
Qed.

(** ** Properties of the table kept by every write path *)

Section Preserved.

Variable fetch : string -> string -> GitHub.Response.
Variable new_Date : string -> Z.

(** A property of the table that one reconciliation keeps. *)
Variable P : gmap string Issue -> Prop.
Hypothesis P_step : ∀ issue repo w,
  P (table w) -> P (table (SyncIssues.syncIssue new_Date issue repo w).2).

Lemma syncEach_preserves repo issues result w :
  P (table w) -> P (table (SyncIssues.syncEach new_Date repo issues result w).2).
Proof.
  revert result w. induction issues as [|issue rest IH]; intros result w HP; [done|].
  rewrite syncEach_cons. apply IH.
  assert (Heq : table (SyncIssues.syncOne new_Date repo issue result w).2
                = table (SyncIssues.syncIssue new_Date issue repo w).2).
  { unfold SyncIssues.syncOne. by destruct (SyncIssues.syncIssue new_Date issue repo w) as [[] ?]. }
  rewrite Heq. by apply P_step.
Qed.

Lemma syncRepos_preserves fuel token repos result w result' w' :
  SyncIssues.syncRepos fetch new_Date fuel token repos result w = Some (result', w') ->
  P (table w) -> P (table w').
Proof.
  revert result w. induction repos as [|repo rest IH]; intros result w.
  - by intros [= _ <-].
  - rewrite syncRepos_cons, syncRepo_outcome.
    destruct (Run.outcome fetch fuel token repo) as [|err|issues|]; try discriminate.
    + apply IH.
    + apply IH.
    + pose proof (syncEach_preserves repo issues result w) as Hstep.
      destruct (SyncIssues.syncEach new_Date repo issues result w) as [r1 w1].
      intros Hrest HP. eapply IH; [exact Hrest | by apply Hstep].
Qed.

Lemma syncIssuesFromGitHub_preserves fuel env w outcome w' :
  SyncIssues.syncIssuesFromGitHub fetch new_Date fuel env w = Some (outcome, w') ->
  P (table w) -> P (table w').
Proof.
  unfold SyncIssues.syncIssuesFromGitHub.
  destruct (negb (truthy (GH_TOKEN env))); [by intros [= _ <-]|].
  destruct (negb (truthy (GH_REPOS env))); [by intros [= _ <-]|].
  destruct (SyncIssues.syncRepos _ _ _ _ _ _ _) as [[result w1]|] eqn:Hrun; [|discriminate].
  intros [= _ <-]. by apply (syncRepos_preserves _ _ _ _ _ _ _ Hrun).
Qed.

Lemma user_syncEach_cons issue rest result w :
  FetchUserIssues.syncEach new_Date (issue :: rest) result w
  = FetchUserIssues.syncEach new_Date rest
      (FetchUserIssues.syncEach new_Date [issue] result w).1
      (FetchUserIssues.syncEach new_Date [issue] result w).2.
Proof.
  simpl.
  destruct (FetchUserIssues.syncOne new_Date issue _ w) as [[[[] record]|err] w1]; reflexivity.
Qed.

Lemma user_syncEach_one_world issue result w :
  (FetchUserIssues.syncEach new_Date [issue] result w).2
  = (FetchUserIssues.syncOne new_Date issue
       (extractRepoFromUrl (GitHub.repository_url issue)) w).2.
Proof.
  simpl.
  destruct (FetchUserIssues.syncOne new_Date issue _ w) as [[[[] record]|err] w1]; reflexivity.
Qed.

Lemma user_syncEach_preserves issues result w :
  P (table w) -> P (table (FetchUserIssues.syncEach new_Date issues result w).2).
Proof.
  revert result w. induction issues as [|issue rest IH]; intros result w HP; [done|].
  rewrite user_syncEach_cons. apply IH. rewrite user_syncEach_one_world.
  pose proof (P_step issue (extractRepoFromUrl (GitHub.repository_url issue)) w HP) as Hstep.
  by rewrite sync_paths_same_run in Hstep.
Qed.

Lemma syncUserAssignedIssues_preserves env username w :
  P (table w) ->
  P (table (FetchUserIssues.syncUserAssignedIssues fetch new_Date env username w).2).
Proof.
  intros HP. unfold FetchUserIssues.syncUserAssignedIssues.
  destruct (negb (truthy (GH_TOKEN env))); [done|].
  pose proof (user_syncEach_preserves
                (FetchUserIssues.issues
                   (FetchUserIssues.fetchUserAssignedIssues fetch username
                      (default "" (GH_TOKEN env))))
                (FetchUserIssues.mkUserSyncResult 0 0 []
                   (FetchUserIssues.errors
                      (FetchUserIssues.fetchUserAssignedIssues fetch username
                         (default "" (GH_TOKEN env))))) w HP) as Hrun.
  by destruct (FetchUserIssues.syncEach _ _ _ _).
Qed.

End Preserved.

(** What a start request can do to the table, whatever fails. *)
Lemma POST_effect id json w :
  let out := StartRoute.POST id json w in
  (∃ status error, out.1 = StartRoute.Failure status error ∧ table out.2 = table w)
  ∨ (∃ context prompt r,
       json = Normal {| StartRoute.selectedContext := StartRoute.JsString context;
                        StartRoute.prompt := prompt |}
       ∧ context ≠ "" ∧ table w !! id = Some r
       ∧ statusGithub r = open ∧ workflowStatus r = pending
       ∧ out.1 = StartRoute.Started (id, Expected.started context prompt r)
       ∧ table out.2 = <[id := Expected.started context prompt r]> (table w)).
Proof.
  unfold StartRoute.POST, StartRoute.start, bind, ret.
  destruct json as [[ctx prompt]|e]; simpl; [|left; eauto].
  destruct ctx as [| |b|n|context|]; simpl; try (left; by eauto).
  destruct (StartRoute.not_provided (StartRoute.JsString context)) eqn:Hguard;
    simpl; [left; by eauto|].
  apply not_provided_spec in Hguard as (s & [= <-] & Hne).
  unfold Prisma.findUnique_id.
  match goal with |- context [prisma_call ?op ?w1] =>
    destruct (prisma_call_cases op w1) as [(e & ->) | ->] end; simpl; [left; by eauto|].
  destruct (table w !! id) as [r|] eqn:Hid; simpl; [|left; by eauto].
  destruct (bool_decide_reflect (statusGithub r = open)) as [Hgh|Hgh];
    simpl; [|left; by eauto].
  destruct (bool_decide_reflect (workflowStatus r = pending)) as [Hwf|Hwf];
    simpl; [|left; by eauto].
  unfold Prisma.update.
  match goal with |- context [prisma_call ?op ?w1] =>
    destruct (prisma_call_cases op w1) as [(e & ->) | ->] end; simpl; [left; by eauto|].
  rewrite Hid. simpl. right. exists context, prompt, r. done.
Qed.

Section RowInvariants.

Variable fetch : string -> string -> GitHub.Response.
Variable new_Date : string -> Z.

Lemma every_row_insert (P : Issue -> Prop) id r t :
  Lifecycle.every_row P t -> P r -> Lifecycle.every_row P (<[id := r]> t).
Proof.
  intros Ht Hr id' r'. destruct (decide (id = id')) as [<-|Hne].
  - rewrite lookup_insert_eq. by intros [= <-].
  - rewrite lookup_insert_ne by done. apply Ht.
Qed.

Lemma syncIssue_every_row (P : Issue -> Prop) :
  (∀ issue repo, P (Expected.inserted new_Date issue repo)) ->
  (∀ issue r, P r -> P (Expected.refreshed new_Date issue (Expected.merged issue r) r)) ->
  ∀ issue repo w,
    Lifecycle.every_row P (table w) ->
    Lifecycle.every_row P (table (SyncIssues.syncIssue new_Date issue repo w).2).
Proof.
  intros Hins Hupd issue repo w Hrows.
  destruct (syncIssue_effect new_Date issue repo w)
    as [-> | [(Hnone & ->) | (id & r & Hkey & ->)]]; [done | |].
  - by apply every_row_insert.
  - apply every_row_insert; [done|]. apply Hupd.
    destruct (lookup_key_Some _ _ _ _ _ Hkey) as (Hid & _). by eapply Hrows.
Qed.

Lemma POST_every_row (P : Issue -> Prop) :
  (∀ context prompt r, context ≠ "" -> statusGithub r = open -> workflowStatus r = pending ->
                       P r -> P (Expected.started context prompt r)) ->
  ∀ id json w,
    Lifecycle.every_row P (table w) ->
    Lifecycle.every_row P (table (StartRoute.POST id json w).2).
Proof.
  intros Hstart id json w Hrows.
  destruct (POST_effect id json w)
    as [(status & error & _ & ->) | (context & prompt & r & _ & Hne & Hid & Hgh & Hwf & _ & ->)];
    [done|].
  apply every_row_insert; [done|]. apply Hstart; try done. by eapply Hrows.
Qed.

Lemma inserted_closed_is_ended issue repo :
  Lifecycle.closed_is_ended (Expected.inserted new_Date issue repo).
Proof.
  unfold Lifecycle.closed_is_ended; simpl. intros ->. done.
Qed.

Lemma refreshed_closed_is_ended issue r :
  Lifecycle.closed_is_ended (Expected.refreshed new_Date issue (Expected.merged issue r) r).
Proof.
  unfold Lifecycle.closed_is_ended, Expected.merged; simpl. intros ->. done.
Qed.

Lemma inserted_started_with_context issue repo :
  Lifecycle.started_with_context (Expected.inserted new_Date issue repo).
Proof.
  split; simpl; [|done]. by destruct (decide _).
Qed.

Lemma refreshed_started_with_context issue r :
  Lifecycle.started_with_context r ->
  Lifecycle.started_with_context
    (Expected.refreshed new_Date issue (Expected.merged issue r) r).
Proof.
  intros [Hctx Hprompt]. split; simpl; [|done].
  unfold Expected.merged. destruct (decide _); [done|].
  destruct (decide _); [done|]. exact Hctx.
Qed.

End RowInvariants.

Section UserRun.

Variable fetch : string -> string -> GitHub.Response.
Variable new_Date : string -> Z.

Lemma user_syncOne_calm issue repo w :
  calm 2 w ->
  ∃ action record w', FetchUserIssues.syncOne new_Date issue repo w
                      = (Normal (action, record), w')
                      ∧ faults w' = tail (tail (faults w)).
Proof.
  intros Hcalm.
  destruct (syncIssue_calm new_Date issue repo w Hcalm) as (action & w' & Hrun & Hfaults).
  rewrite sync_paths_same_run in Hrun.
  destruct (FetchUserIssues.syncOne new_Date issue repo w) as [[[a record]|e] w1];
    simpl in Hrun; [|discriminate].
  injection Hrun as -> ->. by eexists _, _, _.
Qed.

Lemma user_syncEach_one issue result w :
  let out := FetchUserIssues.syncEach new_Date [issue] result w in
  let one := FetchUserIssues.syncOne new_Date issue
               (extractRepoFromUrl (GitHub.repository_url issue)) w in
  out.2 = one.2
  ∧ (FetchUserIssues.created out.1 + FetchUserIssues.updated out.1
     = FetchUserIssues.created result + FetchUserIssues.updated result
       + length (match one.1 with Normal (_, record) => [record] | Throw _ => [] end))%nat
  ∧ FetchUserIssues.synced out.1
    = (FetchUserIssues.synced result
       ++ match one.1 with Normal (_, record) => [record] | Throw _ => [] end)%list
  ∧ ∃ messages,
      FetchUserIssues.failed out.1 = (FetchUserIssues.failed result ++ messages)%list
      ∧ length messages = match one.1 with Normal _ => 0%nat | Throw _ => 1%nat end.
Proof.
  simpl.
  destruct (FetchUserIssues.syncOne new_Date issue _ w) as [[[[] record]|err] w1]; simpl.
  - repeat split; try lia. exists []. by rewrite app_nil_r.
  - repeat split; try lia. exists []. by rewrite app_nil_r.
  - rewrite app_nil_r. repeat split; try lia. by eexists [_].
Qed.

(** The loop of the user path: what it adds to the result. *)
Lemma user_syncEach_accounts issues result w :
  let out := FetchUserIssues.syncEach new_Date issues result w in
  ∃ records messages,
    FetchUserIssues.synced out.1 = (FetchUserIssues.synced result ++ records)%list
    ∧ FetchUserIssues.failed out.1 = (FetchUserIssues.failed result ++ messages)%list
    ∧ (FetchUserIssues.created out.1 + FetchUserIssues.updated out.1
       = FetchUserIssues.created result + FetchUserIssues.updated result + length records)%nat
    ∧ (length records + length messages = length issues)%nat
    ∧ (∀ record, record ∈ records ->
         ∃ issue, issue ∈ issues
                  ∧ githubNumber record.2 = GitHub.number issue
                  ∧ repository record.2 = extractRepoFromUrl (GitHub.repository_url issue))
    ∧ (calm (2 * length issues) w -> messages = []).
Proof.
  revert result w. induction issues as [|issue rest IH]; intros result w.
  - exists [], []. simpl. rewrite !app_nil_r. repeat split; try done; try lia.
    intros record Hin. by apply elem_of_nil in Hin.
  - cbv zeta. rewrite user_syncEach_cons.
    set (repo := extractRepoFromUrl (GitHub.repository_url issue)).
    pose proof (user_syncEach_one issue result w) as Hstep. cbv zeta in Hstep.
    fold repo in Hstep.
    destruct Hstep as (Hw & Hc & Hs & first & Hf & Hlen).
    assert (Hcalm1 : calm (2 * length (issue :: rest)) w ->
              (∃ ok, (FetchUserIssues.syncOne new_Date issue repo w).1 = Normal ok)
              ∧ calm (2 * length rest) (FetchUserIssues.syncOne new_Date issue repo w).2).
    { intros Hcalm.
      destruct (user_syncOne_calm issue repo w) as (a & rec & w' & Hrun & Hfaults).
      { eapply calm_weaken; [|exact Hcalm]. simpl. lia. }
      rewrite Hrun. split; [by eexists|].
      eapply calm_after_two; [|exact Hfaults].
      replace (2 + 2 * length rest)%nat with (2 * length (issue :: rest))%nat by (simpl; lia).
      exact Hcalm. }
    destruct (IH (FetchUserIssues.syncEach new_Date [issue] result w).1
                 (FetchUserIssues.syncEach new_Date [issue] result w).2)
      as (records & messages & IHs & IHf & IHc & IHl & IHk & IHcalm).
    cbv zeta in IHs, IHf, IHc.
    exists (match (FetchUserIssues.syncOne new_Date issue repo w).1 with
            | Normal (_, record) => [record] | Throw _ => [] end ++ records)%list,
           (first ++ messages)%list.
    rewrite IHs, IHf, IHc, Hs, Hf, Hc, <- !app_assoc, !length_app.
    split; [done|]. split; [done|]. split; [lia|]. split; [|split].
    + rewrite Hlen. simpl.
      destruct ((FetchUserIssues.syncOne new_Date issue repo w).1) as [[]|]; simpl; lia.
    + intros record [Hin|Hin]%elem_of_app.
      * destruct ((FetchUserIssues.syncOne new_Date issue repo w).1) as [[a [id r]]|] eqn:Hone;
          [|by apply elem_of_nil in Hin].
        apply list_elem_of_singleton in Hin as ->.
        exists issue. split; [apply elem_of_cons; by left|].
        exact (syncOne_record new_Date issue repo w a id r Hone).
      * destruct (IHk record Hin) as (i & Hi & Hkey). exists i.
        split; [apply elem_of_cons; by right | done].
    + intros Hcalm. destruct (Hcalm1 Hcalm) as [(ok & Hok) Hrest].
      rewrite Hw in IHcalm. rewrite (IHcalm Hrest), app_nil_r.
      rewrite Hok in Hlen. by destruct first.
Qed.

End UserRun.

(** A run of [syncUserAssignedIssues] with a token always resolves,
    and accounts for every issue the search returned: each one ends up
    either among the returned records, counted once in [created] or
    [updated], or as one more message after the errors of the search.
    A returned record carries the number of its issue and the repository
    read off its [repository_url].  When no call to the database fails,
    no message is added. *)
Theorem user_sync_accounts_for_every_issue
    (fetch : string -> string -> GitHub.Response) (new_Date : string -> Z)
    env username w :
  truthy (GH_TOKEN env) = true ->
  let fetched :=
    FetchUserIssues.fetchUserAssignedIssues fetch username (default "" (GH_TOKEN env)) in
  ∃ result w' messages,
    FetchUserIssues.syncUserAssignedIssues fetch new_Date env username w = (Normal result, w')
    ∧ FetchUserIssues.failed result = (FetchUserIssues.errors fetched ++ messages)%list
    ∧ (FetchUserIssues.created result + FetchUserIssues.updated result
       = length (FetchUserIssues.synced result))%nat
    ∧ (length (FetchUserIssues.synced result) + length messages
       = length (FetchUserIssues.issues fetched))%nat
    ∧ (∀ record, record ∈ FetchUserIssues.synced result ->
         ∃ issue, issue ∈ FetchUserIssues.issues fetched
                  ∧ githubNumber record.2 = GitHub.number issue
                  ∧ repository record.2 = extractRepoFromUrl (GitHub.repository_url issue))
    ∧ (calm (2 * length (FetchUserIssues.issues fetched)) w -> messages = []).
Proof.
  intros Htoken fetched. unfold FetchUserIssues.syncUserAssignedIssues.
  rewrite Htoken. simpl negb. cbv iota. fold fetched.
  destruct (user_syncEach_accounts new_Date (FetchUserIssues.issues fetched)
              (FetchUserIssues.mkUserSyncResult 0 0 [] (FetchUserIssues.errors fetched)) w)
    as (records & messages & Hs & Hf & Hc & Hl & Hk & Hcalm).
  destruct (FetchUserIssues.syncEach new_Date _ _ w) as [result w'].
  simpl in Hs, Hf, Hc. exists result, w', messages. subst records.
  repeat split; try done.
Qed.

Lemma user_sync_accounts_for_every_issue_witness :
  truthy (GH_TOKEN Sample.env) = true
  ∧ ∃ result w' messages,
      FetchUserIssues.syncUserAssignedIssues SampleUser.search Sample.instant Sample.env
        "octocat" SampleUser.flaky_store = (Normal result, w')
      ∧ FetchUserIssues.failed result
        = (FetchUserIssues.errors
             (FetchUserIssues.fetchUserAssignedIssues SampleUser.search "octocat"
                (default "" (GH_TOKEN Sample.env))) ++ messages)%list
      ∧ (FetchUserIssues.created result + FetchUserIssues.updated result
         = length (FetchUserIssues.synced result))%nat
      ∧ (length (FetchUserIssues.synced result) + length messages
         = length (FetchUserIssues.issues
                     (FetchUserIssues.fetchUserAssignedIssues SampleUser.search "octocat"
                        (default "" (GH_TOKEN Sample.env)))))%nat.
Proof.
  split; [reflexivity|].
  destruct (user_sync_accounts_for_every_issue SampleUser.search Sample.instant Sample.env
              "octocat" SampleUser.flaky_store eq_refl)
    as (result & w' & messages & Hrun & Hf & Hc & Hl & _).
  exists result, w', messages. repeat split; assumption.
Defined.

(** The user path keeps the unique index and the columns the sync
    does not own, as the repository path does: after
    [syncUserAssignedIssues] no two rows share a
    [(githubNumber, repository)] key if none did before, and every row
    is still under its id with its key, [createdAtGithub],
    [selectedContext] and [prompt], whatever fails on the way. *)
Theorem user_sync_keeps_keys_and_local_columns
    (fetch : string -> string -> GitHub.Response) (new_Date : string -> Z)
    env username w :
  let w' := (FetchUserIssues.syncUserAssignedIssues fetch new_Date env username w).2 in
  (Run.unique_keys (table w) -> Run.unique_keys (table w'))
  ∧ ∀ id r, table w !! id = Some r ->
      ∃ r', table w' !! id = Some r'
            ∧ githubNumber r' = githubNumber r ∧ repository r' = repository r
            ∧ createdAtGithub r' = createdAtGithub r
            ∧ selectedContext r' = selectedContext r ∧ prompt r' = prompt r.
Proof.
  intros w'. split.
  - apply (syncUserAssignedIssues_preserves fetch new_Date Run.unique_keys).
    intros issue repo w0. apply syncIssue_unique_keys.
  - apply (syncUserAssignedIssues_preserves fetch new_Date
             (fun t => Run.keeps_local_columns (table w) t)).
    + intros issue repo w0 H. eapply keeps_local_columns_trans; [exact H|].
      apply syncIssue_keeps_local_columns.
    + apply keeps_local_columns_refl.
Qed.

(** "GitHub rules" is an invariant of the table: when every row
    that is closed on GitHub has [workflowStatus = end], this still
    holds after a repository sync, after a user sync and after a start
    request, whatever their arguments and whatever fails. *)
Theorem closed_rows_stay_ended
    (fetch : string -> string -> GitHub.Response) (new_Date : string -> Z) w :
  Lifecycle.every_row Lifecycle.closed_is_ended (table w) ->
  (∀ fuel env outcome w',
     SyncIssues.syncIssuesFromGitHub fetch new_Date fuel env w = Some (outcome, w') ->
     Lifecycle.every_row Lifecycle.closed_is_ended (table w'))
  ∧ (∀ env username,
       Lifecycle.every_row Lifecycle.closed_is_ended
         (table (FetchUserIssues.syncUserAssignedIssues fetch new_Date env username w).2))
  ∧ (∀ id json,
       Lifecycle.every_row Lifecycle.closed_is_ended (table (StartRoute.POST id json w).2)).
Proof.
  intros Hrows.
  assert (Hstep : ∀ issue repo w0,
            Lifecycle.every_row Lifecycle.closed_is_ended (table w0) ->
            Lifecycle.every_row Lifecycle.closed_is_ended
              (table (SyncIssues.syncIssue new_Date issue repo w0).2)).
  { apply syncIssue_every_row.
    - apply inserted_closed_is_ended.
    - intros issue r _. apply refreshed_closed_is_ended. }
  split; [|split].
  - intros fuel env outcome w' Hrun.
    by apply (syncIssuesFromGitHub_preserves fetch new_Date _ Hstep _ _ _ _ _ Hrun).
  - intros env username.
    by apply (syncUserAssignedIssues_preserves fetch new_Date _ Hstep).
  - intros id json. apply POST_every_row; [|done].
    intros context prompt r _ Hgh _ _. unfold Lifecycle.closed_is_ended; simpl.
    by rewrite Hgh.
Qed.

Lemma every_row_singleton (P : Issue -> Prop) id r :
  P r -> Lifecycle.every_row P {[ id := r ]}.
Proof. intros HP id' r' [_ <-]%lookup_singleton_Some. exact HP. Qed.

Lemma closed_rows_stay_ended_witness :
  Lifecycle.every_row Lifecycle.closed_is_ended (table (Sample.store closed end_))
  ∧ ∀ id json,
      Lifecycle.every_row Lifecycle.closed_is_ended
        (table (StartRoute.POST id json (Sample.store closed end_)).2).
Proof.
  assert (H : Lifecycle.every_row Lifecycle.closed_is_ended (table (Sample.store closed end_)))
    by (apply every_row_singleton; intros _; reflexivity).
  split; [exact H|].
  exact (proj2 (proj2 (closed_rows_stay_ended Sample.network Sample.instant
                         (Sample.store closed end_) H))).
Defined.

(** The sync paths and the start route keep the context of a started
    row: when every row with [workflowStatus = in_process] has a
    non-empty [selectedContext], and every row without a context has no
    prompt, this still holds after a repository sync, after a user sync
    and after a start request, whatever their arguments and whatever
    fails. *)
Theorem in_process_rows_keep_their_context
    (fetch : string -> string -> GitHub.Response) (new_Date : string -> Z) w :
  Lifecycle.every_row Lifecycle.started_with_context (table w) ->
  (∀ fuel env outcome w',
     SyncIssues.syncIssuesFromGitHub fetch new_Date fuel env w = Some (outcome, w') ->
     Lifecycle.every_row Lifecycle.started_with_context (table w'))
  ∧ (∀ env username,
       Lifecycle.every_row Lifecycle.started_with_context
         (table (FetchUserIssues.syncUserAssignedIssues fetch new_Date env username w).2))
  ∧ (∀ id json,
       Lifecycle.every_row Lifecycle.started_with_context
         (table (StartRoute.POST id json w).2)).
Proof.
  intros Hrows.
  assert (Hstep : ∀ issue repo w0,
            Lifecycle.every_row Lifecycle.started_with_context (table w0) ->
            Lifecycle.every_row Lifecycle.started_with_context
              (table (SyncIssues.syncIssue new_Date issue repo w0).2)).
  { apply syncIssue_every_row.
    - apply inserted_started_with_context.
    - apply refreshed_started_with_context. }
  split; [|split].
  - intros fuel env outcome w' Hrun.
    by apply (syncIssuesFromGitHub_preserves fetch new_Date _ Hstep _ _ _ _ _ Hrun).
  - intros env username.
    by apply (syncUserAssignedIssues_preserves fetch new_Date _ Hstep).
  - intros id json. apply POST_every_row; [|done].
    intros context prompt r Hne _ _ _. split; simpl; [|done]. eauto.
Qed.

Lemma in_process_rows_keep_their_context_witness :
  Lifecycle.every_row Lifecycle.started_with_context (table (Sample.store open pending))
  ∧ ∀ id json,
      Lifecycle.every_row Lifecycle.started_with_context
        (table (StartRoute.POST id json (Sample.store open pending)).2).
Proof.
  assert (H : Lifecycle.every_row Lifecycle.started_with_context
                (table (Sample.store open pending))).
  { apply every_row_singleton. split; [discriminate | discriminate]. }
  split; [exact H|].
  exact (proj2 (proj2 (in_process_rows_keep_their_context Sample.network Sample.instant
                         (Sample.store open pending) H))).
Defined.

(** ** The start route under failures *)

(** The answers of the start route that are no success. *)
Lemma POST_failure id json w status error :
  (StartRoute.POST id json w).1 = StartRoute.Failure status error ->
  table (StartRoute.POST id json w).2 = table w
  ∧ ((status = 400%Z ∧ error = "selectedContext is required")
     ∨ (status = 404%Z ∧ error = "Issue not found" ∧ table w !! id = None)
     ∨ (status = 400%Z ∧ error = "Cannot start a closed issue"
        ∧ ∃ r, table w !! id = Some r ∧ statusGithub r ≠ open)
     ∨ (status = 400%Z ∧ error = "Issue is already in process or ended"
        ∧ ∃ r, table w !! id = Some r ∧ statusGithub r = open ∧ workflowStatus r ≠ pending)
     ∨ (status = 500%Z ∧ error = "Failed to start issue")).
Proof.
  unfold StartRoute.POST, StartRoute.start, bind, ret.
  destruct json as [[ctx prompt]|e]; simpl.
  2: { intros [= <- <-]. split; [done|]. by do 4 right. }
  destruct ctx as [| |b|n|context|]; simpl;
    try (intros [= <- <-]; split; [done|]; by left).
  destruct (StartRoute.not_provided (StartRoute.JsString context)) eqn:Hguard; simpl.
  { intros [= <- <-]. split; [done|]. by left. }
  unfold Prisma.findUnique_id.
  match goal with |- context [prisma_call ?op ?w1] =>
    destruct (prisma_call_cases op w1) as [(e & ->) | ->] end; simpl.
  { intros [= <- <-]. split; [done|]. by do 4 right. }
  destruct (table w !! id) as [r|] eqn:Hid; simpl.
  2: { intros [= <- <-]. split; [done|]. right. by left. }
  destruct (bool_decide_reflect (statusGithub r = open)) as [Hgh|Hgh]; simpl.
  2: { intros [= <- <-]. split; [done|]. right. right. left. do 2 (split; [done|]). by exists r. }
  destruct (bool_decide_reflect (workflowStatus r = pending)) as [Hwf|Hwf]; simpl.
  2: { intros [= <- <-]. split; [done|]. right. right. right. left. do 2 (split; [done|]). by exists r. }
  unfold Prisma.update.
  match goal with |- context [prisma_call ?op ?w1] =>
    destruct (prisma_call_cases op w1) as [(e & ->) | ->] end; simpl.
  { intros [= <- <-]. split; [done|]. by do 4 right. }
  rewrite Hid. simpl. discriminate.
Qed.

(** An issue is started at most once: after a start request has
    succeeded for an id, every further start request for that id,
    whatever its body, is refused with a 400 (or fails with a 500 when
    the database does) and leaves the table as the first one left it. *)
Theorem start_happens_at_most_once id json w issue w' :
  StartRoute.POST id json w = (StartRoute.Started issue, w') ->
  ∀ json' faults',
    let again := StartRoute.POST id json' (mkWorld (table w') faults') in
    ∃ status error,
      again.1 = StartRoute.Failure status error
      ∧ (status = 400%Z ∨ status = 500%Z)
      ∧ table again.2 = table w'.
Proof.
  intros Hfirst json' faults' again.
  destruct (POST_effect id json w)
    as [(status & error & Hout & _)
       | (context & prompt & r & _ & _ & _ & _ & _ & _ & Htable)];
    rewrite Hfirst in Hout || rewrite Hfirst in Htable; simpl in *; [discriminate|].
  assert (Hrow : ∃ r', table w' !! id = Some r' ∧ workflowStatus r' = in_process).
  { rewrite Htable, lookup_insert_eq. by eexists. }
  destruct Hrow as (r' & Hid & Hwf).
  destruct (POST_effect id json' (mkWorld (table w') faults'))
    as [(status & error & Hout & Hsame)
       | (context' & prompt' & r'' & _ & _ & Hid' & _ & Hpending & _)].
  - exists status, error. split; [done|]. split; [|done].
    destruct (POST_failure id json' (mkWorld (table w') faults') status error Hout)
      as (_ & [(-> & _) | [(_ & _ & Hnone) | [(-> & _) | [(-> & _) | (-> & _)]]]]);
      auto.
    simpl in Hnone. congruence.
  - simpl in Hid'. congruence.
Qed.

Lemma start_happens_at_most_once_witness :
  ∃ issue w',
    StartRoute.POST "c7" (Normal Sample.start_body) (Sample.store open pending)
    = (StartRoute.Started issue, w')
    ∧ ∃ status error,
        (StartRoute.POST "c7" (Normal Sample.start_body) (mkWorld (table w') [])).1
        = StartRoute.Failure status error
        ∧ (status = 400%Z ∨ status = 500%Z)
        ∧ table (StartRoute.POST "c7" (Normal Sample.start_body) (mkWorld (table w') [])).2
          = table w'.
Proof.
  eexists _, _. split; [reflexivity|].
  exact (start_happens_at_most_once "c7" (Normal Sample.start_body)
           (Sample.store open pending) _ _ eq_refl (Normal Sample.start_body) []).
Defined.

(** What a start request never does: it adds no row and removes
    none, leaves every other row as it was, and on its own row changes
    none of the columns mirrored from GitHub nor the key; so it keeps
    the unique index.  This holds for every body and whatever fails. *)
Theorem start_touches_one_row_and_no_mirrored_column id json w :
  let w' := (StartRoute.POST id json w).2 in
  dom (table w') = dom (table w)
  ∧ (∀ other, other ≠ id -> table w' !! other = table w !! other)
  ∧ (∀ r, table w !! id = Some r ->
       ∃ r', table w' !! id = Some r'
             ∧ githubNumber r' = githubNumber r ∧ repository r' = repository r
             ∧ title r' = title r ∧ description r' = description r
             ∧ statusGithub r' = statusGithub r ∧ url r' = url r
             ∧ labels r' = labels r
             ∧ createdAtGithub r' = createdAtGithub r
             ∧ updatedAtGithub r' = updatedAtGithub r)
  ∧ (Run.unique_keys (table w) -> Run.unique_keys (table w')).
Proof.
  intros w'. unfold w'.
  destruct (POST_effect id json w)
    as [(status & error & _ & ->)
       | (context & prompt & r & _ & _ & Hid & _ & _ & _ & ->)].
  - repeat split; try done. intros r Hid. by exists r.
  - split; [|split; [|split]].
    + apply dom_insert_lookup_L. by eexists.
    + intros other Hne. by rewrite lookup_insert_ne.
    + intros r0 Hid0. rewrite Hid in Hid0. injection Hid0 as <-.
      eexists. split; [apply lookup_insert_eq|]. done.
    + intros Huniq i j a b Hi Hj Hn Hr.
      destruct (decide (id = i)) as [<-|Hi']; destruct (decide (id = j)) as [<-|Hj'];
        [done | | |].
      * rewrite lookup_insert_eq in Hi. rewrite lookup_insert_ne in Hj by done.
        injection Hi as <-. simpl in *. by eapply Huniq.
      * rewrite lookup_insert_eq in Hj. rewrite lookup_insert_ne in Hi by done.
        injection Hj as <-. simpl in *. by eapply Huniq.
      * rewrite lookup_insert_ne in Hi, Hj by done. by eapply Huniq.
Qed.

(** Failures of the start route.  A body that cannot be read is
    answered with 500 and nothing is asked of the database.  With a
    usable context, a database failure on the lookup, or on the write
    that follows the checks, is answered with 500 too.  Every answer
    other than the started issue, whatever its cause, leaves the table
    as it was; and a 404 is only ever given for an id that no row has. *)
Theorem start_failures_change_nothing id json w :
  (∀ e, json = Throw e ->
        StartRoute.POST id json w = (StartRoute.Failure 500 "Failed to start issue", w))
  ∧ (∀ context prompt e later,
       json = Normal {| StartRoute.selectedContext := StartRoute.JsString context;
                        StartRoute.prompt := prompt |} ->
       context ≠ "" ->
       (faults w = Some e :: later
        ∨ (∃ r, table w !! id = Some r ∧ statusGithub r = open ∧ workflowStatus r = pending
                ∧ ∃ first, faults w = first :: Some e :: later ∧ first = None)) ->
       (StartRoute.POST id json w).1 = StartRoute.Failure 500 "Failed to start issue"
       ∧ table (StartRoute.POST id json w).2 = table w)
  ∧ (∀ status error,
       (StartRoute.POST id json w).1 = StartRoute.Failure status error ->
       table (StartRoute.POST id json w).2 = table w
       ∧ status ∈ [400%Z; 404%Z; 500%Z]
       ∧ (status = 404%Z -> table w !! id = None)).
Proof.
  split; [|split].
  - by intros e ->.
  - intros context prompt e later -> Hne Hfault.
    assert (Hok : StartRoute.not_provided (StartRoute.JsString context) = false)
      by (apply not_provided_spec; eauto).
    unfold StartRoute.POST, StartRoute.start, bind, ret. simpl. rewrite Hok.
    unfold Prisma.findUnique_id, Prisma.update, prisma_call.
    destruct Hfault as [Hf | (r & Hid & Hgh & Hwf & first & Hf & ->)]; rewrite Hf; simpl.
    + done.
    + rewrite Hid. simpl. rewrite !bool_decide_eq_true_2 by done. simpl. done.
  - intros status error Hout.
    destruct (POST_failure id json w status error Hout)
      as (Hsame & [(-> & _) | [(-> & _ & Hnone) | [(-> & _) | [(-> & _) | (-> & _)]]]]);
      (split; [done|]); (split; [set_solver | done || by intros [=]]).
Qed.

Lemma start_failures_change_nothing_witness :
  (StartRoute.POST "c7"
     (Normal {| StartRoute.selectedContext := StartRoute.JsString "buyer3";
                StartRoute.prompt := None |})
     (mkWorld {[ "c7" := Sample.local 7 open pending ]}
              [None; Some (JsError "Connection lost")])).1
  = StartRoute.Failure 500 "Failed to start issue"
  ∧ table (StartRoute.POST "c7"
             (Normal {| StartRoute.selectedContext := StartRoute.JsString "buyer3";
                        StartRoute.prompt := None |})
             (mkWorld {[ "c7" := Sample.local 7 open pending ]}
                      [None; Some (JsError "Connection lost")])).2
    = {[ "c7" := Sample.local 7 open pending ]}.
Proof.
  refine (proj1 (proj2 (start_failures_change_nothing "c7" _ _))
            "buyer3" None (JsError "Connection lost") [] eq_refl _ _).
  - discriminate.
  - right. exists (Sample.local 7 open pending).
    split; [reflexivity|]. split; [reflexivity|]. split; [reflexivity|].
    exists None. split; reflexivity.
Defined.

(** ** The list route: what it reads and what it shows *)

#[local] Instance before_total : Total Prisma.before.
Proof. intros a b. unfold Prisma.before. lia. Qed.

#[local] Instance before_transitive : Transitive Prisma.before.
Proof. intros a b c. unfold Prisma.before. lia. Qed.

Lemma ordered_StronglySorted rows : StronglySorted Prisma.before (Prisma.ordered rows).
Proof. apply StronglySorted_merge_sort; apply _. Qed.

Lemma StronglySorted_window {A} (R : relation A) (s n : nat) (l : list A) :
  StronglySorted R l -> StronglySorted R (take n (drop s l)).
Proof.
  intros Hl. rewrite <- (take_drop s l) in Hl.
  apply StronglySorted_app_1_r in Hl.
  rewrite <- (take_drop n (drop s l)) in Hl.
  by apply StronglySorted_app_1_l in Hl.
Qed.

Lemma window_sublist {A} (s n : nat) (l : list A) : take n (drop s l) `sublist_of` l.
Proof. etrans; [apply sublist_take | apply sublist_drop]. Qed.

Lemma elem_of_matching wh t id r :
  (id, r) ∈ Prisma.matching wh t <-> t !! id = Some r ∧ Prisma.satisfies wh (id, r) = true.
Proof.
  unfold Prisma.matching. rewrite list_elem_of_In, filter_In, <- list_elem_of_In.
  by rewrite elem_of_map_to_list.
Qed.

Lemma elem_of_ordered rows (x : Stored) : x ∈ Prisma.ordered rows <-> x ∈ rows.
Proof. unfold Prisma.ordered. by rewrite merge_sort_Permutation. Qed.

Lemma NoDup_ids_matching wh t : NoDup (Prisma.ordered (Prisma.matching wh t)).*1.
Proof.
  unfold Prisma.ordered. rewrite merge_sort_Permutation.
  eapply sublist_NoDup; [apply (NoDup_fst_map_to_list t)|].
  apply fmap_sublist. unfold Prisma.matching.
  induction (map_to_list t) as [|x l IH]; simpl; [done|].
  destruct (Prisma.satisfies wh x); by constructor.
Qed.

Section ListRouteReads.

Variable findMany_irregular : number -> number -> list Stored -> Completion (list Stored).

(** How the two calls of the handler can go. *)
Lemma GET_cases searchParams w :
  let out := IssuesRoute.GET findMany_irregular searchParams w in
  let skip := IssuesRoute.skip_of (IssuesRoute.page_of searchParams)
                                  (IssuesRoute.limit_of searchParams) in
  let take_ := IssuesRoute.limit_of searchParams in
  table out.2 = table w
  ∧ (out.1 = IssuesRoute.Failure 500 "Failed to fetch issues"
     ∨ (∃ issues, out.1 = IssuesRoute.Listing issues (Expected.pagination_of searchParams w)
                  ∧ match as_nat skip, as_nat take_ with
                    | Some s, Some n =>
                        issues = take n (drop s (Expected.rows_of searchParams w))
                    | _, _ => findMany_irregular skip take_ (Expected.rows_of searchParams w)
                              = Normal issues
                    end)).
Proof.
  unfold IssuesRoute.GET, IssuesRoute.listing, bind, ret, Prisma.count, IssuesRoute.findMany.
  match goal with |- context [prisma_call ?op ?w1] =>
    destruct (prisma_call_cases op w1) as [(e & ->) | ->] end; simpl; [by auto|].
  match goal with |- context [prisma_call ?op ?w1] =>
    destruct (prisma_call_cases op w1) as [(e & ->) | ->] end; simpl; [by auto|].
  fold (Expected.rows_of searchParams w).
  destruct (as_nat (IssuesRoute.skip_of _ _)) as [s|] eqn:Hs;
    [destruct (as_nat (IssuesRoute.limit_of _)) as [n|] eqn:Hn|]; simpl.
  - split; [done|]. right. by eexists.
  - destruct (findMany_irregular _ _ _) as [issues|e] eqn:Hirr; simpl; [|by auto].
    split; [done|]. right. by exists issues.
  - destruct (findMany_irregular _ _ _) as [issues|e] eqn:Hirr; simpl; [|by auto].
    split; [done|]. right. by exists issues.
Qed.

Lemma GET_fault searchParams w e later :
  faults w = Some e :: later ∨ (∃ first, faults w = first :: Some e :: later ∧ first = None) ->
  (IssuesRoute.GET findMany_irregular searchParams w).1
  = IssuesRoute.Failure 500 "Failed to fetch issues".
Proof.
  unfold IssuesRoute.GET, IssuesRoute.listing, bind, ret, Prisma.count, IssuesRoute.findMany,
    prisma_call.
  by intros [-> | (first & -> & ->)].
Qed.

End ListRouteReads.

(** The list route only reads.  Whatever the query string and
    whatever fails, the table is the same after the request; a failure
    of either database call is answered with 500 and the fixed message;
    and the route has no other failure answer: no query string is ever
    rejected with a 4xx. *)
Theorem list_route_only_reads fmi searchParams w :
  let out := IssuesRoute.GET fmi searchParams w in
  table out.2 = table w
  ∧ (∀ e later,
       faults w = Some e :: later
       ∨ (∃ first, faults w = first :: Some e :: later ∧ first = None) ->
       out.1 = IssuesRoute.Failure 500 "Failed to fetch issues")
  ∧ (∀ status error,
       out.1 = IssuesRoute.Failure status error ->
       status = 500%Z ∧ error = "Failed to fetch issues").
Proof.
  intros out. destruct (GET_cases fmi searchParams w) as [Hsame Hout]. fold out in Hsame, Hout.
  split; [exact Hsame|]. split.
  - intros e later Hfault. by eapply GET_fault.
  - intros status error Hfail. rewrite Hfail in Hout.
    destruct Hout as [[= -> ->] | (issues & [=] & _)]. done.
Qed.

(** What a page shows.  When the route answers with a listing
    for a [skip] and a [take] that are non-negative integers, every
    issue shown is a row of the table under its id; it has the
    [repository] asked for, the [workflowStatus] asked for when that is
    one of the three labels, and the [statusGithub] asked for when that
    is one of the two; the issues come in the order of the query:
    ascending workflow rank, newest GitHub update first within a rank;
    and no id is shown twice. *)
Theorem listing_shows_stored_matching_rows_in_order
    fmi searchParams w (s n : nat) issues pagination w' :
  IssuesRoute.GET fmi searchParams w = (IssuesRoute.Listing issues pagination, w') ->
  as_nat (IssuesRoute.skip_of (IssuesRoute.page_of searchParams)
                              (IssuesRoute.limit_of searchParams)) = Some s ->
  as_nat (IssuesRoute.limit_of searchParams) = Some n ->
  (∀ id r, (id, r) ∈ issues ->
     table w !! id = Some r
     ∧ (∀ repo, IssuesRoute.get "repository" searchParams = Some repo -> repo ≠ "" ->
                repository r = repo)
     ∧ (∀ v, IssuesRoute.get "workflowStatus" searchParams = Some v ->
             v ∈ ["pending"; "in_process"; "end"] ->
             WorkflowStatus_label (workflowStatus r) = v)
     ∧ (∀ v, IssuesRoute.get "statusGithub" searchParams = Some v ->
             v ∈ ["open"; "closed"] ->
             GitHubStatus_label (statusGithub r) = v))
  ∧ StronglySorted Prisma.before issues
  ∧ NoDup issues.*1.
Proof.
  intros Hget Hs Hn.
  destruct (GET_cases fmi searchParams w) as [_ Hout]. rewrite Hget, Hs, Hn in Hout.
  destruct Hout as [[=] | (issues' & [= <- _] & ->)].
  split; [|split].
  - intros id r Hin.
    assert (Hrow : (id, r) ∈ Prisma.matching (IssuesRoute.where_of searchParams) (table w)).
    { apply elem_of_ordered. eapply elem_of_sublist; [exact Hin | apply window_sublist]. }
    apply elem_of_matching in Hrow as [Hid Hsat]. split; [exact Hid|].
    unfold Prisma.satisfies, IssuesRoute.where_of in Hsat. simpl in Hsat.
    apply andb_prop in Hsat as [[Hrepo Hwf]%andb_prop Hgh].
    split; [|split].
    + intros repo Hparam Hne. rewrite Hparam in Hrepo.
      assert (Htruthy : truthy (Some repo) = true).
      { unfold truthy. by destruct repo. }
      rewrite Htruthy in Hrepo. simpl in Hrepo. by apply String.eqb_eq in Hrepo.
    + intros v Hparam Hv. rewrite Hparam in Hwf.
      assert (Hone : IssuesRoute.one_of ["pending"; "in_process"; "end"] (Some v) = true).
      { unfold IssuesRoute.one_of. rewrite bool_decide_eq_true_2 by done.
        rewrite andb_true_r. unfold truthy.
        destruct v; [|done].
        repeat (apply elem_of_cons in Hv as [Hv|Hv]; [discriminate|]).
        by apply elem_of_nil in Hv. }
      rewrite Hone in Hwf. simpl in Hwf. by apply String.eqb_eq in Hwf.
    + intros v Hparam Hv. rewrite Hparam in Hgh.
      assert (Hone : IssuesRoute.one_of ["open"; "closed"] (Some v) = true).
      { unfold IssuesRoute.one_of. rewrite bool_decide_eq_true_2 by done.
        rewrite andb_true_r. unfold truthy.
        destruct v; [|done].
        repeat (apply elem_of_cons in Hv as [Hv|Hv]; [discriminate|]).
        by apply elem_of_nil in Hv. }
      rewrite Hone in Hgh. simpl in Hgh. by apply String.eqb_eq in Hgh.
  - apply StronglySorted_window, ordered_StronglySorted.
  - eapply sublist_NoDup; [apply NoDup_ids_matching|].
    apply fmap_sublist, window_sublist.
Qed.

Lemma listing_shows_stored_matching_rows_in_order_witness :
  let issues := [ ("d", SampleBoard.row 4 open pending 1700000000700);
                  ("c", SampleBoard.row 3 open pending 1700000000100);
                  ("b", SampleBoard.row 2 open in_process 1700000000800) ] in
  IssuesRoute.GET Sample.strict [("statusGithub", "open")] SampleBoard.board
  = (IssuesRoute.Listing issues
       {| IssuesRoute.page := Int 1; IssuesRoute.limit := Int 20;
          IssuesRoute.total := 3; IssuesRoute.totalPages := Int 1 |},
     SampleBoard.board)
  ∧ StronglySorted Prisma.before issues
  ∧ NoDup issues.*1.
Proof.
  intros issues.
  assert (Hget : IssuesRoute.GET Sample.strict [("statusGithub", "open")] SampleBoard.board
                 = (IssuesRoute.Listing issues
                      {| IssuesRoute.page := Int 1; IssuesRoute.limit := Int 20;
                         IssuesRoute.total := 3; IssuesRoute.totalPages := Int 1 |},
                    SampleBoard.board)) by (vm_compute; reflexivity).
  split; [exact Hget|].
  exact (proj2 (listing_shows_stored_matching_rows_in_order Sample.strict
                  [("statusGithub", "open")] SampleBoard.board 0 20 _ _ _
                  Hget eq_refl eq_refl)).
Defined.

(** ** Paging through a repository *)

Section Paging.

Variable fetch : string -> string -> GitHub.Response.

Lemma fetchPages_full fuel owner repo token (page : nat) issues :
  Pages.full_page fetch owner repo token page ->
  SyncIssues.fetchPages fetch (S fuel) owner repo token page issues
  = SyncIssues.fetchPages fetch fuel owner repo token (S page)
      (issues ++ Pages.page_issues fetch owner repo token page)%list.
Proof.
  unfold Pages.full_page, Pages.page_issues. intros Hfull. rewrite fetchPages_S.
  destruct (fetch (SyncIssues.page_url owner repo page) token) as [| | |data]; try done.
  simpl. by destruct (Nat.ltb_spec (length data) SyncIssues.perPage) as [Hlt|_]; [lia|].
Qed.

Lemma fetchPages_through (k : nat) fuel owner repo token (page : nat) issues :
  (∀ p : nat, (page ≤ p < page + k)%nat -> Pages.full_page fetch owner repo token p) ->
  SyncIssues.fetchPages fetch (k + fuel) owner repo token page issues
  = SyncIssues.fetchPages fetch fuel owner repo token (page + k)
      (issues ++ concat (map (Pages.page_issues fetch owner repo token) (seq page k)))%list.
Proof.
  revert page issues. induction k as [|k IH]; intros page issues Hfull.
  - simpl. by rewrite Nat.add_0_r, app_nil_r.
  - change (S k + fuel)%nat with (S (k + fuel)).
    rewrite fetchPages_full by (apply Hfull; lia).
    rewrite IH by (intros p Hp; apply Hfull; lia).
    simpl. rewrite <- app_assoc. f_equal. lia.
Qed.

Lemma fetchPages_last fuel owner repo token (page : nat) issues :
  Run.last_page fetch owner repo token page ->
  SyncIssues.fetchPages fetch (S fuel) owner repo token page issues
  = Some match fetch (SyncIssues.page_url owner repo page) token with
         | GitHub.Ok _ => Normal (issues ++ Pages.page_issues fetch owner repo token page)%list
         | GitHub.NotOk status statusText _ =>
             Throw (JsError ("GitHub API error: " ++ pretty status ++ " " ++ statusText))
         | GitHub.Rejected e | GitHub.BadBody e => Throw e
         end.
Proof.
  unfold Run.last_page, Pages.page_issues. intros Hlast. rewrite fetchPages_S.
  destruct (fetch (SyncIssues.page_url owner repo page) token) as [| | |data]; try done.
  simpl. by destruct (Nat.ltb_spec (length data) SyncIssues.perPage) as [_|Hge]; [|lia].
Qed.

End Paging.

(** [fetchIssuesFromRepo] pages until the first page that fails
    or is short.  When pages 1 to [k] are full and page [k+1] is the
    last one, the result is the issues of pages 1 to [k+1], page after
    page and in the order of each page, if that last page could be read;
    if it could not, the call throws the error of that page and the
    issues of the [k] pages read before are dropped with it. *)
Theorem fetchIssuesFromRepo_gathers_pages_in_order
    (fetch : string -> string -> GitHub.Response) fuel owner repo token (k : nat) :
  (k < fuel)%nat ->
  (∀ p : nat, (1 ≤ p ≤ k)%nat -> Pages.full_page fetch owner repo token p) ->
  Run.last_page fetch owner repo token (S k) ->
  SyncIssues.fetchIssuesFromRepo fetch fuel owner repo token
  = Some match fetch (SyncIssues.page_url owner repo (S k)) token with
         | GitHub.Ok _ =>
             Normal (concat (map (Pages.page_issues fetch owner repo token) (seq 1 (S k))))
         | GitHub.NotOk status statusText _ =>
             Throw (JsError ("GitHub API error: " ++ pretty status ++ " " ++ statusText))
         | GitHub.Rejected e | GitHub.BadBody e => Throw e
         end.
Proof.
  intros Hfuel Hfull Hlast. unfold SyncIssues.fetchIssuesFromRepo.
  replace fuel with (k + S (fuel - S k))%nat by lia.
  rewrite fetchPages_through by (intros p Hp; apply Hfull; lia).
  replace (1 + k)%nat with (S k) by lia.
  rewrite (fetchPages_last fetch _ _ _ _ _ _ Hlast). f_equal.
  destruct (fetch (SyncIssues.page_url owner repo (S k)) token); try done.
  f_equal. simpl app. rewrite seq_S, map_app, concat_app. simpl. by rewrite app_nil_r.
Qed.

Lemma fetchIssuesFromRepo_gathers_pages_in_order_witness :
  SyncIssues.fetchIssuesFromRepo Pages.broken_second_page 5 "acme" "shop" "ghp_example"
  = Some (Throw (JsError "GitHub API error: 502 Bad Gateway")).
Proof.
  refine (fetchIssuesFromRepo_gathers_pages_in_order Pages.broken_second_page 5
            "acme" "shop" "ghp_example" 1 ltac:(lia) _ _).
  - intros p Hp. replace p with 1%nat by lia. vm_compute. lia.
  - exact I.
Defined.

(** ** The two sync routes *)

Section SyncRoutes.

Variable fetch : string -> string -> GitHub.Response.
Variable new_Date : string -> Z.

Lemma syncIssuesFromGitHub_cases fuel env w x :
  SyncIssues.syncIssuesFromGitHub fetch new_Date fuel env w = Some x ->
  (truthy (GH_TOKEN env) = false
   ∧ x = (Throw (JsError "GH_TOKEN environment variable is not set"), w))
  ∨ (truthy (GH_TOKEN env) = true ∧ truthy (GH_REPOS env) = false
     ∧ x = (Throw (JsError "GH_REPOS environment variable is not set"), w))
  ∨ (truthy (GH_TOKEN env) = true ∧ truthy (GH_REPOS env) = true
     ∧ ∃ result w', x = (Normal result, w')
        ∧ SyncIssues.syncRepos fetch new_Date fuel (default "" (GH_TOKEN env))
            (map trim (split "," (default "" (GH_REPOS env))))
            (SyncIssues.mkSyncResult 0 0 []) w = Some (result, w')).
Proof.
  unfold SyncIssues.syncIssuesFromGitHub.
  destruct (truthy (GH_TOKEN env)); simpl; [|intros [= <-]; by left].
  destruct (truthy (GH_REPOS env)); simpl; [|intros [= <-]; right; by left].
  destruct (SyncIssues.syncRepos _ _ _ _ _ _ _) as [[result w']|] eqn:Hrun; [|discriminate].
  intros [= <-]. right. right. repeat split. by exists result, w'.
Qed.

Lemma syncRepos_finished fuel token repos result w x :
  SyncIssues.syncRepos fetch new_Date fuel token repos result w = Some x ->
  Forall (fun repo => Run.outcome fetch fuel token repo ≠ Run.Unfinished) repos.
Proof.
  revert result w. induction repos as [|repo rest IH]; intros result w; [by constructor|].
  rewrite syncRepos_cons, syncRepo_outcome.
  destruct (Run.outcome fetch fuel token repo) as [|err|issues|] eqn:Hout; try discriminate.
  - intros Hrest. constructor; [by rewrite Hout | by eapply IH].
  - intros Hrest. constructor; [by rewrite Hout | by eapply IH].
  - destruct (SyncIssues.syncEach new_Date repo issues result w) as [r1 w1].
    intros Hrest. constructor; [by rewrite Hout | by eapply IH].
Qed.

End SyncRoutes.

(** The sync route turns only missing configuration into a 500.
    Whenever it answers, the answer is either the 500 for an unset (or
    empty) [GH_TOKEN] or [GH_REPOS], carrying the message that names
    the variable and given before anything is touched, or the 200 with
    ["Sync completed"] and a result in which every repository of
    [GH_REPOS] and every fetched issue is counted in [created],
    [updated] or [errors].  So no failure of GitHub or of the database
    reaches the client as a 500. *)
Theorem sync_route_fails_only_on_configuration
    (fetch : string -> string -> GitHub.Response) (new_Date : string -> Z)
    fuel env w response w' :
  SyncIssuesRoute.POST fetch new_Date fuel env w = Some (response, w') ->
  match response with
  | SyncIssuesRoute.Failure status error =>
      status = 500%Z ∧ w' = w
      ∧ ((truthy (GH_TOKEN env) = false
          ∧ error = "GH_TOKEN environment variable is not set")
         ∨ (truthy (GH_TOKEN env) = true ∧ truthy (GH_REPOS env) = false
            ∧ error = "GH_REPOS environment variable is not set"))
  | SyncIssuesRoute.Completed message result =>
      message = "Sync completed"
      ∧ truthy (GH_TOKEN env) = true ∧ truthy (GH_REPOS env) = true
      ∧ (SyncIssues.created result + SyncIssues.updated result
         + length (SyncIssues.errors result)
         = sum_list (map (fun repo => Run.items
                                        (Run.outcome fetch fuel (default "" (GH_TOKEN env)) repo))
                         (map trim (split "," (default "" (GH_REPOS env))))))%nat
  end.
Proof.
  unfold SyncIssuesRoute.POST.
  destruct (SyncIssues.syncIssuesFromGitHub fetch new_Date fuel env w) as [x|] eqn:Hrun;
    [|discriminate].
  destruct (syncIssuesFromGitHub_cases fetch new_Date fuel env w x Hrun)
    as [(Htoken & ->) | [(Htoken & Hrepos & ->) | (Htoken & Hrepos & result & w1 & -> & Hloop)]].
  - intros [= <- <-]. split; [done|]. split; [done|]. by left.
  - intros [= <- <-]. split; [done|]. split; [done|]. by right.
  - intros [= <- <-]. split; [done|]. split; [done|]. split; [done|].
    destruct (syncRepos_settles fetch new_Date fuel (default "" (GH_TOKEN env))
                (map trim (split "," (default "" (GH_REPOS env))))
                (SyncIssues.mkSyncResult 0 0 []) w
                (syncRepos_finished fetch new_Date _ _ _ _ _ _ Hloop))
      as (result' & w2 & extra & Hsame & _ & _ & _ & Hsettled).
    rewrite Hloop in Hsame. injection Hsame as <- <-. exact Hsettled.
Qed.

Lemma sync_route_fails_only_on_configuration_witness :
  let result := {| SyncIssues.created := 1;
                   SyncIssues.updated := 0;
                   SyncIssues.errors :=
                     [ "Error fetching issues from acme/api: GitHub API error: 503 Service Unavailable";
                       "Error syncing issue #9 from acme/shop: Connection lost" ] |} in
  let w' := mkWorld {[ "0" := Expected.inserted Sample.instant
                                (Sample.remote 7 GitHub.state_open "1700000009000")
                                "acme/shop" ]} [] in
  SyncIssuesRoute.POST Sample.network Sample.instant 3 Sample.env Sample.flaky_store
  = Some (SyncIssuesRoute.Completed "Sync completed" result, w')
  ∧ sum_list (map (fun repo => Run.items (Run.outcome Sample.network 3
                                            (default "" (GH_TOKEN Sample.env)) repo))
                  (map trim (split "," (default "" (GH_REPOS Sample.env))))) = 3%nat.
Proof.
  intros result w'.
  assert (Hpost : SyncIssuesRoute.POST Sample.network Sample.instant 3 Sample.env
                    Sample.flaky_store
                  = Some (SyncIssuesRoute.Completed "Sync completed" result, w')).
  { unfold SyncIssuesRoute.POST. rewrite flaky_run. reflexivity. }
  split; [exact Hpost|].
  destruct (sync_route_fails_only_on_configuration Sample.network Sample.instant 3 Sample.env
              Sample.flaky_store _ _ Hpost) as (_ & _ & _ & Hcount).
  rewrite <- Hcount. reflexivity.
Defined.

(** The route that syncs the issues assigned to one user.  The
    user is the [username] of the body when the body can be read and
    has a truthy one, else the [username] of the query string when it
    is not empty, else the default.  Without a token the answer is the
    500 that names [GH_TOKEN] and nothing is touched.  With a token the
    answer is always the 200: its message names the user, its [total]
    is [created + updated], and when the search on GitHub brings no
    issue, because it failed or because there is none, both counts are
    zero, the table is untouched and [errors] is what the search
    reported: one message for a failed search. *)
Theorem user_route_answers
    (fetch : string -> string -> GitHub.Response) (new_Date : string -> Z)
    env searchParams json w :
  let username := SyncByUserRoute.username_of searchParams json in
  let fetched :=
    FetchUserIssues.fetchUserAssignedIssues fetch username (default "" (GH_TOKEN env)) in
  let out := SyncByUserRoute.POST fetch new_Date env searchParams json w in
  (∀ property, json = Normal (Some property) -> SyncByUserRoute.is_truthy property = true ->
               username = SyncByUserRoute.as_text property)
  ∧ ((json = Normal None ∨ (∃ e, json = Throw e)
      ∨ (∃ property, json = Normal (Some property)
                     ∧ SyncByUserRoute.is_truthy property = false)) ->
     match IssuesRoute.get "username" searchParams with
     | Some name => username = if String.eqb name "" then "ggarciaclip" else name
     | None => username = "ggarciaclip"
     end)
  ∧ (truthy (GH_TOKEN env) = false ->
     out = (SyncByUserRoute.Failure 500 "GH_TOKEN environment variable is not set", w))
  ∧ (truthy (GH_TOKEN env) = true ->
     ∃ created updated errors w',
       out = (SyncByUserRoute.Synced ("Synced issues assigned to " ++ username)
                created updated (created + updated) errors, w')
       ∧ (FetchUserIssues.issues fetched = [] ->
          created = 0%nat ∧ updated = 0%nat ∧ w' = w
          ∧ errors = FetchUserIssues.errors fetched)
       ∧ ((∀ items, fetch ("https://api.github.com/search/issues?q="
                           ++ encodeURIComponent ("assignee:" ++ username ++ " is:issue is:open")
                           ++ "&sort=updated&order=desc&per_page=100")
                          (default "" (GH_TOKEN env)) ≠ GitHub.Ok items) ->
          FetchUserIssues.issues fetched = [] ∧ length (FetchUserIssues.errors fetched) = 1%nat)).
Proof.
  intros username fetched out. split; [|split; [|split]].
  - intros property -> Htruthy. unfold username, SyncByUserRoute.username_of.
    by rewrite Htruthy.
  - intros Hbody.
    assert (Hname : username = or_default (IssuesRoute.get "username" searchParams)
                                 SyncByUserRoute.DEFAULT_USERNAME).
    { unfold username, SyncByUserRoute.username_of.
      destruct Hbody as [-> | [(e & ->) | (property & -> & Hfalsy)]]; try done.
      by rewrite Hfalsy. }
    rewrite Hname. by destruct (IssuesRoute.get "username" searchParams).
  - intros Htoken. unfold out, SyncByUserRoute.POST, FetchUserIssues.syncUserAssignedIssues.
    by rewrite Htoken.
  - intros Htoken.
    assert (Hrun : ∃ result w' messages,
              FetchUserIssues.syncUserAssignedIssues fetch new_Date env username w
              = (Normal result, w')
              ∧ FetchUserIssues.failed result = (FetchUserIssues.errors fetched ++ messages)%list
              ∧ (FetchUserIssues.created result + FetchUserIssues.updated result
                 = length (FetchUserIssues.synced result))%nat
              ∧ (length (FetchUserIssues.synced result) + length messages
                 = length (FetchUserIssues.issues fetched))%nat).
    { unfold FetchUserIssues.syncUserAssignedIssues. rewrite Htoken. simpl negb. cbv iota.
      fold fetched.
      destruct (user_syncEach_accounts new_Date (FetchUserIssues.issues fetched)
                  (FetchUserIssues.mkUserSyncResult 0 0 [] (FetchUserIssues.errors fetched)) w)
        as (records & messages & Hs & Hf & Hc & Hl & _ & _).
      destruct (FetchUserIssues.syncEach new_Date _ _ w) as [result w'].
      simpl in Hs, Hf, Hc. subst records. by exists result, w', messages. }
    destruct Hrun as (result & w' & messages & Hrun & Hf & Hc & Hl).
    exists (FetchUserIssues.created result), (FetchUserIssues.updated result),
           (FetchUserIssues.failed result), w'.
    split; [|split].
    + unfold out, SyncByUserRoute.POST. fold username. rewrite Hrun. by rewrite Hc.
    + intros Hnone. rewrite Hnone in Hl. simpl in Hl.
      assert (Hsynced : FetchUserIssues.synced result = [])
        by (apply length_zero_iff_nil; lia).
      assert (Hmessages : messages = []) by (apply length_zero_iff_nil; lia).
      rewrite Hsynced in Hc. simpl in Hc.
      split; [lia|]. split; [lia|]. split.
      * unfold FetchUserIssues.syncUserAssignedIssues in Hrun.
        rewrite Htoken in Hrun. simpl in Hrun. fold fetched in Hrun.
        rewrite Hnone in Hrun. simpl in Hrun. by injection Hrun as _ <-.
      * by rewrite Hf, Hmessages, app_nil_r.
    + intros Hfail. unfold fetched, FetchUserIssues.fetchUserAssignedIssues.
      destruct (fetch _ _) as [e|status statusText errorText|e|items] eqn:Hfetch; try done.
      by destruct (Hfail items).
Qed.

Lemma user_route_answers_witness :
  truthy (GH_TOKEN Sample.env) = true
  ∧ ∃ created updated errors w',
      SyncByUserRoute.POST SampleUser.search Sample.instant Sample.env
        [("username", "octocat")] (Throw (JsError "Unexpected end of JSON input"))
        SampleUser.flaky_store
      = (SyncByUserRoute.Synced "Synced issues assigned to octocat"
           created updated (created + updated) errors, w').
Proof.
  split; [reflexivity|].
  destruct (proj2 (proj2 (proj2
              (user_route_answers SampleUser.search Sample.instant Sample.env
                 [("username", "octocat")] (Throw (JsError "Unexpected end of JSON input"))
                 SampleUser.flaky_store))) eq_refl)
    as (created & updated & errors & w' & Hout & _).
  by exists created, updated, errors, w'.
Defined.

(** ** The components *)

Lemma canStart_spec r :
  IssueCard.canStart r = true <-> workflowStatus r = pending ∧ statusGithub r = open.
Proof.
  unfold IssueCard.canStart. rewrite andb_true_iff, !bool_decide_eq_true. done.
Qed.

Lemma POST_error_nonempty id json w status error :
  (StartRoute.POST id json w).1 = StartRoute.Failure status error -> error ≠ "".
Proof.
  intros Hout.
  destruct (POST_failure id json w status error Hout)
    as (_ & [(_ & ->) | [(_ & -> & _) | [(_ & -> & _) | [(_ & -> & _) | (_ & ->)]]]]); done.
Qed.

(** The Start button and the start route agree.  A card whose
    issue is not pending and open sends nothing.  Otherwise an empty
    context is refused by the route with its 400 message; and with a
    context, when the card shows the row as it is stored and the
    database answers, the row is started with that context and with the
    trimmed prompt, or no prompt when it is blank, the card gets the
    started row, and that row can not be started again.  Whatever
    happens, an error shown is one of the messages of the route. *)
Theorem card_start_agrees_with_route id r context text w :
  let out := IssueCard.handleStart (id, r) context text w in
  (IssueCard.canStart r = false -> out = (IssueCard.Nothing, w))
  ∧ (IssueCard.canStart r = true -> context = "" ->
     out = (IssueCard.Error "selectedContext is required", w))
  ∧ (IssueCard.canStart r = true -> context ≠ "" -> calm 2 w -> table w !! id = Some r ->
     ∃ r' w',
       out = (IssueCard.Updated (id, r'), w')
       ∧ table w' = <[id := r']> (table w)
       ∧ r' = Expected.started context (Some (trim text)) r
       ∧ workflowStatus r' = in_process
       ∧ selectedContext r' = Some context
       ∧ prompt r' = (if String.eqb (trim text) "" then None else Some (trim text))
       ∧ IssueCard.canStart r' = false)
  ∧ (∀ message, out.1 = IssueCard.Error message ->
       table out.2 = table w
       ∧ message ∈ ["selectedContext is required"; "Issue not found";
                    "Cannot start a closed issue"; "Issue is already in process or ended";
                    "Failed to start issue"]).
Proof.
  intros out. unfold out, IssueCard.handleStart. cbn [fst snd].
  split; [|split; [|split]].
  - by intros ->.
  - intros -> ->. simpl. reflexivity.
  - intros Hcan Hne Hcalm Hid. rewrite Hcan. simpl.
    apply canStart_spec in Hcan as [Hwf Hgh].
    unfold StartRoute.POST.
    rewrite (start_found id (IssueCard.request_body context text) context w Hcalm eq_refl Hne),
      Hid.
    rewrite !bool_decide_eq_true_2 by done. simpl.
    assert (Hrow : Expected.started context
                     (if String.eqb (trim text) "" then None else Some (trim text)) r
                   = Expected.started context (Some (trim text)) r).
    { unfold Expected.started. f_equal. simpl.
      destruct (String.eqb_spec (trim text) "") as [->|Hp]; [done|].
      simpl. by destruct (String.eqb_spec (trim text) ""). }
    rewrite Hrow. eexists _, _. split; [reflexivity|]. split; [reflexivity|].
    split; [reflexivity|]. split; [reflexivity|]. split; [reflexivity|]. split.
    + simpl. by destruct (String.eqb_spec (trim text) "").
    + unfold IssueCard.canStart. simpl. done.
  - intros message. destruct (IssueCard.canStart r); cbn [negb]; [|discriminate].
    destruct (StartRoute.POST id _ w) as [[updated|status error] w'] eqn:Hpost;
      cbn [fst snd]; [discriminate|].
    pose proof (POST_failure id (Normal (IssueCard.request_body context text)) w
                  status error) as Hfail.
    rewrite Hpost in Hfail. simpl in Hfail. specialize (Hfail eq_refl).
    destruct Hfail as [Hsame Hwhich].
    assert (Herr : or_default (Some error) "Failed to start issue" = error).
    { simpl. destruct (String.eqb_spec error "") as [->|]; [|done].
      destruct Hwhich as [(_ & ?) | [(_ & ? & _) | [(_ & ? & _) | [(_ & ? & _) | (_ & ?)]]]];
        done. }
    rewrite Herr. intros [= <-]. split; [done|].
    destruct Hwhich as [(_ & ->) | [(_ & -> & _) | [(_ & -> & _) | [(_ & -> & _) | (_ & ->)]]]];
      rewrite !elem_of_cons; auto 10.
Qed.

Lemma card_start_agrees_with_route_witness :
  ∃ r' w',
    IssueCard.handleStart ("c7", Sample.local 7 open pending)
      (IssueCard.initial_context (IssueCard.getServiceOptions None)) "  "
      (Sample.store open pending)
    = (IssueCard.Updated ("c7", r'), w')
    ∧ workflowStatus r' = in_process
    ∧ selectedContext r' = Some "default"
    ∧ prompt r' = None.
Proof.
  destruct (proj1 (proj2 (proj2
              (card_start_agrees_with_route "c7" (Sample.local 7 open pending)
                 "default" "  " (Sample.store open pending))))
              eq_refl ltac:(discriminate) ltac:(calm_now) eq_refl)
    as (r' & w' & Hout & _ & _ & Hwf & Hctx & Hprompt & _).
  exists r', w'. split; [exact Hout|]. split; [exact Hwf|]. split; [exact Hctx|].
  exact Hprompt.
Defined.

(** ** Strings *)

Lemma split_not_nil sep s : split sep s ≠ [].
Proof. destruct s as [|c s]; simpl; [done|]. destruct (Ascii.eqb c sep); [done|]. by destruct (split sep s). Qed.

Lemma join_cons sep piece pieces :
  pieces ≠ [] -> Text.join sep (piece :: pieces) = piece ++ String sep (Text.join sep pieces).
Proof. by destruct pieces. Qed.

Lemma join_split sep s : Text.join sep (split sep s) = s.
Proof.
  induction s as [|c s IH]; [done|]. simpl.
  destruct (Ascii.eqb_spec c sep) as [->|Hne].
  - rewrite join_cons by apply split_not_nil. simpl. by rewrite IH.
  - pose proof (split_not_nil sep s) as Hnil.
    destruct (split sep s) as [|piece pieces]; [done|].
    destruct pieces as [|p ps]; simpl in *; by rewrite <- IH.
Qed.

Lemma length_split sep s : length (split sep s) = S (Text.occurrences sep s).
Proof.
  induction s as [|c s IH]; [done|]. simpl.
  destruct (Ascii.eqb c sep); simpl; [by rewrite IH|].
  pose proof (split_not_nil sep s) as Hnil.
  destruct (split sep s) as [|piece pieces]; [done|]. simpl in *. lia.
Qed.

Lemma split_pieces sep s : Forall (fun piece => Text.occurrences sep piece = 0%nat) (split sep s).
Proof.
  induction s as [|c s IH]; simpl; [by repeat constructor|].
  destruct (Ascii.eqb c sep) eqn:Hc; [by constructor|].
  pose proof (split_not_nil sep s) as Hnil.
  destruct (split sep s) as [|piece pieces]; [done|].
  apply Forall_cons in IH as [Hp Hps]. constructor; [|done]. simpl. by rewrite Hc.
Qed.

Lemma split_no_sep sep s : Text.occurrences sep s = 0%nat -> split sep s = [s].
Proof.
  induction s as [|c s IH]; [done|]. simpl.
  destruct (Ascii.eqb c sep); [done|]. intros H. by rewrite IH.
Qed.

Lemma split_app sep piece s :
  Text.occurrences sep piece = 0%nat ->
  split sep (piece ++ String sep s) = piece :: split sep s.
Proof.
  induction piece as [|c piece IH]; simpl.
  - by rewrite Ascii.eqb_refl.
  - destruct (Ascii.eqb c sep); [done|]. intros H. by rewrite IH.
Qed.

Lemma split_join sep pieces :
  pieces ≠ [] -> Forall (fun piece => Text.occurrences sep piece = 0%nat) pieces ->
  split sep (Text.join sep pieces) = pieces.
Proof.
  induction pieces as [|piece pieces IH]; [done|]. intros _ [Hp Hps]%Forall_cons.
  destruct pieces as [|p ps].
  - by apply split_no_sep.
  - rewrite join_cons by done. rewrite split_app by done. by rewrite IH.
Qed.

Lemma occurrences_drop_bytes c n s :
  (Text.occurrences c (drop_bytes n s) ≤ Text.occurrences c s)%nat.
Proof.
  revert s. induction n as [|n IH]; intros s; [by destruct s|].
  destruct s as [|d s]; simpl; [done|]. specialize (IH s). lia.
Qed.

Lemma occurrences_trimStart_fuel c fuel s :
  (Text.occurrences c (trimStart_fuel fuel s) ≤ Text.occurrences c s)%nat.
Proof.
  revert s. induction fuel as [|fuel IH]; intros s; cbn [trimStart_fuel]; [done|].
  destruct (ws_head s) as [|n]; [done|].
  etrans; [apply IH | apply occurrences_drop_bytes].
Qed.

Lemma occurrences_trimEnd c s :
  (Text.occurrences c (trimEnd s) ≤ Text.occurrences c s)%nat.
Proof.
  induction s as [|d s IH]; [done|].
  cbn [trimEnd]. destruct (trimStart (String d s)); simpl; lia.
Qed.

Lemma occurrences_trim c s : (Text.occurrences c (trim s) ≤ Text.occurrences c s)%nat.
Proof.
  unfold trim, trimStart. etrans; [apply occurrences_trimEnd | apply occurrences_trimStart_fuel].
Qed.

(** A list written with commas, each entry possibly padded with white
    space, reads back as the list of its entries. *)
Lemma comma_list_reads_back padded names :
  padded ≠ [] ->
  Forall2 (fun p n => Text.occurrences "," p = 0%nat ∧ trim p = n) padded names ->
  map trim (split "," (Text.join "," padded)) = names.
Proof.
  intros Hnil Hall. rewrite split_join; [|done|].
  - clear Hnil. induction Hall as [|p n ps ns [_ Hp] _ IH]; [done|]. simpl. by rewrite Hp, IH.
  - clear Hnil. induction Hall as [|p n ps ns [Hp _] _ IH]; by constructor.
Qed.

(** The contexts a card offers.  There is always at least one
    option.  With [NEXT_PUBLIC_SERVICES] unset or empty it is the one
    option [default]; otherwise there is one option per comma-separated
    entry, each with its label equal to its value and no comma in it,
    and a list written with commas, padded with white space or not,
    reads back entry by entry. *)
Theorem service_options_read_back env :
  let options := IssueCard.getServiceOptions env in
  options ≠ []
  ∧ (truthy env = false ->
     options = [ {| IssueCard.value := "default"; IssueCard.label := "default" |} ]
     ∧ IssueCard.initial_context options = "default")
  ∧ (∀ s, env = Some s -> s ≠ "" -> length options = S (Text.occurrences "," s))
  ∧ (∀ o, o ∈ options ->
       IssueCard.label o = IssueCard.value o
       ∧ Text.occurrences "," (IssueCard.value o) = 0%nat)
  ∧ (∀ padded names,
       env = Some (Text.join "," padded) -> Text.join "," padded ≠ "" ->
       Forall2 (fun p n => Text.occurrences "," p = 0%nat ∧ trim p = n) padded names ->
       map IssueCard.value options = names).
Proof.
  intros options. unfold options, IssueCard.getServiceOptions.
  split; [|split; [|split; [|split]]].
  - destruct (String.eqb _ _); [done|].
    pose proof (split_not_nil "," (or_default env "")) as Hnil.
    by destruct (split "," (or_default env "")).
  - intros Hfalsy.
    assert (Hempty : or_default env "" = "").
    { destruct env as [s|]; [|done]. simpl in *. by destruct (String.eqb s ""). }
    by rewrite Hempty.
  - intros s -> Hs. simpl. destruct (String.eqb_spec s "") as [|_]; [done|].
    destruct (String.eqb_spec s "") as [|_]; [done|].
    by rewrite length_map, length_split.
  - intros o. destruct (String.eqb _ _).
    + by intros ->%list_elem_of_singleton.
    + intros (piece & -> & Hin)%list_elem_of_fmap. split; [done|]. simpl.
      pose proof (split_pieces "," (or_default env "")) as Hpieces.
      rewrite Forall_forall in Hpieces. specialize (Hpieces piece Hin).
      pose proof (occurrences_trim "," piece). lia.
  - intros padded names -> Hne Hall. simpl.
    destruct (String.eqb_spec (Text.join "," padded) "") as [|_]; [done|].
    destruct (String.eqb_spec (Text.join "," padded) "") as [|_]; [done|].
    rewrite <- list_fmap_compose.
    apply comma_list_reads_back; [|done]. by intros ->.
Qed.

Lemma service_options_read_back_witness :
  map IssueCard.value (IssueCard.getServiceOptions (Some "buyer3, checkout_api,ledger"))
  = ["buyer3"; "checkout_api"; "ledger"].
Proof.
  refine (proj2 (proj2 (proj2 (proj2
            (service_options_read_back (Some "buyer3, checkout_api,ledger")))))
            ["buyer3"; " checkout_api"; "ledger"] _ eq_refl _ _).
  - discriminate.
  - repeat constructor.
Defined.

(** [GH_REPOS] is read as a comma-separated list: when it is
    written as the entries [padded] joined with commas, each entry
    free of commas and possibly padded with white space, the run is the
    loop over the trimmed entries, in their order. *)
Theorem repository_list_reads_back
    (fetch : string -> string -> GitHub.Response) (new_Date : string -> Z)
    fuel env w padded names :
  truthy (GH_TOKEN env) = true ->
  GH_REPOS env = Some (Text.join "," padded) -> Text.join "," padded ≠ "" ->
  Forall2 (fun p n => Text.occurrences "," p = 0%nat ∧ trim p = n) padded names ->
  SyncIssues.syncIssuesFromGitHub fetch new_Date fuel env w
  = match SyncIssues.syncRepos fetch new_Date fuel (default "" (GH_TOKEN env)) names
            (SyncIssues.mkSyncResult 0 0 []) w with
    | None => None
    | Some (result, w') => Some (Normal result, w')
    end.
Proof.
  intros Htoken Hrepos Hne Hall. unfold SyncIssues.syncIssuesFromGitHub.
  rewrite Htoken, Hrepos. simpl.
  destruct (String.eqb_spec (Text.join "," padded) "") as [|_]; [done|]. simpl.
  rewrite (comma_list_reads_back padded names); [done | by intros -> | done].
Qed.

Lemma repository_list_reads_back_witness :
  SyncIssues.syncIssuesFromGitHub Sample.network Sample.instant 3 Sample.env Sample.flaky_store
  = match SyncIssues.syncRepos Sample.network Sample.instant 3 "ghp_example"
            ["acme/api"; "acme/shop"] (SyncIssues.mkSyncResult 0 0 []) Sample.flaky_store with
    | None => None
    | Some (result, w') => Some (Normal result, w')
    end.
Proof.
  refine (repository_list_reads_back Sample.network Sample.instant 3 Sample.env
            Sample.flaky_store ["acme/api"; " acme/shop"] ["acme/api"; "acme/shop"]
            eq_refl eq_refl _ _).
  - discriminate.
  - repeat constructor.
Defined.

(** How an entry of the repository list is read.  An entry is
    cut at its slashes; with no slash, or nothing before the first or
    between the first two, it is reported as an invalid format and no
    request is made.  Otherwise the issues are fetched for the first two
    pieces as owner and name, whatever follows a second slash, while
    errors and rows carry the entry as it is written. *)
Theorem repository_entry_format
    (fetch : string -> string -> GitHub.Response) (new_Date : string -> Z)
    fuel token pieces result w :
  pieces ≠ [] ->
  Forall (fun piece => Text.occurrences "/" piece = 0%nat) pieces ->
  let repo := Text.join "/" pieces in
  SyncIssues.syncRepo fetch new_Date fuel token repo result w
  = match pieces with
    | owner :: name :: _ =>
        if String.eqb owner "" || String.eqb name "" then
          Some (SyncIssues.push_error ("Invalid repo format: " ++ repo) result, w)
        else
          match SyncIssues.fetchIssuesFromRepo fetch fuel owner name token with
          | None => None
          | Some (Normal issues) => Some (SyncIssues.syncEach new_Date repo issues result w)
          | Some (Throw err) =>
              Some (SyncIssues.push_error
                      ("Error fetching issues from " ++ repo ++ ": " ++ message_of err)
                      result, w)
          end
    | _ => Some (SyncIssues.push_error ("Invalid repo format: " ++ repo) result, w)
    end.
Proof.
  intros Hnil Hpieces repo. unfold SyncIssues.syncRepo. cbv zeta.
  replace (split "/" repo) with pieces by (symmetry; by apply split_join).
  generalize repo. clear repo. intros repo.
  destruct pieces as [|owner [|name more]]; [done | |]; simpl.
  - by destruct (String.eqb owner "").
  - destruct (String.eqb owner ""); simpl; [done|].
    by destruct (String.eqb name "").
Qed.

Lemma repository_entry_format_witness :
  SyncIssues.syncRepo Sample.network Sample.instant 3 "ghp_example" "acme/shop/issues"
    (SyncIssues.mkSyncResult 0 0 []) Sample.empty_store
  = match SyncIssues.fetchIssuesFromRepo Sample.network 3 "acme" "shop" "ghp_example" with
    | None => None
    | Some (Normal issues) =>
        Some (SyncIssues.syncEach Sample.instant "acme/shop/issues" issues
                (SyncIssues.mkSyncResult 0 0 []) Sample.empty_store)
    | Some (Throw err) =>
        Some (SyncIssues.push_error
                ("Error fetching issues from acme/shop/issues: " ++ message_of err)
                (SyncIssues.mkSyncResult 0 0 []), Sample.empty_store)
    end.
Proof.
  refine (repository_entry_format Sample.network Sample.instant 3 "ghp_example"
            ["acme"; "shop"; "issues"] (SyncIssues.mkSyncResult 0 0 []) Sample.empty_store _ _).
  - discriminate.
  - repeat constructor.
Defined.

(** ** Reading the repository off an API URL *)

Lemma dot_plus_nonempty rest :
  (negb (String.eqb rest "") && dot_plus_to_end rest) = true -> rest ≠ "".
Proof. intros H ->. done. Qed.

Lemma strip_prefix_Some p s rest : strip_prefix p s = Some rest -> s = p ++ rest.
Proof.
  revert s. induction p as [|a p IH]; intros s; simpl; [by intros [= ->]|].
  destruct s as [|b s]; [done|].
  destruct (Ascii.eqb_spec a b) as [<-|]; [|done]. by intros ->%IH.
Qed.

Lemma strip_prefix_app p rest : strip_prefix p (p ++ rest) = Some rest.
Proof. induction p as [|a p IH]; simpl; [done|]. by rewrite Ascii.eqb_refl. Qed.

Lemma match_repos_suffix s group :
  match_repos s = Some group -> ∃ before, s = before ++ group ∧ group ≠ "".
Proof.
  induction s as [|c s IH]; [done|]. cbn [match_repos].
  assert (Hrest : match_repos s = Some group ->
                  ∃ before, String c s = before ++ group ∧ group ≠ "").
  { intros (before & -> & Hne)%IH. by exists (String c before). }
  destruct (strip_prefix "repos/" (String c s)) as [rest|] eqn:Hstrip; [|exact Hrest].
  destruct (negb (String.eqb rest "") && dot_plus_to_end rest) eqn:Hok; [|exact Hrest].
  intros [= <-]. exists ("repos/" : string). split; [|by eapply dot_plus_nonempty].
  by apply strip_prefix_Some.
Qed.

Lemma match_repos_skip c s :
  strip_prefix "repos/" (String c s) = None -> match_repos (String c s) = match_repos s.
Proof. intros H. cbn [match_repos]. by rewrite H. Qed.

Lemma extractRepoFromUrl_api name :
  name ≠ "" -> dot_plus_to_end name = true ->
  extractRepoFromUrl ("https://api.github.com/repos/" ++ name) = name.
Proof.
  intros Hne Hline. unfold extractRepoFromUrl.
  assert (Hhere : match_repos ("repos/" ++ name) = Some name).
  { change ("repos/" ++ name) with (String "r" ("epos/" ++ name)).
    cbn [match_repos].
    change (String "r" ("epos/" ++ name)) with ("repos/" ++ name).
    rewrite strip_prefix_app, Hline.
    by destruct (String.eqb_spec name ""). }
  unfold String.app. cbn [String.append].
  repeat (rewrite match_repos_skip by reflexivity).
  change (String "r" (String "e" (String "p" (String "o" (String "s" (String "/" name))))))
    with ("repos/" ++ name).
  by rewrite Hhere.
Qed.

(** [extractRepoFromUrl] on the [repository_url] of the API: for
    a URL that is the API prefix followed by a non-empty name written
    on one line, the result is that name; whatever the argument, the
    result is the end of it, and the argument itself when nothing can
    be extracted; and it is empty only for the empty argument. *)
Theorem extractRepoFromUrl_reads_api_url :
  (∀ name, name ≠ "" -> dot_plus_to_end name = true ->
           extractRepoFromUrl ("https://api.github.com/repos/" ++ name) = name)
  ∧ (∀ repoUrl, ∃ before, repoUrl = before ++ extractRepoFromUrl repoUrl)
  ∧ (∀ repoUrl, match_repos repoUrl = None -> extractRepoFromUrl repoUrl = repoUrl)
  ∧ (∀ repoUrl, repoUrl ≠ "" -> extractRepoFromUrl repoUrl ≠ "").
Proof.
  split; [|split; [|split]].
  - intros name Hne Hline. by apply extractRepoFromUrl_api.
  - intros repoUrl. unfold extractRepoFromUrl.
    destruct (match_repos repoUrl) as [group|] eqn:Hmatch.
    + destruct (match_repos_suffix _ _ Hmatch) as (before & Heq & _). by exists before.
    + by exists "".
  - intros repoUrl Hnone. unfold extractRepoFromUrl. by rewrite Hnone.
  - intros repoUrl Hne. unfold extractRepoFromUrl.
    destruct (match_repos repoUrl) as [group|] eqn:Hmatch; [|done].
    by destruct (match_repos_suffix _ _ Hmatch) as (before & _ & Hgroup).
Qed.

Lemma extractRepoFromUrl_reads_api_url_witness :
  extractRepoFromUrl ("https://api.github.com/repos/" ++ "acme/shop") = "acme/shop".
Proof.
  refine (proj1 extractRepoFromUrl_reads_api_url "acme/shop" _ eq_refl). discriminate.
Defined.

(** The two sync paths meet on the same row.  For an issue whose
    [repository_url] is the API URL of [name], one turn of the user
    loop leaves the store as the reconciliation of the repository path
    for [name] does; so an issue that the repository sync has already
    mirrored is refreshed in place and never stored a second time. *)
Theorem user_sync_never_duplicates_a_mirrored_issue
    (new_Date : string -> Z) issue name w id r result :
  GitHub.repository_url issue = "https://api.github.com/repos/" ++ name ->
  name ≠ "" -> dot_plus_to_end name = true ->
  Prisma.lookup_key (GitHub.number issue) name (table w) = Some (id, r) ->
  let w' := (FetchUserIssues.syncEach new_Date [issue] result w).2 in
  w' = (SyncIssues.syncIssue new_Date issue name w).2
  ∧ dom (table w') = dom (table w)
  ∧ (table w' = table w
     ∨ table w' = <[id := Expected.refreshed new_Date issue (Expected.merged issue r) r]>
                    (table w)).
Proof.
  intros Hurl Hne Hline Hkey w'.
  assert (Hw' : w' = (SyncIssues.syncIssue new_Date issue name w).2).
  { unfold w'. rewrite user_syncEach_one_world, Hurl.
    rewrite (extractRepoFromUrl_api name Hne Hline).
    by rewrite sync_paths_same_run. }
  split; [exact Hw'|]. rewrite Hw'.
  destruct (lookup_key_Some _ _ _ _ _ Hkey) as (Hid & _).
  destruct (syncIssue_effect new_Date issue name w)
    as [-> | [(Hnone & _) | (id' & r' & Hkey' & ->)]].
  - split; [done | by left].
  - congruence.
  - rewrite Hkey in Hkey'. injection Hkey' as <- <-.
    split; [|by right]. apply dom_insert_lookup_L. by eexists.
Qed.

Lemma user_sync_never_duplicates_a_mirrored_issue_witness :
  let issue := Sample.remote 7 GitHub.state_open "1700000009000" in
  let w' := (FetchUserIssues.syncEach Sample.instant [issue]
               (FetchUserIssues.mkUserSyncResult 0 0 [] []) (Sample.store open in_process)).2 in
  dom (table w') = dom (table (Sample.store open in_process)).
Proof.
  intros issue w'.
  refine (proj1 (proj2 (user_sync_never_duplicates_a_mirrored_issue Sample.instant issue
                          "acme/shop" (Sample.store open in_process) "c7"
                          (Sample.local 7 open in_process)
                          (FetchUserIssues.mkUserSyncResult 0 0 [] []) eq_refl _ eq_refl _))).
  - discriminate.
  - vm_compute. reflexivity.
Defined.

(** ** The query of the search request *)

Lemma hex_digit_unreserved (n : nat) : (n < 16)%nat -> unreserved (hex_digit n) = true.
Proof. intros Hn. do 16 (destruct n as [|n]; [reflexivity|]). lia. Qed.

Lemma hex_digit_inj (n m : nat) :
  (n < 16)%nat -> (m < 16)%nat -> hex_digit n = hex_digit m -> n = m.
Proof.
  intros Hn Hm Heq.
  assert (Hval : ∀ k : nat, (k < 16)%nat ->
            k = (let b := byte (hex_digit k) in if (b <? 58)%nat then b - 48 else b - 55)%nat).
  { intros k Hk. do 16 (destruct k as [|k]; [reflexivity|]). lia. }
  rewrite (Hval n Hn), (Hval m Hm). by rewrite Heq.
Qed.

Lemma byte_bound c : (byte c < 256)%nat.
Proof. apply nat_ascii_bounded. Qed.

Lemma byte_inj c d : byte c = byte d -> c = d.
Proof.
  intros H. rewrite <- (ascii_nat_embedding c), <- (ascii_nat_embedding d).
  unfold byte in H. by rewrite H.
Qed.

Lemma encodeURIComponent_reserved c s :
  unreserved c = false -> c ≠ "%"%char ->
  Text.occurrences c (encodeURIComponent s) = 0%nat.
Proof.
  intros Hc Hpercent. induction s as [|d s IH]; [done|]. cbn [encodeURIComponent].
  destruct (unreserved d) eqn:Hd; cbn [Text.occurrences].
  - destruct (Ascii.eqb_spec d c) as [->|_]; [congruence | by rewrite IH].
  - rewrite IH.
    destruct (Ascii.eqb_spec "%" c) as [<-|_]; [done|].
    destruct (Ascii.eqb_spec (hex_digit (byte d / 16)) c) as [<-|_].
    { rewrite hex_digit_unreserved in Hc; [done|].
      pose proof (byte_bound d). apply Nat.Div0.div_lt_upper_bound. lia. }
    destruct (Ascii.eqb_spec (hex_digit (byte d mod 16)) c) as [<-|_].
    { rewrite hex_digit_unreserved in Hc; [done|]. apply Nat.mod_upper_bound. lia. }
    done.
Qed.

Lemma encodeURIComponent_inj s t :
  encodeURIComponent s = encodeURIComponent t -> s = t.
Proof.
  revert t. induction s as [|c s IH]; intros [|d t]; cbn [encodeURIComponent].
  - done.
  - by destruct (unreserved d).
  - by destruct (unreserved c).
  - destruct (unreserved c) eqn:Hc, (unreserved d) eqn:Hd.
    + intros [= -> Hrest]. by rewrite (IH t Hrest).
    + intros [= -> _]. done.
    + intros [= <- _]. done.
    + intros [= Hhi Hlo Hrest].
      change (hex_digit (byte c / 16) = hex_digit (byte d / 16)) in Hhi.
      change (hex_digit (byte c mod 16) = hex_digit (byte d mod 16)) in Hlo.
      pose proof (byte_bound c). pose proof (byte_bound d).
      apply hex_digit_inj in Hhi;
        [| apply Nat.Div0.div_lt_upper_bound; lia | apply Nat.Div0.div_lt_upper_bound; lia].
      apply hex_digit_inj in Hlo; [| apply Nat.mod_upper_bound; lia..].
      assert (Hbyte : byte c = byte d).
      { rewrite (Nat.div_mod_eq (byte c) 16), (Nat.div_mod_eq (byte d) 16). lia. }
      apply byte_inj in Hbyte as ->. by rewrite (IH t Hrest).
Qed.

Lemma encodeURIComponent_unreserved s :
  Text.all unreserved s = true -> encodeURIComponent s = s.
Proof.
  induction s as [|c s IH]; [done|]. cbn [Text.all encodeURIComponent].
  intros [Hc Hs]%andb_prop. rewrite Hc. by rewrite IH.
Qed.

(** What [encodeURIComponent] does to the query of the search
    request: the result has none of the characters that structure a URL
    (only letters, digits, [- _ . ! ~ * ' ( )] and [%] occur), so a
    user name cannot add a parameter to the request; a text made of
    unreserved characters only is left as it is; and two different
    texts never give the same result. *)
Theorem encodeURIComponent_is_safe_and_faithful :
  (∀ c s, unreserved c = false -> c ≠ "%"%char ->
          Text.occurrences c (encodeURIComponent s) = 0%nat)
  ∧ (∀ s, Text.occurrences "&" (encodeURIComponent s) = 0%nat
          ∧ Text.occurrences "=" (encodeURIComponent s) = 0%nat
          ∧ Text.occurrences "#" (encodeURIComponent s) = 0%nat
          ∧ Text.occurrences "?" (encodeURIComponent s) = 0%nat
          ∧ Text.occurrences "/" (encodeURIComponent s) = 0%nat
          ∧ Text.occurrences " " (encodeURIComponent s) = 0%nat)
  ∧ (∀ s, Text.all unreserved s = true -> encodeURIComponent s = s)
  ∧ (∀ s t, encodeURIComponent s = encodeURIComponent t -> s = t).
Proof.
  split; [exact encodeURIComponent_reserved|]. split; [|split].
  - intros s. repeat split; by apply encodeURIComponent_reserved.
  - exact encodeURIComponent_unreserved.
  - exact encodeURIComponent_inj.
Qed.

(** ** Decimal numerals *)













(** ** Walking the pages *)



Section Walk.

Variable findMany_irregular : number -> number -> list Stored -> Completion (list Stored).



End Walk.



(** ** The list component *)

Lemma matching_no_filter (t : gmap string Issue) :
  Prisma.matching (IssuesRoute.where_of []) t = map_to_list t.
Proof.
  unfold Prisma.matching. induction (map_to_list t) as [|x l IH]; [done|].
  simpl. by rewrite IH.
Qed.

(** What the list component loads.  It asks for the issues with
    no query string, so when the database answers it holds the first
    twenty rows of the whole table in the order of the route, and the
    pagination of page 1 with limit 20, whose [total] is the size of
    the table; rows beyond the twentieth are not loaded.  When the
    database fails it holds the message ["Failed to fetch issues"].
    Loading never changes the table. *)
Theorem issue_list_loads_first_twenty fmi w :
  (calm 2 w ->
   ∃ c w',
     IssueList.fetchIssues fmi w
     = (IssueList.Loaded (take 20 (Prisma.ordered (map_to_list (table w))))
          {| IssuesRoute.page := Int 1; IssuesRoute.limit := Int 20;
             IssuesRoute.total := size (table w); IssuesRoute.totalPages := Int c |}, w')
     ∧ ((c - 1) * 20 < Z.of_nat (size (table w)) ≤ c * 20)%Z
     ∧ length (take 20 (Prisma.ordered (map_to_list (table w)))) = (20 `min` size (table w))%nat)
  ∧ (∀ e later, faults w = Some e :: later
                ∨ (∃ first, faults w = first :: Some e :: later ∧ first = None) ->
       (IssueList.fetchIssues fmi w).1 = IssueList.Failed "Failed to fetch issues")
  ∧ table (IssueList.fetchIssues fmi w).2 = table w.
Proof.
  split; [|split].
  - intros Hcalm.
    destruct (listing_window fmi [] w 1 20 Hcalm eq_refl eq_refl ltac:(lia) ltac:(lia))
      as (issues & c & w' & Hget & -> & _ & Hlen & Hc & _ & _).
    cbv zeta in Hget, Hlen, Hc.
    rewrite !matching_no_filter in Hget, Hlen, Hc.
    assert (Hsize : @length Stored (map_to_list (table w)) = size (table w))
      by apply length_map_to_list.
    rewrite !Hsize in Hget, Hlen, Hc.
    exists c, w'. unfold IssueList.fetchIssues. rewrite Hget.
    split; [done|]. split; [done|].
    change (drop ((1 - 1) * 20) (Prisma.ordered (map_to_list (table w))))
      with (Prisma.ordered (map_to_list (table w))) in Hlen.
    rewrite Hlen. lia.
  - intros e later Hfault. unfold IssueList.fetchIssues.
    pose proof (GET_fault fmi [] w e later Hfault) as Hfail.
    destruct (IssuesRoute.GET fmi [] w) as [[issues pagination|status error] w'];
      [discriminate | done].
  - destruct (GET_cases fmi [] w) as [Hsame _]. unfold IssueList.fetchIssues.
    by destruct (IssuesRoute.GET fmi [] w) as [[issues pagination|status error] w'].
Qed.

Lemma issue_list_loads_first_twenty_witness :
  calm 2 (Sample.crowd 45)
  ∧ ∃ c w',
      IssueList.fetchIssues Sample.strict (Sample.crowd 45)
      = (IssueList.Loaded (take 20 (Prisma.ordered (map_to_list (table (Sample.crowd 45)))))
           {| IssuesRoute.page := Int 1; IssuesRoute.limit := Int 20;
              IssuesRoute.total := size (table (Sample.crowd 45));
              IssuesRoute.totalPages := Int c |}, w')
      ∧ length (take 20 (Prisma.ordered (map_to_list (table (Sample.crowd 45))))) = 20%nat.
Proof.
  assert (Hcalm : calm 2 (Sample.crowd 45)) by calm_now.
  split; [exact Hcalm|].
  destruct (proj1 (issue_list_loads_first_twenty Sample.strict (Sample.crowd 45)) Hcalm)
    as (c & w' & Hload & _ & Hlen).
  exists c, w'. split; [exact Hload|]. rewrite Hlen.
  assert (Hsize : size (table (Sample.crowd 45)) = 45%nat) by (vm_compute; reflexivity).
  rewrite Hsize. reflexivity.
Defined.

(** [handleIssueUpdate] replaces in place.  The list keeps its
    length and its ids, position by position; an entry is replaced by
    the updated issue exactly when it has its id; an update for an id
    that is not listed changes nothing; and when no id is listed twice,
    as in an answer of the list route, the update is the replacement of
    the one entry with that id. *)
Theorem issue_update_replaces_in_place (updatedIssue : Stored) (issues : list Stored) :
  (IssueList.handleIssueUpdate updatedIssue issues).*1 = issues.*1
  ∧ (∀ (i : nat) issue, issues !! i = Some issue ->
       IssueList.handleIssueUpdate updatedIssue issues !! i
       = Some (if decide (issue.1 = updatedIssue.1) then updatedIssue else issue))
  ∧ (updatedIssue.1 ∉ issues.*1 -> IssueList.handleIssueUpdate updatedIssue issues = issues)
  ∧ (NoDup issues.*1 ->
     ∀ (i : nat) old, issues !! i = Some old -> old.1 = updatedIssue.1 ->
       IssueList.handleIssueUpdate updatedIssue issues = <[i := updatedIssue]> issues).
Proof.
  unfold IssueList.handleIssueUpdate. split; [|split; [|split]].
  - change (map ?f issues) with (f <$> issues). rewrite <- list_fmap_compose.
    apply list_fmap_ext. intros i issue _. simpl.
    by destruct (String.eqb_spec issue.1 updatedIssue.1) as [->|].
  - intros i issue Hi. change (map ?f issues) with (f <$> issues).
    rewrite list_lookup_fmap. unfold Stored in *. rewrite Hi. simpl.
    destruct (String.eqb_spec issue.1 updatedIssue.1); by destruct (decide _).
  - induction issues as [|[id r] rest IH]; [done|]. simpl.
    intros [Hne Hrest]%not_elem_of_cons.
    destruct (String.eqb_spec id updatedIssue.1) as [->|_]; [done|]. by rewrite IH.
  - induction issues as [|[id r] rest IH]; [done|]. simpl.
    intros [Hfresh Hnodup]%NoDup_cons [|i] old Hi Hold; simpl in *.
    + injection Hi as <-. simpl in Hold. subst id. rewrite String.eqb_refl. f_equal.
      clear IH Hnodup. induction rest as [|[id' r'] rest IH]; [done|]. simpl in *.
      apply not_elem_of_cons in Hfresh as [Hne Hfresh].
      destruct (String.eqb_spec id' updatedIssue.1) as [->|_]; [done|]. by rewrite IH.
    + destruct (String.eqb_spec id updatedIssue.1) as [->|_].
      * destruct Hfresh. rewrite <- Hold. apply list_elem_of_fmap.
        exists old. split; [done|]. by eapply list_elem_of_lookup_2.
      * f_equal. by eapply IH.
Qed.

Lemma issue_update_replaces_in_place_witness :
  IssueList.handleIssueUpdate ("c", SampleBoard.row 3 open in_process 1700000000100)
    [ ("d", SampleBoard.row 4 open pending 1700000000700);
      ("c", SampleBoard.row 3 open pending 1700000000100);
      ("b", SampleBoard.row 2 open in_process 1700000000800) ]
  = [ ("d", SampleBoard.row 4 open pending 1700000000700);
      ("c", SampleBoard.row 3 open in_process 1700000000100);
      ("b", SampleBoard.row 2 open in_process 1700000000800) ].
Proof.
  refine (proj2 (proj2 (proj2
            (issue_update_replaces_in_place
               ("c", SampleBoard.row 3 open in_process 1700000000100)
               [ ("d", SampleBoard.row 4 open pending 1700000000700);
                 ("c", SampleBoard.row 3 open pending 1700000000100);
                 ("b", SampleBoard.row 2 open in_process 1700000000800) ])))
            _ 1%nat ("c", SampleBoard.row 3 open pending 1700000000100) eq_refl eq_refl).
  simpl. repeat (apply NoDup_cons; split;
                   [rewrite ?not_elem_of_cons; repeat split; try discriminate;
                    apply not_elem_of_nil|]).
  apply NoDup_nil. done.
Defined.

(** ** The header *)

Section HeaderSync.

Variable fetch : string -> string -> GitHub.Response.
Variable new_Date : string -> Z.

(** A run in which no repository yields issues writes nothing and
    counts nothing. *)
Lemma syncRepos_nothing_fetched fuel token repos result w :
  Forall (fun repo => match Run.outcome fetch fuel token repo with
                      | Run.BadFormat | Run.FetchFailed _ => True
                      | _ => False
                      end) repos ->
  ∃ result',
    SyncIssues.syncRepos fetch new_Date fuel token repos result w = Some (result', w)
    ∧ SyncIssues.created result' = SyncIssues.created result
    ∧ SyncIssues.updated result' = SyncIssues.updated result
    ∧ length (SyncIssues.errors result')
      = (length (SyncIssues.errors result) + length repos)%nat.
Proof.
  revert result. induction repos as [|repo rest IH]; intros result Hall.
  - exists result. simpl. repeat split; lia.
  - apply Forall_cons in Hall as [Hrepo Hrest].
    rewrite syncRepos_cons, syncRepo_outcome.
    destruct (Run.outcome fetch fuel token repo) as [|err|issues|]; try done.
    + destruct (IH (SyncIssues.push_error (Run.format_error repo) result) Hrest)
        as (result' & -> & Hc & Hu & He).
      exists result'. split; [done|]. rewrite Hc, Hu, He.
      unfold SyncIssues.push_error. simpl. rewrite length_app. simpl.
      repeat split; lia.
    + destruct (IH (SyncIssues.push_error (Run.fetch_error repo err) result) Hrest)
        as (result' & -> & Hc & Hu & He).
      exists result'. split; [done|]. rewrite Hc, Hu, He.
      unfold SyncIssues.push_error. simpl. rewrite length_app. simpl.
      repeat split; lia.
Qed.

End HeaderSync.

(** What the header shows after a sync.  It is the error of the route
    when the configuration is missing, and otherwise the line with the
    numbers of created and updated issues and nothing else: the errors
    of the run are not shown.  In particular, when no repository can be
    fetched the header reports a sync of 0 created and 0 updated, the
    table being as it was. *)
Theorem header_shows_counts_and_no_errors
    (fetch : string -> string -> GitHub.Response) (new_Date : string -> Z) fuel env w :
  (∀ message w',
     Header.handleSync fetch new_Date fuel env w = Some (message, w') ->
     (truthy (GH_TOKEN env) = false ∧ w' = w
      ∧ message = "❌ Error: GH_TOKEN environment variable is not set")
     ∨ (truthy (GH_TOKEN env) = true ∧ truthy (GH_REPOS env) = false ∧ w' = w
        ∧ message = "❌ Error: GH_REPOS environment variable is not set")
     ∨ (truthy (GH_TOKEN env) = true ∧ truthy (GH_REPOS env) = true
        ∧ ∃ result,
            SyncIssues.syncIssuesFromGitHub fetch new_Date fuel env w = Some (Normal result, w')
            ∧ message = "✅ Synced: " ++ pretty (SyncIssues.created result) ++ " created, "
                        ++ pretty (SyncIssues.updated result) ++ " updated"))
  ∧ (truthy (GH_TOKEN env) = true -> truthy (GH_REPOS env) = true ->
     Forall (fun repo => match Run.outcome fetch fuel (default "" (GH_TOKEN env)) repo with
                         | Run.BadFormat | Run.FetchFailed _ => True
                         | _ => False
                         end)
            (map trim (split "," (default "" (GH_REPOS env)))) ->
     Header.handleSync fetch new_Date fuel env w
     = Some ("✅ Synced: 0 created, 0 updated", w)).
Proof.
  split.
  - intros message w'. unfold Header.handleSync, SyncIssuesRoute.POST.
    destruct (SyncIssues.syncIssuesFromGitHub fetch new_Date fuel env w) as [x|] eqn:Hrun;
      [|discriminate].
    destruct (syncIssuesFromGitHub_cases fetch new_Date fuel env w x Hrun)
      as [(Htoken & ->) | [(Htoken & Hrepos & ->) | (Htoken & Hrepos & result & w1 & -> & _)]].
    + intros [= <- <-]. by left.
    + intros [= <- <-]. right. by left.
    + intros [= <- <-]. right. right. split; [done|]. split; [done|]. by exists result.
  - intros Htoken Hrepos Hall. unfold Header.handleSync, SyncIssuesRoute.POST,
      SyncIssues.syncIssuesFromGitHub.
    rewrite Htoken, Hrepos. simpl negb. cbv iota.
    destruct (syncRepos_nothing_fetched fetch new_Date fuel (default "" (GH_TOKEN env)) _
                (SyncIssues.mkSyncResult 0 0 []) w Hall) as (result' & -> & Hc & Hu & _).
    simpl in Hc, Hu. by rewrite Hc, Hu.
Qed.

Lemma header_shows_counts_and_no_errors_witness :
  Header.handleSync Pages.down Sample.instant 3 Sample.env (Sample.store open pending)
  = Some ("✅ Synced: 0 created, 0 updated", Sample.store open pending).
Proof.
  refine (proj2 (header_shows_counts_and_no_errors Pages.down Sample.instant 3 Sample.env
                   (Sample.store open pending)) eq_refl eq_refl _).
  change (Forall (fun repo => match Run.outcome Pages.down 3 "ghp_example" repo with
                              | Run.BadFormat | Run.FetchFailed _ => True
                              | _ => False
                              end) ["acme/api"; "acme/shop"]).
  repeat constructor.
Defined.
